(** * Argus voice controller: a shallow embedding of
      [src/services/voiceController.ts]

    The class [VoiceController] owns a speech-recognition handle, the
    speech-synthesis queue and one restart timer.  Its methods and the event
    handlers it installs are embedded as functions on a [World]: the fields
    of the class together with the part of the browser that the class
    drives (live timers, the recognition session, the utterances whose
    handlers are still armed, [Math.random]) and a log of every call the
    controller makes on the outside.

    JavaScript numbers that take part in arithmetic (the backoff delay) are
    IEEE 754 binary64 values, modelled with the standard library's
    [SpecFloat]; counters are [nat]. *)

From Stdlib Require Import Bool Arith List String Ascii ZArith Lia.
From Stdlib Require Import QArith Qpower Floats.SpecFloat.
From Stdlib Require Import DecimalString.
Import ListNotations.

Local Close Scope Q_scope.
Local Open Scope nat_scope.
Local Open Scope string_scope.
Local Open Scope list_scope.

(** ** Strings *)

Module Str.

(** A JavaScript string whose characters are all ASCII is the Rocq string
    of the same characters; the keywords, prompts and messages of the
    program are such strings.  A string with other characters is read
    through the bytes of its UTF-8 encoding: [includes], [truthy] and the
    word tests give the program's answers on it as well, because the
    patterns they look for are ASCII and [\w] is an ASCII class.  Case
    mapping, white space and length are those of JavaScript on ASCII
    strings only ([isAscii]); the properties that depend on
    [toLowerCase], [trim] or [String.length] assume such a string. *)
Fixpoint isAscii (s : string) : bool :=
  match s with
  | EmptyString => true
  | String c s' => (nat_of_ascii c <? 128)%nat && isAscii s'
  end.

(** [s.includes(p)]: [p] occurs in [s] as a contiguous substring. *)
Fixpoint includes (s p : string) : bool :=
  String.prefix p s
  || match s with
     | EmptyString => false
     | String _ s' => includes s' p
     end.

Definition isUpper (c : ascii) : bool :=
  let n := nat_of_ascii c in (65 <=? n)%nat && (n <=? 90)%nat.

Definition lowerChar (c : ascii) : ascii :=
  if isUpper c then ascii_of_nat (nat_of_ascii c + 32) else c.

(** [s.toLowerCase()] of an ASCII string: the letters [A] to [Z] are
    mapped, everything else is kept.  (JavaScript also maps capitals
    outside ASCII; on a string that is not [isAscii] this function does
    not describe it.) *)
Fixpoint toLowerCase (s : string) : string :=
  match s with
  | EmptyString => EmptyString
  | String c s' => String (lowerChar c) (toLowerCase s')
  end.

(** White space as [String.prototype.trim] sees it, within ASCII:
    TAB, LF, VT, FF, CR and SPACE.  (JavaScript also trims Unicode white
    space such as U+00A0; [trim] below is [String.prototype.trim] on
    [isAscii] strings.) *)
Definition isSpace (c : ascii) : bool :=
  let n := nat_of_ascii c in
  ((9 <=? n)%nat && (n <=? 13)%nat) || (n =? 32)%nat.

Fixpoint trimStart (s : string) : string :=
  match s with
  | EmptyString => EmptyString
  | String c s' => if isSpace c then trimStart s' else s
  end.

Fixpoint trimEnd (s : string) : string :=
  match s with
  | EmptyString => EmptyString
  | String c s' =>
      match trimEnd s' with
      | EmptyString => if isSpace c then EmptyString else String c EmptyString
      | t => String c t
      end
  end.

Definition trim (s : string) : string := trimEnd (trimStart s).

(** Truthiness of a string: only the empty string is falsy. *)
Definition truthy (s : string) : bool :=
  match s with EmptyString => false | _ => true end.

(** The class [\w] of the regular expressions used by the parser (no
    [u] or [i] flag): ASCII letters, digits and the underscore. *)
Definition isWordChar (c : ascii) : bool :=
  let n := nat_of_ascii c in
  ((48 <=? n)%nat && (n <=? 57)%nat)
  || ((65 <=? n)%nat && (n <=? 90)%nat)
  || (n =? 95)%nat
  || ((97 <=? n)%nat && (n <=? 122)%nat).

Definition isWordOpt (c : option ascii) : bool :=
  match c with Some a => isWordChar a | None => false end.

(** [\b] holds between two neighbouring positions when exactly one of
    them is a word character; the outside of the string counts as a
    non-word character. *)
Definition boundary (before after : option ascii) : bool :=
  xorb (isWordOpt before) (isWordOpt after).

Definition head (s : string) : option ascii :=
  match s with EmptyString => None | String c _ => Some c end.

Fixpoint lastOr (d : option ascii) (s : string) : option ascii :=
  match s with
  | EmptyString => d
  | String c s' => lastOr (Some c) s'
  end.

Fixpoint drop (n : nat) (s : string) : string :=
  match n, s with
  | O, _ => s
  | S n', String _ s' => drop n' s'
  | S _, EmptyString => EmptyString
  end.

(** One alternative [k] of [\b(k1|k2|...)\b] matched at the current
    position, [prev] being the character just before it. *)
Definition wordAt (prev : option ascii) (s k : string) : bool :=
  String.prefix k s
  && boundary prev (head s)
  && boundary (lastOr prev k) (head (drop (String.length k) s)).

Fixpoint wordScan (keywords : list string) (prev : option ascii)
    (s : string) : bool :=
  existsb (wordAt prev s) keywords
  || match s with
     | EmptyString => false
     | String c s' => wordScan keywords (Some c) s'
     end.

(** [new RegExp("\\b(" + keywords.join("|") + ")\\b").test(s)] for
    keywords made of literal characters. *)
Definition testWords (keywords : list string) (s : string) : bool :=
  wordScan keywords None s.

Definition quote : string := String (ascii_of_nat 34) EmptyString.

End Str.

(** ** Numbers: IEEE 754 binary64 *)

Module Num.

Definition prec : Z := 53.
Definition emax : Z := 1024.

Definition ofPos (p : positive) : spec_float := binary_round prec emax false p 0.

Definition mul : spec_float -> spec_float -> spec_float := SFmul prec emax.
Definition add : spec_float -> spec_float -> spec_float := SFadd prec emax.

(** [Math.pow(2, n)] for a counter [n]: the exact power of two while it
    is representable, [+Infinity] from [2^1024] on. *)
Definition pow2 (n : nat) : spec_float :=
  if (n <? 1024)%nat
  then S754_finite false 4503599627370496 (Z.of_nat n - 52)
  else S754_infinity false.

(** [Math.min(a, b)]: NaN when the operands do not compare. *)
Definition min (a b : spec_float) : spec_float :=
  match SFcompare a b with
  | Some Gt => b
  | Some _ => a
  | None => S754_nan
  end.

(** The rational number a finite binary64 value stands for. *)
Definition toQ (x : spec_float) : option Q :=
  match x with
  | S754_zero _ => Some 0%Q
  | S754_finite s m e =>
      Some (inject_Z (cond_Zopp s (Zpos m)) * Qpower 2 e)%Q
  | _ => None
  end.

(** What [Math.random()] may return: a binary64 value [r] with
    [0 <= r < 1] and a positive sign. *)
Definition isRandom (r : spec_float) : bool :=
  match r with
  | S754_zero false => true
  | S754_finite false m e =>
      bounded prec emax m e && SFltb r (ofPos 1)
  | _ => false
  end.

End Num.

(** ** The world: controller fields and the browser around them *)

(** The two settings a voice command can toggle. *)
Inductive Setting := Haptic | Audio.

(** What a timer runs when it fires: the end-of-session restart
    ([() => this.startListening()]) or the backoff retry (which first
    clears [isErrorRecovery]). *)
Inductive TimerCallback := RestartCallback | RetryCallback.

Record Timer := mkTimer {
  timerId : nat;
  timerCallback : TimerCallback;
  timerDelay : spec_float
}.

(** Every call the controller makes on the outside world, in order, and
    an exception that leaves one of its methods ([Thrown]). *)
Inductive Action :=
| VoiceStatus (status : string) (listening : bool)
| NavigationOpen
| TextReadOpen
| SettingsOpen
| ModeClose
| ToggleSetting (setting : Setting) (value : bool)
| CheckBattery
| RecognitionStart
| RecognitionStop
| RecognitionAbort
| SynthCancel
| SynthSpeak (utterance : nat) (text : string)
| SetTimeout (id : nat) (callback : TimerCallback) (delay : spec_float)
| ClearTimeout (id : nat)
| Resolved (utterance : nat)
| Thrown (error : string).

Record World := mkWorld {
  recognition : bool;
  isListening : bool;
  speechSynthesis : bool;
  currentUtterance : option nat;
  autoStart : bool;
  language : string;
  provideFeedback : bool;
  onCheckBattery : string;
  restartTimer : option nat;
  errorRetryCount : nat;
  isErrorRecovery : bool;
  isSpeaking : bool;
  recognitionLang : string;
  recognitionStarted : bool;
  timers : list Timer;
  nextTimer : nat;
  utterances : list (nat * bool);
  nextUtterance : nat;
  mathRandom : nat -> spec_float;
  randomCalls : nat;
  log : list Action
}.

Definition set_isListening (v : bool) (w : World) : World :=
  mkWorld (recognition w) v (speechSynthesis w) (currentUtterance w)
    (autoStart w) (language w) (provideFeedback w) (onCheckBattery w)
    (restartTimer w) (errorRetryCount w) (isErrorRecovery w) (isSpeaking w)
    (recognitionLang w) (recognitionStarted w) (timers w) (nextTimer w)
    (utterances w) (nextUtterance w) (mathRandom w) (randomCalls w) (log w).

Definition set_currentUtterance (v : option nat) (w : World) : World :=
  mkWorld (recognition w) (isListening w) (speechSynthesis w) v
    (autoStart w) (language w) (provideFeedback w) (onCheckBattery w)
    (restartTimer w) (errorRetryCount w) (isErrorRecovery w) (isSpeaking w)
    (recognitionLang w) (recognitionStarted w) (timers w) (nextTimer w)
    (utterances w) (nextUtterance w) (mathRandom w) (randomCalls w) (log w).

Definition set_autoStart (v : bool) (w : World) : World :=
  mkWorld (recognition w) (isListening w) (speechSynthesis w)
    (currentUtterance w) v (language w) (provideFeedback w)
    (onCheckBattery w) (restartTimer w) (errorRetryCount w)
    (isErrorRecovery w) (isSpeaking w) (recognitionLang w)
    (recognitionStarted w) (timers w) (nextTimer w) (utterances w)
    (nextUtterance w) (mathRandom w) (randomCalls w) (log w).

Definition set_language (v : string) (w : World) : World :=
  mkWorld (recognition w) (isListening w) (speechSynthesis w)
    (currentUtterance w) (autoStart w) v (provideFeedback w)
    (onCheckBattery w) (restartTimer w) (errorRetryCount w)
    (isErrorRecovery w) (isSpeaking w) (recognitionLang w)
    (recognitionStarted w) (timers w) (nextTimer w) (utterances w)
    (nextUtterance w) (mathRandom w) (randomCalls w) (log w).

Definition set_provideFeedback (v : bool) (w : World) : World :=
  mkWorld (recognition w) (isListening w) (speechSynthesis w)
    (currentUtterance w) (autoStart w) (language w) v (onCheckBattery w)
    (restartTimer w) (errorRetryCount w) (isErrorRecovery w) (isSpeaking w)
    (recognitionLang w) (recognitionStarted w) (timers w) (nextTimer w)
    (utterances w) (nextUtterance w) (mathRandom w) (randomCalls w) (log w).

Definition set_onCheckBattery (v : string) (w : World) : World :=
  mkWorld (recognition w) (isListening w) (speechSynthesis w)
    (currentUtterance w) (autoStart w) (language w) (provideFeedback w) v
    (restartTimer w) (errorRetryCount w) (isErrorRecovery w) (isSpeaking w)
    (recognitionLang w) (recognitionStarted w) (timers w) (nextTimer w)
    (utterances w) (nextUtterance w) (mathRandom w) (randomCalls w) (log w).

Definition set_restartTimer (v : option nat) (w : World) : World :=
  mkWorld (recognition w) (isListening w) (speechSynthesis w)
    (currentUtterance w) (autoStart w) (language w) (provideFeedback w)
    (onCheckBattery w) v (errorRetryCount w) (isErrorRecovery w)
    (isSpeaking w) (recognitionLang w) (recognitionStarted w) (timers w)
    (nextTimer w) (utterances w) (nextUtterance w) (mathRandom w)
    (randomCalls w) (log w).

Definition set_errorRetryCount (v : nat) (w : World) : World :=
  mkWorld (recognition w) (isListening w) (speechSynthesis w)
    (currentUtterance w) (autoStart w) (language w) (provideFeedback w)
    (onCheckBattery w) (restartTimer w) v (isErrorRecovery w) (isSpeaking w)
    (recognitionLang w) (recognitionStarted w) (timers w) (nextTimer w)
    (utterances w) (nextUtterance w) (mathRandom w) (randomCalls w) (log w).

Definition set_isErrorRecovery (v : bool) (w : World) : World :=
  mkWorld (recognition w) (isListening w) (speechSynthesis w)
    (currentUtterance w) (autoStart w) (language w) (provideFeedback w)
    (onCheckBattery w) (restartTimer w) (errorRetryCount w) v (isSpeaking w)
    (recognitionLang w) (recognitionStarted w) (timers w) (nextTimer w)
    (utterances w) (nextUtterance w) (mathRandom w) (randomCalls w) (log w).

Definition set_isSpeaking (v : bool) (w : World) : World :=
  mkWorld (recognition w) (isListening w) (speechSynthesis w)
    (currentUtterance w) (autoStart w) (language w) (provideFeedback w)
    (onCheckBattery w) (restartTimer w) (errorRetryCount w)
    (isErrorRecovery w) v (recognitionLang w) (recognitionStarted w)
    (timers w) (nextTimer w) (utterances w) (nextUtterance w) (mathRandom w)
    (randomCalls w) (log w).

Definition set_recognitionLang (v : string) (w : World) : World :=
  mkWorld (recognition w) (isListening w) (speechSynthesis w)
    (currentUtterance w) (autoStart w) (language w) (provideFeedback w)
    (onCheckBattery w) (restartTimer w) (errorRetryCount w)
    (isErrorRecovery w) (isSpeaking w) v (recognitionStarted w) (timers w)
    (nextTimer w) (utterances w) (nextUtterance w) (mathRandom w)
    (randomCalls w) (log w).

Definition set_recognitionStarted (v : bool) (w : World) : World :=
  mkWorld (recognition w) (isListening w) (speechSynthesis w)
    (currentUtterance w) (autoStart w) (language w) (provideFeedback w)
    (onCheckBattery w) (restartTimer w) (errorRetryCount w)
    (isErrorRecovery w) (isSpeaking w) (recognitionLang w) v (timers w)
    (nextTimer w) (utterances w) (nextUtterance w) (mathRandom w)
    (randomCalls w) (log w).

Definition set_timers (v : list Timer) (w : World) : World :=
  mkWorld (recognition w) (isListening w) (speechSynthesis w)
    (currentUtterance w) (autoStart w) (language w) (provideFeedback w)
    (onCheckBattery w) (restartTimer w) (errorRetryCount w)
    (isErrorRecovery w) (isSpeaking w) (recognitionLang w)
    (recognitionStarted w) v (nextTimer w) (utterances w) (nextUtterance w)
    (mathRandom w) (randomCalls w) (log w).

Definition set_nextTimer (v : nat) (w : World) : World :=
  mkWorld (recognition w) (isListening w) (speechSynthesis w)
    (currentUtterance w) (autoStart w) (language w) (provideFeedback w)
    (onCheckBattery w) (restartTimer w) (errorRetryCount w)
    (isErrorRecovery w) (isSpeaking w) (recognitionLang w)
    (recognitionStarted w) (timers w) v (utterances w) (nextUtterance w)
    (mathRandom w) (randomCalls w) (log w).

Definition set_utterances (v : list (nat * bool)) (w : World) : World :=
  mkWorld (recognition w) (isListening w) (speechSynthesis w)
    (currentUtterance w) (autoStart w) (language w) (provideFeedback w)
    (onCheckBattery w) (restartTimer w) (errorRetryCount w)
    (isErrorRecovery w) (isSpeaking w) (recognitionLang w)
    (recognitionStarted w) (timers w) (nextTimer w) v (nextUtterance w)
    (mathRandom w) (randomCalls w) (log w).

Definition set_nextUtterance (v : nat) (w : World) : World :=
  mkWorld (recognition w) (isListening w) (speechSynthesis w)
    (currentUtterance w) (autoStart w) (language w) (provideFeedback w)
    (onCheckBattery w) (restartTimer w) (errorRetryCount w)
    (isErrorRecovery w) (isSpeaking w) (recognitionLang w)
    (recognitionStarted w) (timers w) (nextTimer w) (utterances w) v
    (mathRandom w) (randomCalls w) (log w).

Definition set_randomCalls (v : nat) (w : World) : World :=
  mkWorld (recognition w) (isListening w) (speechSynthesis w)
    (currentUtterance w) (autoStart w) (language w) (provideFeedback w)
    (onCheckBattery w) (restartTimer w) (errorRetryCount w)
    (isErrorRecovery w) (isSpeaking w) (recognitionLang w)
    (recognitionStarted w) (timers w) (nextTimer w) (utterances w)
    (nextUtterance w) (mathRandom w) v (log w).

Definition set_log (v : list Action) (w : World) : World :=
  mkWorld (recognition w) (isListening w) (speechSynthesis w)
    (currentUtterance w) (autoStart w) (language w) (provideFeedback w)
    (onCheckBattery w) (restartTimer w) (errorRetryCount w)
    (isErrorRecovery w) (isSpeaking w) (recognitionLang w)
    (recognitionStarted w) (timers w) (nextTimer w) (utterances w)
    (nextUtterance w) (mathRandom w) (randomCalls w) v.

Definition set_recognition (v : bool) (w : World) : World :=
  mkWorld v (isListening w) (speechSynthesis w) (currentUtterance w)
    (autoStart w) (language w) (provideFeedback w) (onCheckBattery w)
    (restartTimer w) (errorRetryCount w) (isErrorRecovery w) (isSpeaking w)
    (recognitionLang w) (recognitionStarted w) (timers w) (nextTimer w)
    (utterances w) (nextUtterance w) (mathRandom w) (randomCalls w) (log w).

Definition emit (a : Action) (w : World) : World :=
  set_log (log w ++ [a]) w.

(** ** Browser primitives *)

(** [window.clearTimeout(id)]: the timer, if still live, never fires. *)
Definition clearTimeout (id : nat) (w : World) : World :=
  emit (ClearTimeout id)
    (set_timers (filter (fun t => negb (Nat.eqb (timerId t) id)) (timers w)) w).

(** [window.setTimeout(callback, delay)]: a fresh positive handle. *)
Definition setTimeout (callback : TimerCallback) (delay : spec_float)
    (w : World) : nat * World :=
  let id := nextTimer w in
  (id,
   emit (SetTimeout id callback delay)
     (set_nextTimer (S id)
        (set_timers (timers w ++ [mkTimer id callback delay]) w))).

(** [Math.random()]: the next value of the world's random source. *)
Definition nextRandom (w : World) : spec_float * World :=
  (mathRandom w (randomCalls w), set_randomCalls (S (randomCalls w)) w).

(** ** Methods of [VoiceController] *)

(** [if (this.restartTimer) clearTimeout(this.restartTimer);] a handle is
    truthy unless it is [null] or [0]. *)
Definition clearRestartTimer (w : World) : World :=
  match restartTimer w with
  | Some (S _ as id) => clearTimeout id w
  | _ => w
  end.

(** The idiom by which [onend] and [onerror] arm a timer:
    [if (this.restartTimer) clearTimeout(this.restartTimer);
     this.restartTimer = window.setTimeout(callback, delay);] *)
Definition arm (callback : TimerCallback) (delay : spec_float) (w : World)
    : World :=
  let w := clearRestartTimer w in
  let (id, w) := setTimeout callback delay w in
  set_restartTimer (Some id) w.

Definition isFatal (error : string) : bool :=
  (error =? "not-allowed") || (error =? "service-not-allowed")
  || (error =? "audio-capture").

Definition isIgnored (error : string) : bool :=
  (error =? "aborted") || (error =? "no-speech").

Definition isRecoverable (error : string) : bool :=
  negb (isIgnored error) && negb (isFatal error).

Definition baseDelay : spec_float := Num.ofPos 500.

(** [Math.min(30000, Math.pow(2, n) * baseDelay) + jitter] with
    [jitter = r * 250] for [r] the value of [Math.random()]. *)
Definition backoffDelay (n : nat) (r : spec_float) : spec_float :=
  let jitter := Num.mul r (Num.ofPos 250) in
  Num.add (Num.min (Num.ofPos 30000) (Num.mul (Num.pow2 n) baseDelay)) jitter.

Arguments backoffDelay : simpl never.

(** [recognition.onerror] *)
Definition onerror (error : string) (w : World) : World :=
  let w := set_isListening false w in
  if error =? "aborted" then w
  else if error =? "no-speech" then w
  else
    let w := set_isErrorRecovery true w in
    if (error =? "not-allowed") || (error =? "service-not-allowed") then
      let w := emit (VoiceStatus "Microphone permission denied" false) w in
      set_autoStart false w
    else if error =? "audio-capture" then
      let w := emit (VoiceStatus "Microphone not available" false) w in
      set_autoStart false w
    else
      let w := set_errorRetryCount (S (errorRetryCount w)) w in
      let (r, w) := nextRandom w in
      let delay := backoffDelay (errorRetryCount w) r in
      let w := emit (VoiceStatus "Voice connection issue. Retrying..." false) w in
      arm RetryCallback delay w.

(** [startListening()].  [recognition.start()] throws when the session
    has already been started and has not ended yet; the [catch] branch
    then raises the internal ['start-failed'] error unless a recovery is
    already under way. *)
Definition startListening (w : World) : World :=
  let w := clearRestartTimer w in
  if recognition w && negb (isListening w) then
    let w := emit RecognitionStart w in
    if recognitionStarted w then
      if negb (isErrorRecovery w) then onerror "start-failed" w else w
    else set_recognitionStarted true w
  else w.

(** [stopListening()] *)
Definition stopListening (w : World) : World :=
  let w := clearRestartTimer w in
  let w := if recognition w then emit RecognitionAbort w else w in
  let w := set_isListening false w in
  emit (VoiceStatus "Voice paused" false) w.

(** [stopSpeaking()] *)
Definition stopSpeaking (w : World) : World :=
  if speechSynthesis w then emit SynthCancel w else w.

(** How a call of [speak] leaves its promise: resolved before the call
    returns, or waiting for the terminal event of the utterance. *)
Inductive Completion := ResolvedNow | Pending (utterance : nat).

(** [speak(text)] *)
Definition speak (text : string) (w : World) : Completion * World :=
  if negb (speechSynthesis w) || negb (provideFeedback w)
     || negb (Str.truthy text)
  then (ResolvedNow, w)
  else
    let wasListening := isListening w && autoStart w in
    let w := emit SynthCancel w in
    let w :=
      if wasListening then
        let w := set_isSpeaking true w in
        if recognition w then emit RecognitionStop w else w
      else w in
    let u := nextUtterance w in
    let w := set_nextUtterance (S u) w in
    let w := set_utterances (utterances w ++ [(u, wasListening)]) w in
    let w := set_currentUtterance (Some u) w in
    (Pending u, emit (SynthSpeak u text) w).

(** [utterance.onend] and [utterance.onerror]: apart from what they print
    on the console the two handlers are the same. *)
Definition utteranceTerminal (u : nat) (wasListening : bool) (w : World)
    : World :=
  let w := set_currentUtterance None w in
  let w :=
    if wasListening then
      let w := set_isSpeaking false w in
      let w := clearRestartTimer w in
      startListening w
    else w in
  emit (Resolved u) w.

(** ** The command parser: [processVoiceCommand] *)

Module Commands.
Definition navigation : list string :=
  ["open navigation"; "navigation"; "navigate"].
Definition textRead : list string :=
  ["open text"; "text read"; "read text"; "open reader"].
Definition settings : list string :=
  ["open settings"; "settings"; "preferences"].
Definition close : list string :=
  ["close"; "go home"; "home screen"; "exit"; "stop"; "stop navigation";
   "stop text reader"].
End Commands.

Record ToggleableSetting := mkToggleable {
  settingName : Setting;
  settingKeywords : list string
}.

Definition toggleableSettings : list ToggleableSetting :=
  [ mkToggleable Haptic ["haptic"; "haptics"; "vibration"];
    mkToggleable Audio ["audio"; "sound"; "feedback"] ].

(** The alternatives of [/\b(on|enable|start)\b/] and of
    [/\b(off|disable|stop)\b/]. *)
Definition onWords : list string := ["on"; "enable"; "start"].
Definition offWords : list string := ["off"; "disable"; "stop"].

Definition capitalized (s : Setting) : string :=
  match s with Haptic => "Haptic" | Audio => "Audio" end.

(** [commands.X.some(p => command.includes(p))] *)
Definition someIncluded (keywords : list string) (command : string) : bool :=
  existsb (fun p => Str.includes command p) keywords.

Definition speakIfFeedback (text : string) (w : World) : World :=
  if provideFeedback w then snd (speak text w) else w.

(** The [for (const setting of toggleableSettings)] loop; [Some] is a
    [return] out of [processVoiceCommand], [None] falls out of the loop. *)
Fixpoint toggleLoop (todo : list ToggleableSetting) (command : string)
    (w : World) : option World :=
  match todo with
  | [] => None
  | setting :: rest =>
      if Str.testWords (settingKeywords setting) command then
        if Str.testWords onWords command then
          let w := emit (ToggleSetting (settingName setting) true) w in
          Some (speakIfFeedback
                  (capitalized (settingName setting) ++ " enabled.") w)
        else if Str.testWords offWords command then
          let w := emit (ToggleSetting (settingName setting) false) w in
          Some (speakIfFeedback
                  (capitalized (settingName setting) ++ " disabled.") w)
        else toggleLoop rest command w
      else toggleLoop rest command w
  end.

Definition processVoiceCommand (command : string) (w : World) : World :=
  if someIncluded Commands.close command then
    let w := stopSpeaking w in
    let w := emit ModeClose w in
    speakIfFeedback "Returning to home screen" w
  else if someIncluded Commands.navigation command then
    let w := emit NavigationOpen w in
    speakIfFeedback "Opening Navigation" w
  else if someIncluded Commands.textRead command then
    let w := emit TextReadOpen w in
    speakIfFeedback "Opening Text Reader" w
  else if someIncluded Commands.settings command then
    let w := emit SettingsOpen w in
    speakIfFeedback "Opening Settings" w
  else
    match toggleLoop toggleableSettings command w with
    | Some w' => w'
    | None =>
        if Str.includes command "battery" then
          let w := emit CheckBattery w in
          let status := onCheckBattery w in
          if Str.truthy status && provideFeedback w
          then snd (speak status w)
          else w
        else w
    end.

(** ** Handlers of the recognition session *)

(** [recognition.onstart] *)
Definition onstart (w : World) : World :=
  let w := set_isListening true w in
  emit (VoiceStatus "Listening..." true) w.

(** [recognition.onend] *)
Definition onend (w : World) : World :=
  let w := set_isListening false w in
  if isErrorRecovery w || isSpeaking w then w
  else if autoStart w then arm RestartCallback (Num.ofPos 250) w
  else emit (VoiceStatus "Voice disabled" false) w.

(** The [results] of a result event: [None] when the property is missing,
    otherwise the list of results, each a list of alternative
    transcripts. *)
Definition Results := option (list (list string)).

(** [recognition.onresult] *)
Definition onresult (results : Results) (w : World) : World :=
  let w := set_errorRetryCount 0 w in
  match results with
  | None => w
  | Some rs =>
      let last := nth (List.length rs - 1) rs [] in
      if Nat.eqb (List.length rs) 0 || Nat.eqb (List.length last) 0 then w
      else
        let transcript := Str.trim (Str.toLowerCase (nth 0 last "")) in
        if negb (Str.truthy transcript) then w
        else
          let w := emit (VoiceStatus ("Heard: " ++ Str.quote ++ transcript
                                       ++ Str.quote) true) w in
          processVoiceCommand transcript w
  end.

(** ** Configuration and life cycle *)

(** [Partial<VoiceControllerOptions>]: the fields a caller may give. *)
Record VoiceControllerOptions := mkOptions {
  optAutoStart : option bool;
  optLanguage : option string;
  optProvideFeedback : option bool;
  optOnCheckBattery : option string
}.

Definition orElse {A} (o : option A) (d : A) : A :=
  match o with Some x => x | None => d end.

(** [updateConfig(newConfig)] *)
Definition updateConfig (newConfig : VoiceControllerOptions) (w : World)
    : World :=
  let w := set_autoStart (orElse (optAutoStart newConfig) (autoStart w)) w in
  let w := set_language (orElse (optLanguage newConfig) (language w)) w in
  let w := set_provideFeedback
             (orElse (optProvideFeedback newConfig) (provideFeedback w)) w in
  let w := set_onCheckBattery
             (orElse (optOnCheckBattery newConfig) (onCheckBattery w)) w in
  if recognition w then set_recognitionLang (language w) w else w.

(** [destroy()].  Its last statement calls [cancel] on the synthesis
    handle without the guard that [speak] and [stopSpeaking] have: on a
    host without speech synthesis the call throws a [TypeError], after
    everything before it has taken effect. *)
Definition destroy (w : World) : World :=
  let w := clearRestartTimer w in
  let w := set_autoStart false w in
  let w := if recognition w then emit RecognitionAbort w else w in
  if speechSynthesis w then emit SynthCancel w
  else emit (Thrown "TypeError") w.

(** What the host offers when the controller is constructed. *)
Record Host := mkHost {
  hasSpeechRecognition : bool;
  hasSpeechSynthesis : bool;
  hostRandom : nat -> spec_float
}.

(** [setupVoiceRecognition()]; the handlers it installs are the functions
    [onstart], [onend], [onresult] and [onerror] above. *)
Definition setupVoiceRecognition (host : Host) (w : World) : bool * World :=
  if negb (hasSpeechRecognition host) then
    (false, emit (VoiceStatus "Speech recognition not supported" false) w)
  else
    (true, set_recognitionLang (language w) (set_recognition true w)).

(** [new VoiceController(options)]: defaults, [options] spread over them,
    then [init()]. *)
Definition construct (options : VoiceControllerOptions) (host : Host) : World :=
  let w :=
    mkWorld false false (hasSpeechSynthesis host) None
      (orElse (optAutoStart options) true)
      (orElse (optLanguage options) "en-US")
      (orElse (optProvideFeedback options) true)
      (orElse (optOnCheckBattery options)
         "Battery status check not implemented.")
      None 0 false false
      "" false [] 1 [] 0 (hostRandom host) 0 [] in
  let (ok, w) := setupVoiceRecognition host w in
  if ok && autoStart w then startListening w else w.

(** ** Events *)

(** Everything that can happen to a controller: a call of one of its
    public methods, an event of the recognition session, the terminal
    event of an utterance, or a timer firing. *)
Inductive Event :=
| CallStartListening
| CallStopListening
| CallSpeak (text : string)
| CallStopSpeaking
| CallUpdateConfig (newConfig : VoiceControllerOptions)
| CallDestroy
| RecStart
| RecEnd
| RecResult (results : Results)
| RecError (error : string)
| UtteranceEnd (utterance : nat)
| UtteranceError (utterance : nat) (error : string)
| TimerFire (id : nat).

Definition findUtterance (u : nat) (w : World) : option bool :=
  option_map snd (find (fun p => Nat.eqb (fst p) u) (utterances w)).

(** The terminal event of utterance [u]: its handler runs once. *)
Definition deliverTerminal (u : nat) (w : World) : World :=
  match findUtterance u w with
  | None => w
  | Some wasListening =>
      let w := set_utterances
                 (filter (fun p => negb (Nat.eqb (fst p) u)) (utterances w)) w in
      utteranceTerminal u wasListening w
  end.

(** A live timer fires: it leaves the set of live timers and its callback
    runs.  A handle that is not live does nothing. *)
Definition fireTimer (id : nat) (w : World) : World :=
  match find (fun t => Nat.eqb (timerId t) id) (timers w) with
  | None => w
  | Some t =>
      let w := set_timers
                 (filter (fun t => negb (Nat.eqb (timerId t) id)) (timers w)) w in
      match timerCallback t with
      | RestartCallback => startListening w
      | RetryCallback => startListening (set_isErrorRecovery false w)
      end
  end.

(** Events of the recognition session reach the handlers only when
    [setupVoiceRecognition] installed them. *)
Definition handle (e : Event) (w : World) : World :=
  match e with
  | CallStartListening => startListening w
  | CallStopListening => stopListening w
  | CallSpeak text => snd (speak text w)
  | CallStopSpeaking => stopSpeaking w
  | CallUpdateConfig c => updateConfig c w
  | CallDestroy => destroy w
  | RecStart => if recognition w then onstart w else w
  | RecEnd =>
      if recognition w then onend (set_recognitionStarted false w) else w
  | RecResult rs => if recognition w then onresult rs w else w
  | RecError error => if recognition w then onerror error w else w
  | UtteranceEnd u => deliverTerminal u w
  | UtteranceError u _ => deliverTerminal u w
  | TimerFire id => fireTimer id w
  end.

Definition run (events : list Event) (w : World) : World :=
  fold_left (fun w e => handle e w) events w.

(** ** Observations on the log *)

Definition isIntent (a : Action) : bool :=
  match a with
  | NavigationOpen | TextReadOpen | SettingsOpen | ModeClose
  | ToggleSetting _ _ | CheckBattery => true
  | _ => false
  end.

(** The application callbacks invoked so far. *)
Definition intents (w : World) : list Action := filter isIntent (log w).

Definition isStart (a : Action) : bool :=
  match a with RecognitionStart => true | _ => false end.

(** How many times [recognition.start()] has been called so far. *)
Definition starts (w : World) : nat := List.length (filter isStart (log w)).

Definition inFlight (u : nat) (w : World) : bool :=
  match findUtterance u w with Some _ => true | None => false end.

(** ** The parser as the specification words it

    An ordered table of keyword sets, then the toggle rule, then the
    battery keyword; the first rule that matches decides. *)

Module Spec.

Inductive Intent :=
| CloseHome
| OpenNavigation
| OpenTextReader
| OpenSettings
| Toggle (setting : Setting) (value : bool)
| Battery.

(** Rules 1 to 4, in priority order. *)
Definition priorityTable : list (list string * Intent) :=
  [ (Commands.close, CloseHome);
    (Commands.navigation, OpenNavigation);
    (Commands.textRead, OpenTextReader);
    (Commands.settings, OpenSettings) ].

(** The boolean an on/off modifier resolves to, if one is present. *)
Definition modifier (transcript : string) : option bool :=
  if Str.testWords onWords transcript then Some true
  else if Str.testWords offWords transcript then Some false
  else None.

(** Rule 5: a modifier and the first setting whose keywords match. *)
Definition toggleRule (transcript : string) : option Intent :=
  match modifier transcript,
        find (fun s => Str.testWords (settingKeywords s) transcript)
          toggleableSettings with
  | Some value, Some s => Some (Toggle (settingName s) value)
  | _, _ => None
  end.

Definition parse (transcript : string) : option Intent :=
  match find (fun rule => someIncluded (fst rule) transcript)
          priorityTable with
  | Some (_, intent) => Some intent
  | None =>
      match toggleRule transcript with
      | Some intent => Some intent
      | None =>
          if Str.includes transcript "battery" then Some Battery else None
      end
  end.

(** The one application callback an intent stands for. *)
Definition callback (i : Intent) : Action :=
  match i with
  | CloseHome => ModeClose
  | OpenNavigation => NavigationOpen
  | OpenTextReader => TextReadOpen
  | OpenSettings => SettingsOpen
  | Toggle s v => ToggleSetting s v
  | Battery => CheckBattery
  end.

Definition callbacks (i : option Intent) : list Action :=
  match i with Some i => [callback i] | None => [] end.

End Spec.

(** ** Definitions used to state the properties *)

(** The fields that neither [speak] nor [processVoiceCommand] writes:
    everything but the speaking flag, the utterance slots and the log. *)
Definition core (w : World) :=
  (recognition w, isListening w, speechSynthesis w, autoStart w,
   provideFeedback w, onCheckBattery w, restartTimer w, errorRetryCount w,
   isErrorRecovery w, recognitionStarted w, timers w, nextTimer w,
   randomCalls w).

(** Every live timer is the one [restartTimer] names, and handles are
    positive and below the next one to be handed out. *)
Definition timersOwned (w : World) : Prop :=
  0 < nextTimer w
  /\ (timers w = []
      \/ exists t, timers w = [t] /\ restartTimer w = Some (timerId t)
                   /\ 0 < timerId t < nextTimer w).

(** The world in which the recoverable branch of [onerror] arms its
    timer: flags set, counter incremented, one random number drawn, the
    status reported. *)
Definition retrying (w : World) : World :=
  emit (VoiceStatus "Voice connection issue. Retrying..." false)
    (set_randomCalls (S (randomCalls w))
       (set_errorRetryCount (S (errorRetryCount w))
          (set_isErrorRecovery true (set_isListening false w)))).

(** A world to run the examples in: the default options on a host that
    has both capabilities, when the first session has started. *)
Definition sampleHost : Host := mkHost true true (fun _ => S754_zero false).
Definition defaultOptions : VoiceControllerOptions :=
  mkOptions None None None None.
Definition listeningWorld : World :=
  handle RecStart (construct defaultOptions sampleHost).

(** Nothing was lost in the bits that a shift dropped. *)
Definition nothingLost (mrs : shr_record) : Prop :=
  shr_r mrs = false /\ shr_s mrs = false.

(** A finite value between two integers, read off the mantissa: with
    [e <= 0] the value [m * 2^e] lies in [[lo, hi]] exactly when
    [lo * 2^(-e) <= m <= hi * 2^(-e)]. *)
Definition inRange (lo hi : Z) (x : spec_float) : Prop :=
  match x with
  | S754_zero false => (lo <= 0 <= hi)%Z
  | S754_finite false m e =>
      (e <= 0 /\ lo * 2 ^ (- e) <= Zpos m <= hi * 2 ^ (- e))%Z
  | _ => False
  end.

(** [min(30000, 500 * 2^n)] milliseconds, as the specification has it. *)
Definition baseMillis (n : nat) : Z :=
  Z.min 30000 (500 * 2 ^ Z.of_nat n)%Z.

(** The utterance slots: the handlers still armed and the next id. *)
Definition slots (w : World) : list (nat * bool) * nat :=
  (utterances w, nextUtterance w).

(** Every utterance whose handlers are armed has an id that was handed
    out before. *)
Definition utterancesFresh (w : World) : Prop :=
  forall u b, In (u, b) (utterances w) -> u < nextUtterance w.

(** ** Further observations and helpers *)

(** Calls on the recognition handle. *)
Definition isRecognitionCall (a : Action) : bool :=
  match a with
  | RecognitionStart | RecognitionStop | RecognitionAbort => true
  | _ => false
  end.

(** The texts handed to [speechSynthesis.speak] so far, in order. *)
Definition spoken (w : World) : list string :=
  flat_map (fun a => match a with SynthSpeak _ text => [text] | _ => [] end)
    (log w).

(** A controller that never got a recognition handle: nothing of the
    listen loop has ever run. *)
Definition dormant (w : World) : Prop :=
  recognition w = false
  /\ isListening w = false
  /\ isSpeaking w = false
  /\ isErrorRecovery w = false
  /\ errorRetryCount w = 0
  /\ restartTimer w = None
  /\ timers w = []
  /\ filter isRecognitionCall (log w) = []
  /\ (forall u b, In (u, b) (utterances w) -> b = false).

(** What [speak] and the terminal handlers keep between them. *)
Definition speechState (w : World) : list (nat * bool) * nat * bool :=
  (utterances w, nextUtterance w, isSpeaking w).

(** The speaking flag is backed by an utterance: ids are handed out once,
    and while the flag is set some utterance whose handlers are armed
    recorded that recognition was active, so that its terminal event
    will clear the flag. *)
Definition speakingBacked (w : World) : Prop :=
  utterancesFresh w
  /\ NoDup (map fst (utterances w))
  /\ (isSpeaking w = true -> exists u, In (u, true) (utterances w)).

(** The flags and counters of the recognition side that timers leave
    alone. *)
Definition flags (w : World) :=
  (recognition w, isListening w, isErrorRecovery w, isSpeaking w,
   autoStart w, recognitionStarted w, errorRetryCount w).

(** A controller that will not start recognition on its own: restarting
    is switched off, no timer is live and no utterance in flight recorded
    that recognition was active. *)
Definition halted (w : World) : Prop :=
  autoStart w = false /\ timers w = []
  /\ forall u b, In (u, b) (utterances w) -> b = false.

(** Events that are not a request to listen: everything but a call of
    [startListening()], a reconfiguration that switches restarting on,
    and a recoverable recognition error (whose retry ignores the
    configuration). *)
Definition passive (e : Event) : bool :=
  match e with
  | CallStartListening => false
  | CallUpdateConfig newConfig => negb (orElse (optAutoStart newConfig) false)
  | RecError error => negb (isRecoverable error)
  | _ => true
  end.

(** A recovery that nothing is going to end: the flag is set and no live
    timer is a retry timer, the only callback that clears it. *)
Definition recoveryStuck (w : World) : Prop :=
  isErrorRecovery w = true
  /\ forall t, In t (timers w) -> timerCallback t = RestartCallback.

Definition raisesRecoverable (e : Event) : bool :=
  match e with
  | RecError error => isRecoverable error
  | _ => false
  end.

(** The session, the configured language and the language the session
    was given. *)
Definition langSide (w : World) : bool * string * string :=
  (recognition w, language w, recognitionLang w).

(** The recogniser works in the configured language. *)
Definition languageInSync (w : World) : Prop :=
  recognition w = true -> recognitionLang w = language w.

(** What the parser and the result handler do on the outside, apart
    from speaking: an application callback, a status report, or
    cancelling speech. *)
Definition isParserAction (a : Action) : bool :=
  match a with
  | VoiceStatus _ _ | SynthCancel => true
  | _ => isIntent a
  end.

(** ** The battery service ([BatteryService], settings screen)

    The service keeps the last battery state it was told and the
    functions that subscribed to it.  A listener is known by its
    identity; [calls] records every invocation of a listener with the
    state it was given. *)

Module BatteryService.

Record BatteryState := mkState {
  isSupported : bool;
  level : option nat;
  charging : option bool
}.

Record Service := mkService {
  state : BatteryState;
  listeners : list nat;
  calls : list (nat * BatteryState)
}.

(** [notifyListeners()] *)
Definition notifyListeners (s : Service) : Service :=
  mkService (state s) (listeners s)
    (calls s ++ map (fun listener => (listener, state s)) (listeners s)).

(** [updateBatteryStatus], with a battery manager present; [percent] is
    the value of [Math.round(manager.level * 100)]. *)
Definition updateBatteryStatus (percent : nat) (managerCharging : bool)
    (s : Service) : Service :=
  notifyListeners
    (mkService (mkState true (Some percent) (Some managerCharging))
       (listeners s) (calls s)).

(** [subscribe(listener)] *)
Definition subscribe (listener : nat) (s : Service) : Service :=
  mkService (state s) (listeners s ++ [listener])
    (calls s ++ [(listener, state s)]).

(** [unsubscribe(listener)] *)
Definition unsubscribe (listener : nat) (s : Service) : Service :=
  mkService (state s)
    (filter (fun l => negb (Nat.eqb l listener)) (listeners s)) (calls s).

(** How a template literal prints a non-negative integer. *)
Definition numberToString (n : nat) : string :=
  NilEmpty.string_of_uint (Nat.to_uint n).

(** [getStatusString()] *)
Definition getStatusString (s : Service) : string :=
  if negb (isSupported (state s)) then
    "Battery status is not available on this device."
  else
    match level (state s) with
    | None => "Accessing battery status."
    | Some percent =>
        let chargingStatus :=
          match charging (state s) with
          | Some true => "and charging"
          | _ => "and not charging"
          end in
        "Battery is at " ++ numberToString percent ++ " percent "
        ++ chargingStatus ++ "."
    end.

(** The invocations of one listener. *)
Definition callsOf (listener : nat) (s : Service) : list BatteryState :=
  map snd (filter (fun c => Nat.eqb (fst c) listener) (calls s)).

End BatteryService.

(** ** Announcing the analysis of a frame ([NavigationMode])

    [processAndAnnounce] together with the reference it keeps and the
    controller whose [speak] the component was given.  [announced]
    records the texts handed to [speak], [vibrations] the haptic
    patterns triggered. *)

Module NavigationMode.

Inductive Urgency := High | Medium | Low.

Record NavigationAnalysis := mkAnalysis {
  instruction : string;
  obstacles : list string;
  urgency : Urgency
}.

(** [triggerHapticFeedback] and [triggerUrgentHapticFeedback]. *)
Inductive Vibration := Gentle | Urgent.

Record Navigation := mkNavigation {
  lastAnnouncement : string;
  vibrations : list Vibration;
  announced : list string;
  voice : World
}.

(** [processAndAnnounce(result)] as one detection loop sees it, with the
    haptic setting of the render that created the callback: the call
    together with its continuation after [await speak(...)], which writes
    the reference.  The loop awaits the call, so it processes no other
    frame before the reference is written; what the voice controller does
    until then does not read the reference.  [NavigationScreen] below
    keeps the call and its continuation apart, and the two descriptions
    are shown to agree as long as calls do not overlap. *)
Definition processAndAnnounce (haptic : bool) (result : NavigationAnalysis)
    (n : Navigation) : Navigation :=
  let vibrations' :=
    match urgency result with
    | High => if haptic then vibrations n ++ [Urgent] else vibrations n
    | Medium => if haptic then vibrations n ++ [Gentle] else vibrations n
    | Low => vibrations n
    end in
  if negb (instruction result =? lastAnnouncement n) then
    mkNavigation (instruction result) vibrations'
      (announced n ++ [instruction result])
      (snd (speak (instruction result) (voice n)))
  else
    mkNavigation (lastAnnouncement n) vibrations' (announced n) (voice n).

(** What happens to a mounted navigation screen: a frame was analysed, or
    something happened to the voice controller. *)
Inductive Step :=
| Frame (haptic : bool) (result : NavigationAnalysis)
| Voice (e : Event).

Definition step (n : Navigation) (s : Step) : Navigation :=
  match s with
  | Frame haptic result => processAndAnnounce haptic result n
  | Voice e =>
      mkNavigation (lastAnnouncement n) (vibrations n) (announced n)
        (handle e (voice n))
  end.

(** The screen as it mounts: [lastAnnouncementRef] starts empty. *)
Definition mount (w : World) : Navigation := mkNavigation "" [] [] w.

(** No text equals the one before it, [prev] being before the first. *)
Fixpoint noRepeat (prev : string) (texts : list string) : Prop :=
  match texts with
  | [] => True
  | text :: rest => text <> prev /\ noRepeat text rest
  end.

End NavigationMode.

(** ** The navigation screen with suspended calls

    [processAndAnnounce] is an [async] function: it hands the instruction
    to [speak] and is suspended at the [await] until the promise
    resolves; only then is [lastAnnouncementRef] written.  A promise that
    [speak] resolves before it returns lets the call continue before
    anything else happens to the screen; otherwise the call waits for the
    terminal event of its utterance, and other calls can run in
    between. *)

Module NavigationScreen.

Record Screen := mkScreen {
  lastAnnouncementRef : string;
  vibrations : list NavigationMode.Vibration;
  handed : list string;
  awaiting : list (nat * string);
  voice : World
}.

(** [processAndAnnounce(result)] up to the [await]; a call that is
    suspended there is recorded in [awaiting] with its utterance and its
    instruction. *)
Definition processAndAnnounce (haptic : bool)
    (result : NavigationMode.NavigationAnalysis) (s : Screen) : Screen :=
  let vibrations' :=
    match NavigationMode.urgency result with
    | NavigationMode.High =>
        if haptic then vibrations s ++ [NavigationMode.Urgent]
        else vibrations s
    | NavigationMode.Medium =>
        if haptic then vibrations s ++ [NavigationMode.Gentle]
        else vibrations s
    | NavigationMode.Low => vibrations s
    end in
  let text := NavigationMode.instruction result in
  if negb (text =? lastAnnouncementRef s) then
    match speak text (voice s) with
    | (ResolvedNow, w) =>
        mkScreen text vibrations' (handed s ++ [text]) (awaiting s) w
    | (Pending u, w) =>
        mkScreen (lastAnnouncementRef s) vibrations' (handed s ++ [text])
          (awaiting s ++ [(u, text)]) w
    end
  else
    mkScreen (lastAnnouncementRef s) vibrations' (handed s) (awaiting s)
      (voice s).

(** The utterance whose promise an event resolves: the terminal event of
    an utterance in flight. *)
Definition resolves (e : Event) (w : World) : option nat :=
  match e with
  | UtteranceEnd u | UtteranceError u _ =>
      if inFlight u w then Some u else None
  | _ => None
  end.

(** The calls that awaited utterance [u] continue, oldest first: each
    writes its instruction to the reference. *)
Fixpoint resume (u : nat) (calls : list (nat * string)) (ref : string)
    : string * list (nat * string) :=
  match calls with
  | [] => (ref, [])
  | (u', text) :: rest =>
      if Nat.eqb u' u then resume u rest text
      else
        let (ref', rest') := resume u rest ref in
        (ref', (u', text) :: rest')
  end.

Definition step (s : Screen) (st : NavigationMode.Step) : Screen :=
  match st with
  | NavigationMode.Frame haptic result => processAndAnnounce haptic result s
  | NavigationMode.Voice e =>
      let w := handle e (voice s) in
      match resolves e (voice s) with
      | Some u =>
          let (ref, rest) := resume u (awaiting s) (lastAnnouncementRef s) in
          mkScreen ref (vibrations s) (handed s) rest w
      | None =>
          mkScreen (lastAnnouncementRef s) (vibrations s) (handed s)
            (awaiting s) w
      end
  end.

Definition mount (w : World) : Screen := mkScreen "" [] [] [] w.

(** One detection loop: it awaits each call, so a frame is processed only
    when no earlier call is suspended. *)
Fixpoint oneLoop (steps : list NavigationMode.Step) (s : Screen) : bool :=
  match steps with
  | [] => true
  | st :: rest =>
      match st, awaiting s with
      | NavigationMode.Frame _ _, _ :: _ => false
      | _, _ => oneLoop rest (step s st)
      end
  end.

End NavigationScreen.

(** What one detection loop keeps true of the screen: no text handed to
    [speak] equals the one before it, and at most one call is suspended,
    the one that handed over the last text. *)
Definition announcing (s : NavigationScreen.Screen) : Prop :=
  NavigationMode.noRepeat "" (NavigationScreen.handed s)
  /\ match NavigationScreen.awaiting s with
     | [] => NavigationScreen.lastAnnouncementRef s
             = last (NavigationScreen.handed s) ""
     | [(_, text)] => text = last (NavigationScreen.handed s) ""
     | _ => False
     end.

(** The two descriptions of the screen side by side: same texts handed
    over, same vibrations, same controller; the reference of the screen
    with suspended calls lags behind until the suspended call
    continues. *)
Definition agree (s : NavigationScreen.Screen)
    (n : NavigationMode.Navigation) : Prop :=
  NavigationScreen.handed s = NavigationMode.announced n
  /\ NavigationScreen.vibrations s = NavigationMode.vibrations n
  /\ NavigationScreen.voice s = NavigationMode.voice n
  /\ match NavigationScreen.awaiting s with
     | [] => NavigationScreen.lastAnnouncementRef s
             = NavigationMode.lastAnnouncement n
     | [(_, text)] => text = NavigationMode.lastAnnouncement n
     | _ => False
     end.

(** ** Reading recognised text aloud ([TextReaderMode])

    The decision [captureAndRecognize] takes once the text of a frame has
    arrived. *)

Module TextReaderMode.

Record Reader := mkReader {
  lastSpokenText : string;
  pulses : nat;
  readAloud : list string;
  voice : World
}.

(** [cleanedText.length > 2 && cleanedText !== 'No text detected.'].
    [length] counts UTF-16 code units, [String.length] the characters of
    the Rocq string: the two agree on an ASCII string ([Str.isAscii]), and
    so do [Str.trim] and [String.prototype.trim]; for other text this
    definition does not give the length the program sees. *)
Definition isMeaningful (cleanedText : string) : bool :=
  Nat.ltb 2 (String.length cleanedText)
  && negb (cleanedText =? "No text detected.").

(** The body of [if (isMountedRef.current)] after [readTextFromImage]. *)
Definition recognized (haptic : bool) (text : string) (r : Reader) : Reader :=
  let cleanedText := Str.trim text in
  let isNew := negb (cleanedText =? lastSpokenText r) in
  if isMeaningful cleanedText && isNew then
    mkReader cleanedText (if haptic then S (pulses r) else pulses r)
      (readAloud r ++ [cleanedText])
      (snd (speak cleanedText (voice r)))
  else if negb (isMeaningful cleanedText) && negb (lastSpokenText r =? "")
  then mkReader "" (pulses r) (readAloud r) (voice r)
  else r.

Inductive Step :=
| Text (haptic : bool) (text : string)
| Voice (e : Event).

Definition step (r : Reader) (s : Step) : Reader :=
  match s with
  | Text haptic text => recognized haptic text r
  | Voice e =>
      mkReader (lastSpokenText r) (pulses r) (readAloud r)
        (handle e (voice r))
  end.

Definition mount (w : World) : Reader := mkReader "" 0 [] w.

(** The text of the frame, if any, is ASCII. *)
Definition asciiStep (s : Step) : bool :=
  match s with
  | Text _ text => Str.isAscii text
  | Voice _ => true
  end.

End TextReaderMode.

(** ** Error messages of the AI service ([geminiService])

    [getGeminiErrorUserMessage(error, context)].  What the function reads
    of [error] is its [message], when it is an object that has one:
    [Some message], and [None] for every other value. *)

Module GeminiService.

Definition fallback (context : string) : string :=
  "Failed to " ++ context
  ++ ". The AI service may be unavailable or experiencing issues.".

Definition getGeminiErrorUserMessage (error : option string)
    (context : string) : string :=
  match error with
  | Some errorMessage =>
      let message := Str.toLowerCase errorMessage in
      if Str.includes message "rate limit"
         || Str.includes message "resource exhausted" then
        "The service is currently busy. Please wait a moment before trying again."
      else if Str.includes message "api key not valid" then
        "There is an API key configuration error."
      else if Str.includes message "model" && Str.includes message "not found"
      then
        "The AI model is currently unavailable. This may be a temporary issue."
      else if Str.includes message "billing" then
        "There is a billing issue with the AI service account."
      else if Str.includes message "deadline exceeded"
              || Str.includes message "timeout" then
        "The request to the AI service timed out. Please check your internet connection."
      else if Str.includes message "blocked"
              && (Str.includes message "safety"
                  || Str.includes message "policy") then
        "The request was blocked for safety reasons."
      else fallback context
  | None => fallback context
  end.

(** What [readTextFromImage] resolves to when the request fails: the
    [catch] branch returns the user message as if it were the text. *)
Definition readTextFromImageFailed (error : option string) : string :=
  getGeminiErrorUserMessage error "read text from the image".

End GeminiService.

(** * Properties *)

(** Case analysis on the condition of the first [if] in the goal. *)
Ltac case_if :=
  match goal with
  | |- context [if ?b then _ else _] => destruct b eqn:?; cbn
  end.

(** ** Bookkeeping: what each method adds to the log *)

Lemma intents_emit (a : Action) (w : World) :
  intents (emit a w) = intents w ++ (if isIntent a then [a] else []).
Proof.
  unfold intents, emit; cbn.
  rewrite filter_app; cbn.
  now destruct (isIntent a).
Qed.

Lemma intents_speak (text : string) (w : World) :
  intents (snd (speak text w)) = intents w.
Proof.
  unfold speak, intents.
  destruct w; cbn.
  repeat case_if; cbn; rewrite ?filter_app; cbn; now rewrite ?app_nil_r.
Qed.

Lemma intents_speakIfFeedback (text : string) (w : World) :
  intents (speakIfFeedback text w) = intents w.
Proof.
  unfold speakIfFeedback.
  destruct (provideFeedback w); [apply intents_speak | reflexivity].
Qed.

Lemma intents_stopSpeaking (w : World) : intents (stopSpeaking w) = intents w.
Proof.
  unfold stopSpeaking.
  destruct (speechSynthesis w); [|reflexivity].
  rewrite intents_emit; cbn. apply app_nil_r.
Qed.

(** ** The parser refines the priority table *)

Lemma toggleLoop_refines (command : string) (w : World) :
  match toggleLoop toggleableSettings command w with
  | Some w' =>
      exists s v, Spec.toggleRule command = Some (Spec.Toggle s v)
                  /\ intents w' = intents w ++ [ToggleSetting s v]
  | None => Spec.toggleRule command = None
  end.
Proof.
  unfold Spec.toggleRule, Spec.modifier, toggleableSettings.
  cbn [toggleLoop find settingKeywords settingName].
  destruct (Str.testWords ["haptic"; "haptics"; "vibration"] command);
    destruct (Str.testWords onWords command);
    destruct (Str.testWords offWords command);
    destruct (Str.testWords ["audio"; "sound"; "feedback"] command);
    try reflexivity;
    eexists _, _; (split; [reflexivity|]);
    now rewrite intents_speakIfFeedback, intents_emit.
Qed.

Lemma processVoiceCommand_refines (command : string) (w : World) :
  intents (processVoiceCommand command w)
  = intents w ++ Spec.callbacks (Spec.parse command).
Proof.
  unfold processVoiceCommand, Spec.parse, Spec.priorityTable.
  cbn [find fst].
  destruct (someIncluded Commands.close command).
  { now rewrite intents_speakIfFeedback, intents_emit, intents_stopSpeaking. }
  destruct (someIncluded Commands.navigation command).
  { now rewrite intents_speakIfFeedback, intents_emit. }
  destruct (someIncluded Commands.textRead command).
  { now rewrite intents_speakIfFeedback, intents_emit. }
  destruct (someIncluded Commands.settings command).
  { now rewrite intents_speakIfFeedback, intents_emit. }
  pose proof (toggleLoop_refines command w) as Htoggle.
  destruct (toggleLoop toggleableSettings command w) as [w'|].
  { destruct Htoggle as (s & v & -> & ->). reflexivity. }
  rewrite Htoggle.
  destruct (Str.includes command "battery"); cbn [Spec.callbacks].
  - destruct (Str.truthy (onCheckBattery (emit CheckBattery w))
              && provideFeedback (emit CheckBattery w)).
    + now rewrite intents_speak, intents_emit.
    + now rewrite intents_emit.
  - now rewrite app_nil_r.
Qed.

Lemma parse_toggle_inv (transcript : string) (s : Setting) (v : bool) :
  Spec.parse transcript = Some (Spec.Toggle s v) ->
  Spec.toggleRule transcript = Some (Spec.Toggle s v).
Proof.
  unfold Spec.parse, Spec.priorityTable. cbn [find fst].
  repeat (case_if; [discriminate|]).
  destruct (Spec.toggleRule transcript); [congruence|].
  now case_if.
Qed.

Lemma toggleRule_inv (transcript : string) (s : Setting) (v : bool) :
  Spec.toggleRule transcript = Some (Spec.Toggle s v) ->
  (exists ts, In ts toggleableSettings /\ settingName ts = s
              /\ Str.testWords (settingKeywords ts) transcript = true)
  /\ Str.testWords (if v then onWords else offWords) transcript = true.
Proof.
  unfold Spec.toggleRule, Spec.modifier.
  destruct (find _ toggleableSettings) as [ts|] eqn:Hfind.
  2: { now destruct (Str.testWords onWords transcript);
         [|destruct (Str.testWords offWords transcript)]. }
  apply find_some in Hfind as [Hin Hkw].
  destruct (Str.testWords onWords transcript) eqn:Hon.
  - intros [= <- <-]. split; [exists ts|]; auto.
  - destruct (Str.testWords offWords transcript) eqn:Hoff; [|discriminate].
    intros [= <- <-]. split; [exists ts|]; auto.
Qed.

Lemma includes_stop_close (transcript : string) :
  Str.includes transcript "stop" = true ->
  someIncluded Commands.close transcript = true.
Proof.
  intros H. unfold someIncluded, Commands.close. cbn [existsb].
  rewrite H. now rewrite !orb_true_r.
Qed.

(** ** C7: first match wins *)

(** C7. [processVoiceCommand] dispatches exactly the callback of the first
    rule that matches, in the fixed order close/home, navigation,
    text-read, settings, toggles, battery, the keyword sets being tested
    by substring containment; ["close settings"] dispatches the close/home
    intent and not the settings intent. *)
Theorem parser_first_match_wins (transcript : string) (w : World) :
  intents (processVoiceCommand transcript w)
  = intents w ++ Spec.callbacks (Spec.parse transcript)
  /\ (someIncluded Commands.close transcript = true ->
      intents (processVoiceCommand transcript w) = intents w ++ [ModeClose])
  /\ (someIncluded Commands.close transcript = false ->
      someIncluded Commands.navigation transcript = true ->
      intents (processVoiceCommand transcript w)
      = intents w ++ [NavigationOpen])
  /\ (someIncluded Commands.close transcript = false ->
      someIncluded Commands.navigation transcript = false ->
      someIncluded Commands.textRead transcript = true ->
      intents (processVoiceCommand transcript w)
      = intents w ++ [TextReadOpen])
  /\ (someIncluded Commands.close transcript = false ->
      someIncluded Commands.navigation transcript = false ->
      someIncluded Commands.textRead transcript = false ->
      someIncluded Commands.settings transcript = true ->
      intents (processVoiceCommand transcript w)
      = intents w ++ [SettingsOpen])
  /\ (someIncluded Commands.close transcript = false ->
      someIncluded Commands.navigation transcript = false ->
      someIncluded Commands.textRead transcript = false ->
      someIncluded Commands.settings transcript = false ->
      intents (processVoiceCommand transcript w)
      = intents w
        ++ match Spec.toggleRule transcript with
           | Some toggle => [Spec.callback toggle]
           | None =>
               if Str.includes transcript "battery" then [CheckBattery]
               else []
           end)
  /\ intents (processVoiceCommand "close settings" w)
     = intents w ++ [ModeClose]
  /\ someIncluded Commands.settings "close settings" = true.
Proof.
  repeat split; try rewrite !processVoiceCommand_refines;
    try reflexivity;
    unfold Spec.parse, Spec.priorityTable; cbn [find fst]; intros.
  - now rewrite H.
  - now rewrite H, H0.
  - now rewrite H, H0, H1.
  - now rewrite H, H0, H1, H2.
  - rewrite H, H0, H1, H2.
    destruct (Spec.toggleRule transcript); [reflexivity|].
    now destruct (Str.includes transcript "battery").
Qed.

Lemma parser_first_match_wins_witness :
  someIncluded Commands.close "please navigate" = false
  /\ someIncluded Commands.navigation "please navigate" = true
  /\ intents (processVoiceCommand "please navigate" listeningWorld)
     = intents listeningWorld ++ [NavigationOpen].
Proof.
  split; [reflexivity|]. split; [reflexivity|].
  apply (proj1 (proj2 (proj2
           (parser_first_match_wins "please navigate" listeningWorld))));
    reflexivity.
Defined.

(** ** C8: a toggle needs a keyword and a modifier *)

(** C8. [processVoiceCommand] invokes [onToggleSetting(s, v)] only when a
    keyword of setting [s] and a modifier that resolves to [v] both occur
    in the transcript as whole words.  Conversely, when none of the four
    earlier rules matches, the first setting one of whose keywords occurs
    as a whole word is toggled: to [true] when an "on" modifier occurs,
    otherwise to [false] when an "off" modifier occurs; without a
    modifier, or without a keyword, nothing is toggled.  ["turn haptic
    off"] toggles [haptic] to [false] and ["haptic"] alone does nothing at
    all; ["sound on"] toggles [audio] to [true], while ["audiobook on"]
    and ["sound onward"], where the keyword or the modifier is only part
    of a word, do nothing. *)
Theorem toggle_needs_keyword_and_modifier (transcript : string) (w : World) :
  (forall emitted s v,
     intents (processVoiceCommand transcript w) = intents w ++ emitted ->
     In (ToggleSetting s v) emitted ->
     (exists ts, In ts toggleableSettings /\ settingName ts = s
                 /\ Str.testWords (settingKeywords ts) transcript = true)
     /\ Str.testWords (if v then onWords else offWords) transcript = true)
  /\ (someIncluded Commands.close transcript = false ->
      someIncluded Commands.navigation transcript = false ->
      someIncluded Commands.textRead transcript = false ->
      someIncluded Commands.settings transcript = false ->
      forall ts,
        find (fun ts => Str.testWords (settingKeywords ts) transcript)
          toggleableSettings = Some ts ->
        (Str.testWords onWords transcript = true ->
         intents (processVoiceCommand transcript w)
         = intents w ++ [ToggleSetting (settingName ts) true])
        /\ (Str.testWords onWords transcript = false ->
            Str.testWords offWords transcript = true ->
            intents (processVoiceCommand transcript w)
            = intents w ++ [ToggleSetting (settingName ts) false]))
  /\ (Str.testWords onWords transcript = false ->
      Str.testWords offWords transcript = false ->
      forall emitted s v,
        intents (processVoiceCommand transcript w) = intents w ++ emitted ->
        ~ In (ToggleSetting s v) emitted)
  /\ ((forall ts, In ts toggleableSettings ->
                  Str.testWords (settingKeywords ts) transcript = false) ->
      forall emitted s v,
        intents (processVoiceCommand transcript w) = intents w ++ emitted ->
        ~ In (ToggleSetting s v) emitted)
  /\ intents (processVoiceCommand "turn haptic off" w)
     = intents w ++ [ToggleSetting Haptic false]
  /\ processVoiceCommand "haptic" w = w
  /\ intents (processVoiceCommand "sound on" w)
     = intents w ++ [ToggleSetting Audio true]
  /\ processVoiceCommand "audiobook on" w = w
  /\ processVoiceCommand "sound onward" w = w.
Proof.
  assert (Honly : forall emitted s v,
             intents (processVoiceCommand transcript w)
             = intents w ++ emitted ->
             In (ToggleSetting s v) emitted ->
             (exists ts, In ts toggleableSettings /\ settingName ts = s
                         /\ Str.testWords (settingKeywords ts) transcript
                            = true)
             /\ Str.testWords (if v then onWords else offWords) transcript
                = true).
  { intros emitted s v. rewrite processVoiceCommand_refines. intros Heq Hin.
    apply app_inv_head in Heq. subst emitted.
    assert (Hparse : Spec.parse transcript = Some (Spec.Toggle s v)).
    { destruct (Spec.parse transcript) as [i|]; cbn in Hin; [|tauto].
      destruct Hin as [Hin|[]]. destruct i; cbn in Hin; congruence. }
    now apply parse_toggle_inv, toggleRule_inv in Hparse. }
  split; [exact Honly|]. split; [|split; [|split]].
  - intros Hc Hn Ht Hs ts Hfind.
    rewrite processVoiceCommand_refines.
    unfold Spec.parse, Spec.priorityTable. cbn [find fst].
    rewrite Hc, Hn, Ht, Hs. unfold Spec.toggleRule, Spec.modifier.
    rewrite Hfind. split.
    + intros Hon. now rewrite Hon.
    + intros Hon Hoff. now rewrite Hon, Hoff.
  - intros Hon Hoff emitted s v Heq Hin.
    destruct (Honly emitted s v Heq Hin) as [_ Hmod].
    destruct v; congruence.
  - intros Hnone emitted s v Heq Hin.
    destruct (Honly emitted s v Heq Hin) as [(ts & Hts & _ & Hkw) _].
    rewrite (Hnone ts Hts) in Hkw. discriminate.
  - split; [now rewrite processVoiceCommand_refines|].
    split; [reflexivity|].
    split; [now rewrite processVoiceCommand_refines|].
    split; reflexivity.
Qed.

Lemma toggle_needs_keyword_and_modifier_witness :
  ((exists ts, In ts toggleableSettings /\ settingName ts = Haptic
               /\ Str.testWords (settingKeywords ts) "turn haptic off" = true)
   /\ Str.testWords offWords "turn haptic off" = true)
  /\ intents (processVoiceCommand "switch the vibration on" listeningWorld)
     = intents listeningWorld ++ [ToggleSetting Haptic true].
Proof.
  split.
  - exact (proj1 (toggle_needs_keyword_and_modifier "turn haptic off"
                    listeningWorld)
             [ToggleSetting Haptic false] Haptic false
             eq_refl (or_introl eq_refl)).
  - exact (proj1 (proj1 (proj2 (toggle_needs_keyword_and_modifier
                                  "switch the vibration on" listeningWorld))
                    eq_refl eq_refl eq_refl eq_refl
                    (mkToggleable Haptic ["haptic"; "haptics"; "vibration"])
                    eq_refl)
             eq_refl).
Defined.

(** ** C10: ['stop'] always closes *)

(** C10. ['stop'] and ['exit'] are close/home keywords and the close rule
    comes first: every transcript that contains ['stop'] dispatches the
    mode-close callback and nothing else, never a toggle, even where the
    toggle rule on its own would resolve ['stop'] to "off", as in
    ["stop haptic"]. *)
Theorem stop_dispatches_close (transcript : string) (w : World) :
  Str.includes transcript "stop" = true ->
  intents (processVoiceCommand transcript w) = intents w ++ [ModeClose]
  /\ (forall emitted s v,
        intents (processVoiceCommand transcript w) = intents w ++ emitted ->
        ~ In (ToggleSetting s v) emitted)
  /\ In "stop" Commands.close
  /\ In "exit" Commands.close
  /\ Spec.toggleRule "stop haptic" = Some (Spec.Toggle Haptic false)
  /\ intents (processVoiceCommand "stop haptic" w) = intents w ++ [ModeClose].
Proof.
  intros Hstop. apply includes_stop_close in Hstop.
  assert (Hparse : Spec.parse transcript = Some Spec.CloseHome).
  { unfold Spec.parse, Spec.priorityTable. cbn [find fst]. now rewrite Hstop. }
  repeat split.
  - now rewrite processVoiceCommand_refines, Hparse.
  - intros emitted s v. rewrite processVoiceCommand_refines, Hparse.
    intros Heq. apply app_inv_head in Heq. subst emitted.
    cbn. intros [H|[]]. discriminate.
  - cbn. tauto.
  - cbn. tauto.
  - now rewrite processVoiceCommand_refines.
Qed.

Lemma stop_dispatches_close_witness :
  intents (processVoiceCommand "stop haptic" listeningWorld)
  = intents listeningWorld ++ [ModeClose].
Proof.
  exact (proj1 (stop_dispatches_close "stop haptic" listeningWorld eq_refl)).
Defined.

(** ** What [speak] and the parser leave alone *)

Lemma core_emit (a : Action) (w : World) : core (emit a w) = core w.
Proof. reflexivity. Qed.

Lemma core_speak (text : string) (w : World) :
  core (snd (speak text w)) = core w.
Proof.
  unfold speak. destruct w; cbn. repeat case_if; reflexivity.
Qed.

Lemma core_speakIfFeedback (text : string) (w : World) :
  core (speakIfFeedback text w) = core w.
Proof.
  unfold speakIfFeedback.
  destruct (provideFeedback w); [apply core_speak | reflexivity].
Qed.

Lemma core_stopSpeaking (w : World) : core (stopSpeaking w) = core w.
Proof. unfold stopSpeaking. now destruct (speechSynthesis w). Qed.

Lemma core_toggleLoop (todo : list ToggleableSetting) (command : string)
    (w w' : World) :
  toggleLoop todo command w = Some w' -> core w' = core w.
Proof.
  induction todo as [|setting rest IH]; cbn [toggleLoop]; [discriminate|].
  destruct (Str.testWords (settingKeywords setting) command); [|exact IH].
  destruct (Str.testWords onWords command).
  { intros [= <-]. now rewrite core_speakIfFeedback, core_emit. }
  destruct (Str.testWords offWords command); [|exact IH].
  intros [= <-]. now rewrite core_speakIfFeedback, core_emit.
Qed.

Lemma core_processVoiceCommand (command : string) (w : World) :
  core (processVoiceCommand command w) = core w.
Proof.
  unfold processVoiceCommand.
  repeat (destruct (someIncluded _ command);
          [now rewrite core_speakIfFeedback, core_emit, ?core_stopSpeaking|]).
  destruct (toggleLoop toggleableSettings command w) as [w'|] eqn:Hloop.
  { now apply core_toggleLoop in Hloop. }
  destruct (Str.includes command "battery"); [|reflexivity].
  destruct (_ && _); [now rewrite core_speak, core_emit | apply core_emit].
Qed.

(** ** C6: [speak] with nothing to say *)

(** C6. For every text [x], [speak("")], and [speak(x)] when
    [provideFeedback] is false, resolve before the call returns and leave
    the world as it was: no utterance is started or cancelled and
    recognition is neither suspended nor resumed. *)
Theorem speak_without_feedback_is_noop (text : string) (w : World) :
  text = "" \/ provideFeedback w = false ->
  speak text w = (ResolvedNow, w) /\ handle (CallSpeak text) w = w.
Proof.
  intros H. unfold handle, speak.
  destruct H as [-> | ->]; cbn; rewrite ?orb_true_r; auto.
Qed.

Lemma speak_without_feedback_is_noop_witness :
  speak "" listeningWorld = (ResolvedNow, listeningWorld)
  /\ handle (CallSpeak "") listeningWorld = listeningWorld.
Proof.
  apply (speak_without_feedback_is_noop "" listeningWorld).
  left; reflexivity.
Defined.

(** ** The restart timer *)

Lemma clearRestartTimer_spec (w : World) :
  timersOwned w ->
  timers (clearRestartTimer w) = []
  /\ nextTimer (clearRestartTimer w) = nextTimer w
  /\ restartTimer (clearRestartTimer w) = restartTimer w.
Proof.
  intros [Hn [H|(t & Ht & Hr & Hpos)]];
    unfold clearRestartTimer, clearTimeout; destruct w; cbn in *; subst.
  - destruct restartTimer0 as [[|id]|]; cbn; auto.
  - destruct (timerId t) as [|id] eqn:Hid; [lia|].
    cbn. rewrite Hid. cbn. now rewrite Nat.eqb_refl.
Qed.

Lemma arm_spec (callback : TimerCallback) (delay : spec_float) (w : World) :
  timersOwned w ->
  timersOwned (arm callback delay w)
  /\ timers (arm callback delay w) = [mkTimer (nextTimer w) callback delay].
Proof.
  intros Hw. destruct (clearRestartTimer_spec w Hw) as (Ht & Hn & _).
  destruct Hw as [Hpos _].
  unfold arm, setTimeout, timersOwned.
  destruct (clearRestartTimer w); cbn in *; subst. cbn.
  split; [|reflexivity]. split; [lia|]. right. eexists. split; [reflexivity|].
  cbn. split; [reflexivity|lia].
Qed.

Lemma timersOwned_core (w w' : World) :
  core w' = core w -> timersOwned w -> timersOwned w'.
Proof.
  unfold core, timersOwned. intros [= _ _ _ _ _ _ Hr _ _ _ Ht Hn _].
  now rewrite Hr, Ht, Hn.
Qed.

Lemma onerror_owned (error : string) (w : World) :
  timersOwned w -> timersOwned (onerror error w).
Proof.
  intros Hw. unfold onerror.
  repeat (destruct (_ =? _)%string; cbn [orb]; try exact Hw).
  unfold nextRandom. now apply arm_spec.
Qed.

Lemma startListening_owned (w : World) :
  timersOwned w -> timersOwned (startListening w).
Proof.
  intros Hw. unfold startListening.
  assert (Hc : timersOwned (clearRestartTimer w)).
  { destruct (clearRestartTimer_spec w Hw) as (Ht & Hn & _).
    split; [rewrite Hn; apply Hw | now left]. }
  destruct (recognition _ && negb _); [|exact Hc].
  destruct (recognitionStarted _); [|exact Hc].
  destruct (negb _); [|exact Hc].
  now apply onerror_owned.
Qed.

Lemma onend_owned (w : World) : timersOwned w -> timersOwned (onend w).
Proof.
  intros Hw. unfold onend.
  destruct (_ || _); [exact Hw|].
  destruct (autoStart _); [|exact Hw].
  now apply arm_spec.
Qed.

Lemma onresult_owned (results : Results) (w : World) :
  timersOwned w -> timersOwned (onresult results w).
Proof.
  intros Hw. unfold onresult.
  destruct results as [rs|]; [|exact Hw].
  destruct (_ || _); [exact Hw|].
  destruct (negb _); [exact Hw|].
  eapply timersOwned_core; [apply core_processVoiceCommand | exact Hw].
Qed.

Lemma clearing_owned (w : World) :
  timersOwned w -> timersOwned (clearRestartTimer w).
Proof.
  intros Hw. destruct (clearRestartTimer_spec w Hw) as (Ht & Hn & _).
  split; [rewrite Hn; apply Hw | now left].
Qed.

Lemma deliverTerminal_owned (u : nat) (w : World) :
  timersOwned w -> timersOwned (deliverTerminal u w).
Proof.
  intros Hw. unfold deliverTerminal, utteranceTerminal.
  destruct (findUtterance u w) as [[|]|]; try exact Hw.
  apply (startListening_owned (clearRestartTimer _)).
  now apply (clearing_owned (set_isSpeaking false _)).
Qed.

Lemma fireTimer_owned (id : nat) (w : World) :
  timersOwned w -> timersOwned (fireTimer id w).
Proof.
  intros Hw. unfold fireTimer.
  destruct (find _ (timers w)) as [t|] eqn:Hfind; [|exact Hw].
  assert (Hgone : timersOwned
            (set_timers
               (filter (fun t => negb (Nat.eqb (timerId t) id)) (timers w)) w)).
  { destruct Hw as [Hn [H|(t' & Ht & Hr & Hpos)]].
    - rewrite H in Hfind. discriminate.
    - split; [exact Hn|]. left. cbn. rewrite Ht in *. cbn in *.
      destruct (Nat.eqb (timerId t') id); [reflexivity|discriminate]. }
  destruct (timerCallback t).
  - now apply startListening_owned.
  - now apply (startListening_owned (set_isErrorRecovery false _)).
Qed.

Lemma handle_owned (e : Event) (w : World) :
  timersOwned w -> timersOwned (handle e w).
Proof.
  intros Hw. destruct e; cbn [handle].
  - now apply startListening_owned.
  - unfold stopListening.
    destruct (recognition _); exact (clearing_owned w Hw).
  - eapply timersOwned_core; [apply core_speak | exact Hw].
  - eapply timersOwned_core; [apply core_stopSpeaking | exact Hw].
  - unfold updateConfig. now destruct (recognition _).
  - unfold destroy. cbv zeta.
    destruct (recognition _); destruct (speechSynthesis _);
      exact (clearing_owned w Hw).
  - now destruct (recognition w).
  - destruct (recognition w); [|exact Hw].
    now apply (onend_owned (set_recognitionStarted false w)).
  - destruct (recognition w); [|exact Hw]. now apply onresult_owned.
  - destruct (recognition w); [|exact Hw]. now apply onerror_owned.
  - now apply deliverTerminal_owned.
  - now apply deliverTerminal_owned.
  - now apply fireTimer_owned.
Qed.

Lemma construct_owned (options : VoiceControllerOptions) (host : Host) :
  timersOwned (construct options host).
Proof.
  unfold construct, setupVoiceRecognition.
  assert (H0 : forall w, timers w = [] -> nextTimer w = 1 -> timersOwned w).
  { intros w Ht Hn. split; [lia | now left]. }
  destruct (negb (hasSpeechRecognition host)); cbn [andb].
  - now apply H0.
  - destruct (autoStart _); [apply startListening_owned|]; now apply H0.
Qed.

Lemma run_owned (events : list Event) (w : World) :
  timersOwned w -> timersOwned (run events w).
Proof.
  revert w. induction events as [|e events IH]; intros w Hw; [exact Hw|].
  apply IH, handle_owned, Hw.
Qed.

(** ** The three classes of recognition errors *)

Lemma recoverable_inv (error : string) :
  isRecoverable error = true ->
  (error =? "aborted")%string = false
  /\ (error =? "no-speech")%string = false
  /\ (error =? "not-allowed")%string = false
  /\ (error =? "service-not-allowed")%string = false
  /\ (error =? "audio-capture")%string = false.
Proof.
  unfold isRecoverable, isIgnored, isFatal.
  destruct (error =? "aborted")%string, (error =? "no-speech")%string,
    (error =? "not-allowed")%string,
    (error =? "service-not-allowed")%string,
    (error =? "audio-capture")%string; cbn; intros; auto; discriminate.
Qed.

Lemma onerror_recoverable (error : string) (w : World) :
  isRecoverable error = true ->
  onerror error w
  = arm RetryCallback
      (backoffDelay (S (errorRetryCount w)) (mathRandom w (randomCalls w)))
      (retrying w).
Proof.
  intros H. apply recoverable_inv in H as (H1 & H2 & H3 & H4 & H5).
  unfold onerror. now rewrite H1, H2, H3, H4, H5.
Qed.

Lemma onerror_fatal (error : string) (w : World) :
  isFatal error = true ->
  exists status,
    onerror error w
    = set_autoStart false
        (emit (VoiceStatus status false)
           (set_isErrorRecovery true (set_isListening false w))).
Proof.
  unfold isFatal, onerror.
  destruct (error =? "aborted")%string eqn:H1.
  { apply String.eqb_eq in H1. now subst. }
  destruct (error =? "no-speech")%string eqn:H2.
  { apply String.eqb_eq in H2. now subst. }
  destruct (error =? "not-allowed")%string,
    (error =? "service-not-allowed")%string,
    (error =? "audio-capture")%string; cbn; intros; try discriminate;
    eexists; reflexivity.
Qed.

(** ** C5: at most one timer is pending *)

(** C5. In every world the controller can reach, at most one timer is
    pending and it is the one [restartTimer] names; the two operations
    that arm a timer, the backoff of a recoverable error and the restart
    at the end of a session, leave exactly the timer they arm, whatever
    was pending before. *)
Theorem at_most_one_timer_pending
    (options : VoiceControllerOptions) (host : Host) (events : list Event) :
  let w := run events (construct options host) in
  List.length (timers w) <= 1
  /\ (forall t, In t (timers w) -> restartTimer w = Some (timerId t))
  /\ (forall error,
        recognition w = true -> isRecoverable error = true ->
        exists delay,
          timers (handle (RecError error) w)
          = [mkTimer (nextTimer w) RetryCallback delay])
  /\ (recognition w = true -> isErrorRecovery w = false ->
      isSpeaking w = false -> autoStart w = true ->
      timers (handle RecEnd w)
      = [mkTimer (nextTimer w) RestartCallback (Num.ofPos 250)]).
Proof.
  intros w.
  assert (Hw : timersOwned w) by apply run_owned, construct_owned.
  repeat split.
  - destruct Hw as [_ [-> | (t & -> & _)]]; cbn; lia.
  - intros t Hin. destruct Hw as [_ [H | (t' & H & Hr & _)]];
      rewrite H in Hin; [destruct Hin|].
    destruct Hin as [<-|[]]. exact Hr.
  - intros error Hrec Herr. cbn [handle]. rewrite Hrec.
    rewrite onerror_recoverable by exact Herr.
    eexists. now apply (arm_spec RetryCallback _ (retrying w)).
  - intros Hrec Her Hsp Hauto. cbn [handle]. rewrite Hrec.
    unfold onend. cbn [isErrorRecovery isSpeaking autoStart set_isListening
                         set_recognitionStarted].
    rewrite Her, Hsp, Hauto. cbn [orb].
    now apply (arm_spec RestartCallback _
                 (set_isListening false (set_recognitionStarted false w))).
Qed.

Lemma at_most_one_timer_pending_witness :
  exists delay,
    timers (handle (RecError "network")
              (run [RecStart; RecEnd] (construct defaultOptions sampleHost)))
    = [mkTimer 2 RetryCallback delay].
Proof.
  apply (proj1 (proj2 (proj2
           (at_most_one_timer_pending defaultOptions sampleHost
              [RecStart; RecEnd]))));
    reflexivity.
Defined.

(** ** C9: [stopListening] *)

(** C9. In every world the controller can reach, [stopListening()] leaves
    no timer pending, aborts the recognition session, marks the controller
    as not listening and reports the status ['Voice paused']; it does not
    change [autoStart]. *)
Theorem stopListening_effects
    (options : VoiceControllerOptions) (host : Host) (events : list Event) :
  let w := run events (construct options host) in
  let w' := handle CallStopListening w in
  timers w' = []
  /\ isListening w' = false
  /\ autoStart w' = autoStart w
  /\ log w'
     = log w
       ++ match restartTimer w with
          | Some (S id) => [ClearTimeout (S id)]
          | _ => []
          end
       ++ (if recognition w then [RecognitionAbort] else [])
       ++ [VoiceStatus "Voice paused" false].
Proof.
  intros w w'.
  assert (Hw : timersOwned w) by apply run_owned, construct_owned.
  destruct (clearRestartTimer_spec w Hw) as (Ht & _).
  subst w'. cbn [handle]. unfold stopListening.
  split; [|split; [|split]].
  - destruct (recognition (clearRestartTimer w)); exact Ht.
  - now destruct (recognition (clearRestartTimer w)).
  - unfold clearRestartTimer, clearTimeout.
    destruct (restartTimer w) as [[|id]|]; cbn;
      now destruct (recognition w).
  - unfold clearRestartTimer, clearTimeout.
    destruct (restartTimer w) as [[|id]|], (recognition w) eqn:Hr; cbn;
      rewrite ?Hr; cbn; rewrite <- ?app_assoc; reflexivity.
Qed.

(** ** The retry counter *)

Lemma count_clearRestartTimer (w : World) :
  errorRetryCount (clearRestartTimer w) = errorRetryCount w.
Proof. unfold clearRestartTimer. now destruct (restartTimer w) as [[|id]|]. Qed.

Lemma count_arm (callback : TimerCallback) (delay : spec_float) (w : World) :
  errorRetryCount (arm callback delay w) = errorRetryCount w.
Proof. unfold arm. cbn. apply count_clearRestartTimer. Qed.

Lemma count_onerror (error : string) (w : World) :
  errorRetryCount w <= errorRetryCount (onerror error w).
Proof.
  unfold onerror, nextRandom.
  repeat (destruct (_ =? _)%string; cbn [orb]; [cbn; lia|]).
  rewrite count_arm. cbn. lia.
Qed.

Lemma count_startListening (w : World) :
  errorRetryCount w <= errorRetryCount (startListening w).
Proof.
  unfold startListening.
  pose proof (count_clearRestartTimer w) as Hc.
  destruct (recognition _ && negb _); [|lia].
  destruct (recognitionStarted _); [|cbn; lia].
  destruct (negb _); [|cbn; lia].
  etransitivity; [|apply count_onerror]. cbn. lia.
Qed.

Lemma count_core (w w' : World) :
  core w' = core w -> errorRetryCount w' = errorRetryCount w.
Proof. unfold core. now intros [= _ _ _ _ _ _ _ H _ _ _ _ _]. Qed.

Lemma count_deliverTerminal (u : nat) (w : World) :
  errorRetryCount w <= errorRetryCount (deliverTerminal u w).
Proof.
  unfold deliverTerminal, utteranceTerminal.
  destruct (findUtterance u w) as [[|]|]; cbn; try lia.
  etransitivity; [|apply count_startListening].
  rewrite count_clearRestartTimer. cbn. lia.
Qed.

Lemma count_fireTimer (id : nat) (w : World) :
  errorRetryCount w <= errorRetryCount (fireTimer id w).
Proof.
  unfold fireTimer.
  destruct (find _ (timers w)) as [t|]; [|lia].
  destruct (timerCallback t);
    (etransitivity; [|apply count_startListening]); cbn; lia.
Qed.

Lemma count_onend (w : World) : errorRetryCount (onend w) = errorRetryCount w.
Proof.
  unfold onend.
  destruct (_ || _); [reflexivity|].
  destruct (autoStart _); [|reflexivity].
  now rewrite count_arm.
Qed.

(** ** C2: when the retry counter is reset *)

(** C2, as the code has it.  [onresult] resets the counter before it looks
    at the event: every result event resets it, also one that carries no
    result or only white space and is dropped without being parsed.  No
    other event lowers the counter, reaching the listening state leaves it
    as it is, and every recoverable error adds one to it. *)
Theorem retry_count_reset_by_result_events (w : World) (e : Event) :
  recognition w = true ->
  (forall results, e = RecResult results -> errorRetryCount (handle e w) = 0)
  /\ ((forall results, e <> RecResult results) ->
      errorRetryCount w <= errorRetryCount (handle e w))
  /\ errorRetryCount (handle RecStart w) = errorRetryCount w
  /\ (forall error,
        isRecoverable error = true ->
        errorRetryCount (handle (RecError error) w) = S (errorRetryCount w)).
Proof.
  intros Hrec. split; [|split; [|split]].
  - intros results ->. cbn [handle]. rewrite Hrec. unfold onresult.
    destruct results as [rs|]; [|reflexivity].
    destruct (_ || _); [reflexivity|].
    destruct (negb _); [reflexivity|].
    now rewrite (count_core _ _ (core_processVoiceCommand _ _)).
  - intros Hnot. destruct e; cbn [handle]; rewrite ?Hrec.
    + apply count_startListening.
    + unfold stopListening. rewrite <- (count_clearRestartTimer w) at 1.
      destruct (recognition (clearRestartTimer w)); cbn; lia.
    + now rewrite (count_core _ _ (core_speak _ _)).
    + now rewrite (count_core _ _ (core_stopSpeaking _)).
    + unfold updateConfig. cbn. rewrite Hrec. cbn. lia.
    + unfold destroy. cbv zeta.
      rewrite <- (count_clearRestartTimer w) at 1.
      destruct (recognition (set_autoStart false (clearRestartTimer w)));
        destruct (speechSynthesis _); cbn; lia.
    + cbn. lia.
    + now rewrite count_onend.
    + now destruct (Hnot results).
    + apply count_onerror.
    + apply count_deliverTerminal.
    + apply count_deliverTerminal.
    + apply count_fireTimer.
  - cbn [handle]. now rewrite Hrec.
  - intros error Herr. cbn [handle]. rewrite Hrec.
    rewrite onerror_recoverable by exact Herr. now rewrite count_arm.
Qed.

Lemma retry_count_reset_by_result_events_witness :
  errorRetryCount
    (handle (RecResult (Some [["open settings"]]))
       (run [RecError "network"; RecError "network"] listeningWorld)) = 0.
Proof.
  apply (proj1 (retry_count_reset_by_result_events
                  (run [RecError "network"; RecError "network"] listeningWorld)
                  (RecResult (Some [["open settings"]])) eq_refl)
           (Some [["open settings"]])).
  reflexivity.
Defined.

(** The counter-example to C2 as stated: after two failures the counter is
    2; a result event without any result, and one whose transcript is
    blank, reset it to 0 although no transcript is parsed: nothing is
    reported and no command is dispatched. *)
Lemma retry_count_reset_without_transcript :
  let w := run [RecError "network"; RecError "network"] listeningWorld in
  errorRetryCount w = 2
  /\ errorRetryCount (handle (RecResult (Some [])) w) = 0
  /\ log (handle (RecResult (Some [])) w) = log w
  /\ errorRetryCount (handle (RecResult (Some [["   "]])) w) = 0
  /\ log (handle (RecResult (Some [["   "]])) w) = log w.
Proof. vm_compute. repeat split. Qed.

(** ** Counting calls of [recognition.start()] *)

Lemma starts_emit (a : Action) (w : World) :
  starts (emit a w) = starts w + (if isStart a then 1 else 0).
Proof.
  unfold starts, emit; cbn. rewrite filter_app, length_app; cbn.
  now destruct (isStart a).
Qed.

Lemma starts_clearRestartTimer (w : World) :
  starts (clearRestartTimer w) = starts w.
Proof.
  unfold clearRestartTimer, clearTimeout.
  destruct (restartTimer w) as [[|id]|]; try reflexivity.
  rewrite starts_emit. cbn. unfold starts. cbn. lia.
Qed.

(** ** C4: fatal errors *)



(** What the fatal branch does not do: it leaves a pending backoff timer
    alone.  The application starts the controller twice in a row; the
    second [start()] throws, which arms a retry; when permission is then
    denied the retry is still pending, and when it fires
    [recognition.start()] is called once more. *)
Lemma retry_timer_survives_fatal_error :
  let w := run [CallStartListening; RecError "not-allowed"; RecEnd]
             (construct defaultOptions sampleHost) in
  autoStart w = false
  /\ map timerCallback (timers w) = [RetryCallback]
  /\ starts (handle (TimerFire 1) w) = S (starts w).
Proof. vm_compute. repeat split. Qed.

(** ** Utterance ids are fresh *)

Lemma slots_clearRestartTimer (w : World) :
  slots (clearRestartTimer w) = slots w.
Proof. unfold clearRestartTimer. now destruct (restartTimer w) as [[|id]|]. Qed.

Lemma slots_arm (callback : TimerCallback) (delay : spec_float) (w : World) :
  slots (arm callback delay w) = slots w.
Proof. unfold arm. cbn. apply slots_clearRestartTimer. Qed.

Lemma slots_onerror (error : string) (w : World) :
  slots (onerror error w) = slots w.
Proof.
  unfold onerror, nextRandom.
  repeat (destruct (_ =? _)%string; cbn [orb]; [reflexivity|]).
  now rewrite slots_arm.
Qed.

Lemma slots_startListening (w : World) :
  slots (startListening w) = slots w.
Proof.
  unfold startListening.
  pose proof (slots_clearRestartTimer w) as Hc.
  destruct (recognition _ && negb _); [|exact Hc].
  destruct (recognitionStarted _); [|exact Hc].
  destruct (negb _); [|exact Hc].
  now rewrite slots_onerror.
Qed.


Lemma fresh_slots (w w' : World) :
  slots w' = slots w -> utterancesFresh w -> utterancesFresh w'.
Proof.
  unfold slots, utterancesFresh. intros [= Hu Hn]. now rewrite Hu, Hn.
Qed.





Lemma fresh_deliverTerminal (u : nat) (w : World) :
  utterancesFresh w -> utterancesFresh (deliverTerminal u w).
Proof.
  intros Hw. unfold deliverTerminal.
  destruct (findUtterance u w) as [wasListening|]; [|exact Hw].
  assert (Hf : utterancesFresh
                 (set_utterances
                    (filter (fun p => negb (Nat.eqb (fst p) u))
                       (utterances w)) w)).
  { intros u' b. cbn. rewrite filter_In. intros [Hin _]. now apply Hw in Hin. }
  unfold utteranceTerminal.
  destruct wasListening; [|exact Hf].
  eapply fresh_slots; [|exact Hf].
  cbn. unfold slots at 1. cbn.
  change (slots (startListening
                   (clearRestartTimer
                      (set_isSpeaking false
                         (set_currentUtterance None
                            (set_utterances
                               (filter (fun p => negb (Nat.eqb (fst p) u))
                                  (utterances w)) w)))))
          = slots (set_utterances
                     (filter (fun p => negb (Nat.eqb (fst p) u))
                        (utterances w)) w)).
  now rewrite slots_startListening, slots_clearRestartTimer.
Qed.




Lemma fresh_next_not_in_flight (w : World) :
  utterancesFresh w -> findUtterance (nextUtterance w) w = None.
Proof.
  intros Hw. unfold findUtterance.
  destruct (find _ (utterances w)) as [[u b]|] eqn:Hfind; [|reflexivity].
  apply find_some in Hfind as [Hin Heq].
  apply Nat.eqb_eq in Heq. cbn in Heq. apply Hw in Hin. lia.
Qed.

(** ** C1: speaking while listening *)

(** Symbolic execution of one handler on a world in record form. *)
Ltac flat_in H :=
  cbv beta iota zeta delta
    [handle speak onend onstart deliverTerminal findUtterance
     utteranceTerminal startListening fireTimer arm setTimeout
     clearRestartTimer clearTimeout emit option_map
     set_isListening set_currentUtterance set_autoStart set_language
     set_provideFeedback set_onCheckBattery set_restartTimer
     set_errorRetryCount set_isErrorRecovery set_isSpeaking
     set_recognitionLang set_recognitionStarted set_timers set_nextTimer
     set_utterances set_nextUtterance set_randomCalls set_log
     set_recognition
     recognition isListening speechSynthesis currentUtterance autoStart
     language provideFeedback onCheckBattery restartTimer errorRetryCount
     isErrorRecovery isSpeaking recognitionLang recognitionStarted timers
     nextTimer utterances nextUtterance mathRandom randomCalls log
     timerId timerCallback timerDelay Str.truthy
     negb orb andb fst snd] in H.

(** One event at a time: the innermost [handle] on a world in record form
    is evaluated on the side and replaced by its result. *)
Ltac step Hu Hu1 Hgone Hgone1 Hsu :=
  match goal with
  | |- context [handle ?e (mkWorld ?a1 ?a2 ?a3 ?a4 ?a5 ?a6 ?a7 ?a8 ?a9 ?a10
                             ?a11 ?a12 ?a13 ?a14 ?a15 ?a16 ?a17 ?a18 ?a19
                             ?a20 ?a21)] =>
      let X := fresh "X" in
      let HX := fresh "HX" in
      remember (handle e (mkWorld a1 a2 a3 a4 a5 a6 a7 a8 a9 a10 a11 a12 a13
                            a14 a15 a16 a17 a18 a19 a20 a21)) as X eqn:HX;
      cbv beta iota delta [handle deliverTerminal findUtterance fireTimer
                           utterances timers] in HX;
      rewrite ?Hu, ?Hu1, ?Hgone, ?Hgone1 in HX;
      cbn [filter] in HX; rewrite ?Hsu in HX;
      repeat (progress
                (flat_in HX; cbn [filter find app] in HX;
                 rewrite ?Nat.eqb_refl in HX));
      subst X
  end.






(** ** Binary64 rounding

    What the backoff delay needs from IEEE 754: rounding to nearest never
    crosses a value it can represent.  The lemmas follow the definitions
    of [SpecFloat]: a right shift, a rounding of the mantissa, a second
    normalisation. *)

Local Open Scope Z_scope.

(** [iter_pos] is iteration. *)
Lemma iter_pos_nat {A} (f : A -> A) (p : positive) (x : A) :
  iter_pos f p x = Nat.iter (Pos.to_nat p) f x.
Proof.
  revert x. induction p as [p IH|p IH|]; intros x; cbn [iter_pos].
  - rewrite !IH. rewrite Pos2Nat.inj_xI.
    replace (S (2 * Pos.to_nat p))%nat
      with (Pos.to_nat p + (Pos.to_nat p + 1))%nat by lia.
    rewrite !Nat.iter_add. reflexivity.
  - rewrite !IH. rewrite Pos2Nat.inj_xO.
    replace (2 * Pos.to_nat p)%nat
      with (Pos.to_nat p + Pos.to_nat p)%nat by lia.
    rewrite Nat.iter_add. reflexivity.
  - reflexivity.
Qed.

(** One step of [shr_1] on a non-negative mantissa halves it and records
    the bit shifted out. *)
Lemma shr_1_m (mrs : shr_record) :
  0 <= shr_m mrs -> shr_m (shr_1 mrs) = shr_m mrs / 2.
Proof.
  destruct mrs as [m r s]. cbn [shr_m]. intros Hm.
  destruct m as [|[p|p|]|p]; cbn [shr_1 shr_m]; try reflexivity; try lia.
  - apply Z.div_unique with (r := 1); lia.
  - apply Z.div_unique with (r := 0); lia.
Qed.

Lemma shr_1_exact (mrs : shr_record) :
  0 <= shr_m mrs -> nothingLost mrs -> shr_m mrs mod 2 = 0 -> nothingLost (shr_1 mrs).
Proof.
  destruct mrs as [m r s]. unfold nothingLost. cbn [shr_m shr_r shr_s].
  intros Hm [-> ->] Hmod.
  destruct m as [|[p|p|]|p]; cbn; auto; try lia.
  - rewrite Pos2Z.inj_xI in Hmod.
    rewrite Z.add_comm, Z.mul_comm, Z.mod_add in Hmod by lia. discriminate.
  - discriminate.
Qed.

Lemma shr_iter (k : nat) (m : Z) :
  0 <= m ->
  shr_m (Nat.iter k shr_1 (Build_shr_record m false false))
  = m / 2 ^ Z.of_nat k
  /\ (m mod 2 ^ Z.of_nat k = 0 ->
      nothingLost (Nat.iter k shr_1 (Build_shr_record m false false))).
Proof.
  intros Hm. induction k as [|k IH].
  - cbn. split; [now rewrite Z.div_1_r | now split].
  - change (Nat.iter (S k) shr_1 (Build_shr_record m false false))
      with (shr_1 (Nat.iter k shr_1 (Build_shr_record m false false))).
    destruct IH as [IHm IHe].
    rewrite Nat2Z.inj_succ, Z.pow_succ_r by lia.
    assert (Hpos : 0 < 2 ^ Z.of_nat k) by (apply Z.pow_pos_nonneg; lia).
    split.
    + rewrite shr_1_m by (rewrite IHm; apply Z.div_pos; lia).
      rewrite IHm, Z.div_div by lia. now rewrite Z.mul_comm.
    + intros Hmod.
      apply Z.mod_divide in Hmod; [|lia]. destruct Hmod as [c Hc].
      assert (Hk : m mod 2 ^ Z.of_nat k = 0).
      { apply Z.mod_divide; [lia|]. exists (c * 2). lia. }
      apply shr_1_exact; [rewrite IHm; apply Z.div_pos; lia | auto |].
      rewrite IHm.
      replace m with ((c * 2) * 2 ^ Z.of_nat k) by lia.
      rewrite Z.div_mul by lia. apply Z.mod_mul. lia.
Qed.

Lemma shr_spec (m e : Z) (p : positive) :
  0 <= m ->
  let '(mrs, e') := shr (Build_shr_record m false false) e (Zpos p) in
  e' = e + Zpos p
  /\ shr_m mrs = m / 2 ^ Zpos p
  /\ (m mod 2 ^ Zpos p = 0 -> nothingLost mrs).
Proof.
  intros Hm. cbn [shr]. rewrite iter_pos_nat.
  pose proof (shr_iter (Pos.to_nat p) m Hm) as H.
  rewrite positive_nat_Z in H. tauto.
Qed.

(** Rounding to nearest, ties to even, moves the mantissa up by at most
    one, and not at all when nothing was shifted out. *)
Lemma round_nearest_even_bounds (mrs : shr_record) :
  shr_m mrs <= round_nearest_even (shr_m mrs) (loc_of_shr_record mrs)
            <= shr_m mrs + 1
  /\ (nothingLost mrs ->
      round_nearest_even (shr_m mrs) (loc_of_shr_record mrs) = shr_m mrs).
Proof.
  destruct mrs as [m [|] [|]]; unfold nothingLost; cbn; split; try lia;
    try (intros [? ?]; discriminate); try reflexivity.
  destruct (Z.even m); lia.
Qed.

(** The digits of a positive number. *)
Lemma digits2_pos_bounds (p : positive) :
  2 ^ (Zpos (digits2_pos p) - 1) <= Zpos p < 2 ^ Zpos (digits2_pos p).
Proof.
  induction p as [p IH|p IH|]; cbn [digits2_pos].
  - rewrite Pos2Z.inj_succ.
    replace (Z.succ (Zpos (digits2_pos p)) - 1)
      with (Z.succ (Zpos (digits2_pos p) - 1)) by lia.
    rewrite !Z.pow_succ_r by lia.
    set (a := 2 ^ (Zpos (digits2_pos p) - 1)) in *.
    set (b := 2 ^ Zpos (digits2_pos p)) in *. lia.
  - rewrite Pos2Z.inj_succ.
    replace (Z.succ (Zpos (digits2_pos p)) - 1)
      with (Z.succ (Zpos (digits2_pos p) - 1)) by lia.
    rewrite !Z.pow_succ_r by lia.
    set (a := 2 ^ (Zpos (digits2_pos p) - 1)) in *.
    set (b := 2 ^ Zpos (digits2_pos p)) in *. lia.
  - cbn. lia.
Qed.

Lemma digits2_pos_le (p : positive) (k : Z) :
  0 <= k -> Zpos p < 2 ^ k -> Zpos (digits2_pos p) <= k.
Proof.
  intros Hk Hp. destruct (digits2_pos_bounds p) as [Hlo _].
  destruct (Z_le_gt_dec (Zpos (digits2_pos p)) k) as [|Hgt]; [assumption|].
  exfalso.
  assert (2 ^ k <= 2 ^ (Zpos (digits2_pos p) - 1))
    by (apply Z.pow_le_mono_r; lia).
  lia.
Qed.

Lemma fexp_le (d e : Z) :
  d <= Num.prec -> emin Num.prec Num.emax <= e -> fexp Num.prec Num.emax (d + e) <= e.
Proof. unfold fexp, emin, Num.prec, Num.emax. lia. Qed.

Lemma shr_nonpos (mrs : shr_record) (e n : Z) :
  n <= 0 -> shr mrs e n = (mrs, e).
Proof. destruct n; [reflexivity | lia | reflexivity]. Qed.

(** The second normalisation of [binary_round_aux]: a mantissa of at most
    [2^53] on an exponent that [fexp] produced is kept as it is, except
    [2^53] itself, which becomes [2^52] on the next exponent. *)
Lemma shr_fexp_second (q : positive) (e : Z) :
  Zpos q <= 2 ^ Num.prec -> emin Num.prec Num.emax <= e ->
  exists q' e',
    shr_fexp Num.prec Num.emax (Zpos q) e loc_Exact
    = (Build_shr_record (Zpos q') false false, e')
    /\ ((q' = q /\ e' = e)
        \/ (Zpos q = 2 ^ Num.prec /\ Zpos q' = 2 ^ (Num.prec - 1) /\ e' = e + 1)).
Proof.
  intros Hq He. unfold shr_fexp. cbn [Zdigits2 shr_record_of_loc].
  destruct (Z.eq_dec (Zpos q) (2 ^ Num.prec)) as [Heq|Hne].
  - assert (q = 9007199254740992%positive) as -> by (cbv in Heq; lia).
    exists 4503599627370496%positive, (e + 1).
    split; [|right; repeat split; reflexivity].
    replace (fexp Num.prec Num.emax (Zpos (digits2_pos 9007199254740992) + e) - e)
      with 1 by (cbn [digits2_pos Pos.succ]; unfold fexp, emin, Num.prec, Num.emax in *; lia).
    reflexivity.
  - exists q, e. split; [|now left].
    apply shr_nonpos.
    assert (Zpos (digits2_pos q) <= Num.prec).
    { apply digits2_pos_le; [unfold Num.prec; lia | lia]. }
    pose proof (fexp_le (Zpos (digits2_pos q)) e). lia.
Qed.

Lemma finish_round (q : positive) (e lo hi : Z) :
  e < 0 -> emin Num.prec Num.emax <= e ->
  lo * 2 ^ (- e) <= Zpos q <= hi * 2 ^ (- e) ->
  Zpos q <= 2 ^ Num.prec ->
  inRange lo hi
    (let '(mrs, e') := shr_fexp Num.prec Num.emax (Zpos q) e loc_Exact in
     match shr_m mrs with
     | Z0 => S754_zero false
     | Zpos m =>
         if e' <=? Num.emax - Num.prec then S754_finite false m e'
         else S754_infinity false
     | Zneg _ => S754_nan
     end).
Proof.
  intros He Hemin [Hl Hh] Hq.
  destruct (shr_fexp_second q e Hq Hemin) as (q' & e' & -> & Hcase).
  cbn [shr_m].
  destruct Hcase as [[-> ->] | (Hq2 & Hq' & ->)].
  - replace (e <=? Num.emax - Num.prec) with true
      by (symmetry; apply Z.leb_le; unfold Num.emax, Num.prec; lia).
    cbn. split; [lia | split; assumption].
  - replace (e + 1 <=? Num.emax - Num.prec) with true
      by (symmetry; apply Z.leb_le; unfold Num.emax, Num.prec; lia).
    cbn [inRange]. split; [lia|].
    rewrite Hq'. rewrite Hq2 in Hl, Hh.
    replace (- e) with (Z.succ (- (e + 1))) in Hl, Hh by lia.
    rewrite Z.pow_succ_r in Hl, Hh by lia.
    replace (2 ^ Num.prec) with (2 * 2 ^ (Num.prec - 1)) in Hl, Hh by reflexivity.
    lia.
Qed.

Lemma round_aux_bounds (M : positive) (E lo hi : Z) :
  E < 0 ->
  0 <= lo ->
  lo * 2 ^ (- E) <= Zpos M <= hi * 2 ^ (- E) ->
  fexp Num.prec Num.emax (Zpos (digits2_pos M) + E) < 0 ->
  inRange lo hi (binary_round_aux Num.prec Num.emax false (Zpos M) E loc_Exact).
Proof.
  intros HE Hlo [HloM HhiM] Hfexp.
  unfold binary_round_aux.
  unfold shr_fexp at 1. cbn [Zdigits2 shr_record_of_loc].
  set (e1 := fexp Num.prec Num.emax (Zpos (digits2_pos M) + E)) in *.
  assert (Hemin : emin Num.prec Num.emax <= e1) by (subst e1; unfold fexp; lia).
  assert (He1 : Zpos (digits2_pos M) + E - Num.prec <= e1)
    by (subst e1; unfold fexp; lia).
  destruct (digits2_pos_bounds M) as [_ HM].
  destruct (Z_le_gt_dec (e1 - E) 0) as [Hs|Hs].
  - (* nothing is shifted out *)
    rewrite shr_nonpos by exact Hs.
    cbn [shr_m loc_of_shr_record round_nearest_even].
    apply finish_round; try lia.
    assert (2 ^ Zpos (digits2_pos M) <= 2 ^ Num.prec)
      by (apply Z.pow_le_mono_r; lia).
    lia.
  - (* [p] bits are shifted out and the mantissa is rounded *)
    destruct (e1 - E) as [|p|p] eqn:Hp; try lia.
    pose proof (shr_spec (Zpos M) E p ltac:(lia)) as Hshr.
    destruct (shr _ E (Zpos p)) as [mrs e'].
    destruct Hshr as (-> & Hm & Hexact).
    destruct (round_nearest_even_bounds mrs) as [[Hrl Hru] Hre].
    set (m2 := round_nearest_even (shr_m mrs) (loc_of_shr_record mrs)) in *.
    rewrite Hm in Hrl, Hru, Hre.
    assert (Hpow : 0 < 2 ^ Zpos p) by (apply Z.pow_pos_nonneg; lia).
    assert (Hsplit : 2 ^ (- E) = 2 ^ (- (E + Zpos p)) * 2 ^ Zpos p).
    { rewrite <- Z.pow_add_r by lia. f_equal. lia. }
    rewrite Hsplit in HloM, HhiM.
    set (G := 2 ^ (- (E + Zpos p))) in *.
    assert (HG : 0 < G) by (apply Z.pow_pos_nonneg; lia).
    assert (Hlow : lo * G <= m2).
    { etransitivity; [|exact Hrl].
      apply Z.div_le_lower_bound; [lia|].
      now replace (2 ^ Zpos p * (lo * G)) with (lo * (G * 2 ^ Zpos p)) by ring. }
    assert (Hupp : m2 <= hi * G).
    { destruct (Z.eq_dec (Zpos M mod 2 ^ Zpos p) 0) as [Hz|Hnz].
      - rewrite (Hre (Hexact Hz)).
        apply Z.div_le_upper_bound; [lia|].
        now replace (2 ^ Zpos p * (hi * G)) with (hi * (G * 2 ^ Zpos p)) by ring.
      - assert (Zpos M / 2 ^ Zpos p < hi * G); [|lia].
        apply Z.div_lt_upper_bound; [lia|].
        replace (2 ^ Zpos p * (hi * G)) with (hi * (G * 2 ^ Zpos p)) by ring.
        assert (Zpos M <> hi * (G * 2 ^ Zpos p)); [|lia].
        intros Heq. apply Hnz. rewrite Heq, Z.mul_assoc. apply Z.mod_mul. lia. }
    assert (Hm53 : m2 <= 2 ^ Num.prec).
    { assert (Zpos M / 2 ^ Zpos p < 2 ^ Num.prec); [|lia].
      apply Z.div_lt_upper_bound; [lia|].
      destruct (Z_le_gt_dec (Zpos (digits2_pos M)) Num.prec) as [Hd|Hd].
      - assert (2 ^ Zpos (digits2_pos M) <= 2 ^ Num.prec)
          by (apply Z.pow_le_mono_r; lia).
        assert (2 ^ Num.prec * 1 <= 2 ^ Num.prec * 2 ^ Zpos p)
          by (apply Z.mul_le_mono_nonneg_l; lia).
        lia.
      - rewrite Z.mul_comm, <- Z.pow_add_r by (unfold Num.prec; lia).
        assert (2 ^ Zpos (digits2_pos M) <= 2 ^ (Num.prec + Zpos p))
          by (apply Z.pow_le_mono_r; lia).
        lia. }
    destruct m2 as [|q|q] eqn:Hm2; [| |lia].
    + (* rounded to zero *)
      unfold shr_fexp. cbn [Zdigits2 shr_record_of_loc].
      assert (Hz : forall n, shr_m (fst (shr (Build_shr_record 0 false false)
                                            (E + Zpos p) n)) = 0).
      { intros [|n|n]; try reflexivity.
        pose proof (shr_spec 0 (E + Zpos p) n ltac:(lia)) as H0.
        destruct (shr _ _ (Zpos n)) as [mrs0 e0]. cbn [fst].
        destruct H0 as (_ & -> & _). apply Z.div_0_l. lia. }
      specialize (Hz (fexp Num.prec Num.emax (0 + (E + Zpos p)) - (E + Zpos p))).
      destruct (shr _ _ _) as [mrs0 e0]. cbn [fst] in Hz. rewrite Hz.
      cbn. nia.
    + apply finish_round; try lia.
Qed.

Lemma iter_xO (m d : positive) :
  Zpos (Pos.iter xO m d) = Zpos m * 2 ^ Zpos d.
Proof.
  induction d as [|d IH] using Pos.peano_ind.
  - cbn. lia.
  - rewrite Pos.iter_succ, Pos2Z.inj_xO, IH, Pos2Z.inj_succ, Z.pow_succ_r
      by lia.
    ring.
Qed.

(** [shl_align] moves to the smaller exponent without changing the value. *)
Lemma shl_align_spec (m : positive) (e e' : Z) :
  snd (shl_align m e e') = Z.min e e'
  /\ Zpos (fst (shl_align m e e')) = Zpos m * 2 ^ (e - Z.min e e').
Proof.
  unfold shl_align. destruct (e' - e) as [|d|d] eqn:Hd; cbn [fst snd].
  - replace (Z.min e e') with e by lia. rewrite Z.sub_diag. cbn. lia.
  - replace (Z.min e e') with e by lia. rewrite Z.sub_diag. cbn. lia.
  - replace (Z.min e e') with e' by lia. split; [reflexivity|].
    rewrite iter_xO. f_equal. f_equal. lia.
Qed.

Lemma fexp_neg_of_bound (M : positive) (E hi : Z) :
  E <= 0 -> Zpos M <= hi * 2 ^ (- E) -> hi < 2 ^ (Num.prec - 1) ->
  fexp Num.prec Num.emax (Zpos (digits2_pos M) + E) < 0.
Proof.
  intros HE HM Hhi.
  assert (Hpow : 0 < 2 ^ (- E)) by (apply Z.pow_pos_nonneg; lia).
  assert (Hlt : Zpos M < 2 ^ (Num.prec - 1 - E)).
  { replace (Num.prec - 1 - E) with (Num.prec - 1 + - E) by lia.
    rewrite Z.pow_add_r by (unfold Num.prec; lia).
    apply Z.le_lt_trans with (1 := HM).
    apply Z.mul_lt_mono_pos_r; assumption. }
  apply digits2_pos_le in Hlt; [|unfold Num.prec; lia].
  unfold fexp, emin, Num.prec, Num.emax in *. lia.
Qed.

(** ** Multiplication and addition of non-negative values *)

Lemma mul_inRange (mx my : positive) (ex ey hi : Z) :
  ex + ey < 0 ->
  Zpos mx * Zpos my <= hi * 2 ^ (- (ex + ey)) ->
  hi < 2 ^ (Num.prec - 1) ->
  inRange 0 hi
    (SFmul Num.prec Num.emax (S754_finite false mx ex) (S754_finite false my ey)).
Proof.
  intros He Hm Hhi. cbn [SFmul xorb].
  apply round_aux_bounds; try lia.
  apply fexp_neg_of_bound with (hi := hi); try lia.
Qed.

Lemma add_inRange (mb : positive) (eb B : Z) (j : spec_float) (J : Z) :
  eb < 0 -> 0 <= B -> 0 <= J ->
  Zpos mb = B * 2 ^ (- eb) ->
  B + J < 2 ^ (Num.prec - 1) ->
  inRange 0 J j ->
  inRange B (B + J) (SFadd Num.prec Num.emax (S754_finite false mb eb) j).
Proof.
  intros Heb HB HJ Hmb Hsmall Hj.
  assert (Hpb : 0 < 2 ^ (- eb)) by (apply Z.pow_pos_nonneg; lia).
  destruct j as [[|]|s| |[|] mj ej]; cbn [inRange] in Hj; try contradiction.
  - (* adding zero *)
    cbn [SFadd inRange]. split; [lia|]. rewrite Hmb. nia.
  - destruct Hj as (Hej & _ & Hmj).
    cbn [SFadd cond_Zopp].
    set (ez := Z.min eb ej).
    destruct (shl_align_spec mb eb ez) as [_ Ha].
    destruct (shl_align_spec mj ej ez) as [_ Hb].
    replace (Z.min eb ez) with ez in Ha by lia.
    replace (Z.min ej ez) with ez in Hb by lia.
    set (a := fst (shl_align mb eb ez)) in *.
    set (b := fst (shl_align mj ej ez)) in *.
    cbn [Z.add binary_normalize]. unfold binary_round.
    set (M := (a + b)%positive).
    assert (HM : Zpos M = Zpos a + Zpos b) by (subst M; lia).
    set (e' := fexp Num.prec Num.emax (Zpos (digits2_pos M) + ez)).
    destruct (shl_align_spec M ez e') as [Hs Hz].
    destruct (shl_align M ez e') as [mz ez']. cbn [fst snd] in Hs, Hz.
    subst ez'.
    set (E := Z.min ez e') in *.
    (* the exact sum, on the exponent [ez] and on the exponent [E] *)
    assert (Hpz : 0 < 2 ^ (- ez)) by (apply Z.pow_pos_nonneg; lia).
    assert (Hae : Zpos a = B * 2 ^ (- ez)).
    { rewrite Ha, Hmb, <- Z.mul_assoc, <- Z.pow_add_r by lia.
      f_equal. f_equal. lia. }
    assert (Hbe : Zpos b <= J * 2 ^ (- ez)).
    { rewrite Hb.
      replace (- ez) with (- ej + (ej - ez)) by lia.
      rewrite Z.pow_add_r, Z.mul_assoc by lia.
      apply Z.mul_le_mono_nonneg_r; [|exact Hmj].
      apply Z.pow_nonneg. lia. }
    assert (Hsum : B * 2 ^ (- ez) <= Zpos M <= (B + J) * 2 ^ (- ez)) by lia.
    assert (HzE : B * 2 ^ (- E) <= Zpos mz <= (B + J) * 2 ^ (- E)).
    { rewrite Hz.
      replace (- E) with (- ez + (ez - E)) by lia.
      rewrite Z.pow_add_r, !Z.mul_assoc by lia.
      assert (0 <= 2 ^ (ez - E)) by (apply Z.pow_nonneg; lia).
      split; apply Z.mul_le_mono_nonneg_r; lia. }
    apply round_aux_bounds; try lia.
    apply fexp_neg_of_bound with (hi := B + J); lia.
Qed.

(** ** The jitter *)

Lemma random_mantissa (m : positive) (e : Z) :
  Num.isRandom (S754_finite false m e) = true ->
  e <= -52 /\ Zpos m <= 2 ^ (- e).
Proof.
  unfold Num.isRandom. intros H. apply andb_prop in H as [Hb Hlt].
  unfold bounded, canonical_mantissa in Hb.
  apply andb_prop in Hb as [Hc _]. apply Z.eqb_eq in Hc.
  assert (Hd : Zpos (digits2_pos m) <= Num.prec)
    by (unfold fexp in Hc; lia).
  destruct (digits2_pos_bounds m) as [_ Hm].
  assert (Hm53 : Zpos m < 2 ^ Num.prec).
  { apply Z.lt_le_trans with (1 := Hm). apply Z.pow_le_mono_r; lia. }
  change (Num.ofPos 1) with (S754_finite false 4503599627370496 (-52)) in Hlt.
  unfold SFltb, SFcompare in Hlt.
  destruct (Z.compare_spec e (-52)) as [->|He|He]; try discriminate.
  - split; [lia|].
    destruct (Pos.compare_cont Eq m 4503599627370496) eqn:Hcmp;
      try discriminate.
    assert (Hm52 : (m < 4503599627370496)%positive)
      by (apply Pos.compare_lt_iff; exact Hcmp).
    change (2 ^ (- -52)) with (Zpos 4503599627370496).
    apply Z.lt_le_incl, Pos2Z.pos_lt_pos, Hm52.
  - split; [lia|].
    assert (2 ^ Num.prec <= 2 ^ (- e))
      by (apply Z.pow_le_mono_r; unfold Num.prec; lia).
    lia.
Qed.

Lemma jitter_inRange (r : spec_float) :
  Num.isRandom r = true -> inRange 0 250 (Num.mul r (Num.ofPos 250)).
Proof.
  intros Hr. unfold Num.mul.
  change (Num.ofPos 250) with (S754_finite false 8796093022208000 (-45)).
  destruct r as [[|]|s| |[|] m e]; try discriminate.
  - cbn. lia.
  - destruct (random_mantissa m e Hr) as [He Hm].
    apply mul_inRange; try lia.
    + replace (- (e + -45)) with (- e + 45) by lia.
      rewrite Z.pow_add_r by lia.
      change 8796093022208000 with (250 * 2 ^ 45). nia.
    + reflexivity.
Qed.

(** ** The base delay *)

(** A mantissa that ends in [p] zero bits is shifted without rounding. *)
Lemma round_aux_exact (M q : positive) (E : Z) (p : positive) :
  Zpos M = Zpos q * 2 ^ Zpos p ->
  Zpos q < 2 ^ Num.prec ->
  fexp Num.prec Num.emax (Zpos (digits2_pos M) + E) = E + Zpos p ->
  binary_round_aux Num.prec Num.emax false (Zpos M) E loc_Exact
  = if E + Zpos p <=? Num.emax - Num.prec
    then S754_finite false q (E + Zpos p)
    else S754_infinity false.
Proof.
  intros HM Hq Hfexp.
  unfold binary_round_aux, shr_fexp at 1.
  cbn [Zdigits2 shr_record_of_loc]. rewrite Hfexp.
  replace (E + Zpos p - E) with (Zpos p) by lia.
  pose proof (shr_spec (Zpos M) E p ltac:(lia)) as Hshr.
  destruct (shr _ E (Zpos p)) as [mrs e'].
  destruct Hshr as (-> & Hm & Hexact).
  assert (Hpow : 0 < 2 ^ Zpos p) by (apply Z.pow_pos_nonneg; lia).
  rewrite HM, Z.div_mul in Hm by lia.
  destruct (round_nearest_even_bounds mrs) as [_ Hre].
  rewrite Hre, Hm by (apply Hexact; rewrite HM; apply Z.mod_mul; lia).
  destruct (shr_fexp_second q (E + Zpos p)) as (q' & e'' & -> & Hcase).
  - lia.
  - rewrite <- Hfexp. unfold fexp. lia.
  - cbn [shr_m]. destruct Hcase as [[-> ->] | (Habs & _)]; [reflexivity|lia].
Qed.

Lemma mul_pow2_baseDelay (n : nat) :
  (n < 1024)%nat ->
  Num.mul (Num.pow2 n) baseDelay
  = if Z.of_nat n - 44 <=? Num.emax - Num.prec
    then S754_finite false 8796093022208000 (Z.of_nat n - 44)
    else S754_infinity false.
Proof.
  intros Hn. unfold Num.pow2.
  destruct (Nat.ltb_spec n 1024) as [_|]; [|lia].
  unfold Num.mul, baseDelay.
  change (Num.ofPos 500) with (S754_finite false 8796093022208000 (-44)).
  cbn [SFmul xorb].
  replace (Z.of_nat n - 44) with (Z.of_nat n - 52 + -44 + 52) by lia.
  apply round_aux_exact.
  - reflexivity.
  - reflexivity.
  - change (Zpos (digits2_pos (4503599627370496 * 8796093022208000)))
      with 105.
    unfold fexp, emin, Num.prec, Num.emax. lia.
Qed.

Lemma baseMillis_cap (n : nat) : (6 <= n)%nat -> baseMillis n = 30000.
Proof.
  intros Hn. unfold baseMillis. apply Z.min_l.
  assert (2 ^ 6 <= 2 ^ Z.of_nat n) by (apply Z.pow_le_mono_r; lia).
  change (2 ^ 6) with 64 in *. lia.
Qed.

Lemma base_float (n : nat) :
  (1 <= n)%nat ->
  Num.min (Num.ofPos 30000) (Num.mul (Num.pow2 n) baseDelay)
  = Num.ofPos (Z.to_pos (baseMillis n)).
Proof.
  intros Hn.
  destruct (le_lt_dec 6 n) as [H6|H6].
  - rewrite baseMillis_cap by exact H6.
    change (Num.ofPos (Z.to_pos 30000))
      with (S754_finite false 8246337208320000 (-38)).
    change (Num.ofPos 30000) with (S754_finite false 8246337208320000 (-38)).
    destruct (le_lt_dec 1024 n) as [Hbig|Hfin].
    + unfold Num.pow2. destruct (Nat.ltb_spec n 1024) as [|_]; [lia|].
      reflexivity.
    + rewrite mul_pow2_baseDelay by exact Hfin.
      destruct (Z.of_nat n - 44 <=? Num.emax - Num.prec); [|reflexivity].
      unfold Num.min, SFcompare.
      destruct (Z.compare_spec (-38) (Z.of_nat n - 44)) as [<-|_|Hgt];
        [reflexivity | reflexivity | lia].
  - destruct n as [|[|[|[|[|[|n]]]]]]; try lia; reflexivity.
Qed.

(** ** From mantissas to rational values *)

Lemma toQ_finite (m : positive) (e : Z) :
  e <= 0 ->
  (inject_Z (Zpos m) * Qpower 2 e == inject_Z (Zpos m) / inject_Z (2 ^ (- e)))%Q.
Proof.
  intros He. unfold Qdiv. apply Qmult_comp; [reflexivity|].
  replace e with (- (- e)) at 1 by lia.
  rewrite Qpower_opp. apply Qinv_comp.
  symmetry. apply (Zpower_Qpower 2 (- e)). lia.
Qed.

Lemma inRange_toQ (lo hi : Z) (x : spec_float) :
  inRange lo hi x ->
  exists q, Num.toQ x = Some q /\ (inject_Z lo <= q <= inject_Z hi)%Q.
Proof.
  destruct x as [[|]|s| |[|] m e]; cbn [inRange]; try contradiction.
  - intros [Hl Hh]. exists 0%Q. split; [reflexivity|].
    change 0%Q with (inject_Z 0). rewrite <- !Zle_Qle. split; assumption.
  - intros (He & Hl & Hh). eexists. split; [reflexivity|].
    cbn [cond_Zopp]. rewrite (toQ_finite m e He).
    assert (Hpow : 0 < 2 ^ (- e)) by (apply Z.pow_pos_nonneg; lia).
    assert (HpowQ : (0 < inject_Z (2 ^ (- e)))%Q)
      by (change 0%Q with (inject_Z 0); rewrite <- Zlt_Qlt; exact Hpow).
    split.
    + apply Qle_shift_div_l; [exact HpowQ|].
      rewrite <- inject_Z_mult, <- Zle_Qle. exact Hl.
    + apply Qle_shift_div_r; [exact HpowQ|].
      rewrite <- inject_Z_mult, <- Zle_Qle. exact Hh.
Qed.

(** The base delay as a binary64 value: an exact integer. *)
Lemma base_float_mantissa (n : nat) :
  (1 <= n)%nat ->
  exists mb eb,
    Num.ofPos (Z.to_pos (baseMillis n)) = S754_finite false mb eb
    /\ eb < 0 /\ Zpos mb = baseMillis n * 2 ^ (- eb).
Proof.
  intros Hn. destruct (le_lt_dec 6 n) as [H6|H6].
  - rewrite baseMillis_cap by exact H6.
    exists 8246337208320000%positive, (-38). repeat split.
  - destruct n as [|[|[|[|[|[|n]]]]]]; try lia;
      eexists _, _; (split; [reflexivity|]); split; reflexivity.
Qed.

(** ** C3: the backoff delay *)

(** C3, as the code has it.  For every counter [n >= 1] and every value
    [r] of [Math.random()], the delay is a finite number in the closed
    interval from [min(30000, 500 * 2^n)] to [min(30000, 500 * 2^n) + 250]
    milliseconds.  The sum is rounded to binary64, and for [r] close
    enough to 1 it rounds up to the upper end. *)
Theorem backoff_delay_in_closed_interval (n : nat) (r : spec_float) :
  (1 <= n)%nat ->
  Num.isRandom r = true ->
  exists q : Q,
    Num.toQ (backoffDelay n r) = Some q
    /\ (inject_Z (baseMillis n) <= q <= inject_Z (baseMillis n + 250))%Q.
Proof.
  intros Hn Hr. unfold backoffDelay.
  rewrite base_float by exact Hn.
  destruct (base_float_mantissa n Hn) as (mb & eb & -> & Heb & Hmb).
  apply inRange_toQ. unfold Num.add.
  assert (Hb : 0 <= baseMillis n <= 30000).
  { unfold baseMillis. split; [|apply Z.le_min_l].
    apply Z.min_glb; [lia|]. apply Z.mul_nonneg_nonneg; [lia|].
    apply Z.pow_nonneg. lia. }
  apply add_inRange; try lia.
  - change (2 ^ (Num.prec - 1)) with 4503599627370496. lia.
  - apply jitter_inRange, Hr.
Qed.

Lemma backoff_delay_in_closed_interval_witness :
  exists q : Q,
    Num.toQ (backoffDelay 3 (S754_finite false 4503599627370496 (-53)))
    = Some q
    /\ (inject_Z (baseMillis 3) <= q <= inject_Z (baseMillis 3 + 250))%Q.
Proof.
  apply (backoff_delay_in_closed_interval 3); [lia | reflexivity].
Defined.

(** The counter-example to C3 as stated: [1 - 2^-52] is a value
    [Math.random()] may return; at the first failure the jitter is
    [250 - 2^-44] and the sum [1000 + jitter] rounds to [1250] exactly,
    which is not below the upper end [1000 + 250]; the same happens at
    the cap, where the delay is [30250]. *)
Lemma backoff_delay_reaches_upper_end :
  let r := S754_finite false 9007199254740990 (-53) in
  Num.isRandom r = true
  /\ backoffDelay 1 r = Num.ofPos 1250
  /\ backoffDelay 6 r = Num.ofPos 30250
  /\ baseMillis 1 = 1000
  /\ exists q, Num.toQ (backoffDelay 1 r) = Some q
               /\ ~ (q < inject_Z (baseMillis 1 + 250))%Q.
Proof.
  repeat split. eexists. split; [reflexivity|].
  vm_compute. discriminate.
Qed.

Local Close Scope Z_scope.

(** * Further properties of the controller *)

(** ** Without a recognition capability *)

Lemma dormant_handle (e : Event) (w : World) :
  dormant w -> dormant (handle e w).
Proof.
  intros (Hrec & Hlis & Hsp & Her & Hcnt & Hrt & Htm & Hlog & Hutt).
  destruct w. cbn in Hrec, Hlis, Hsp, Her, Hcnt, Hrt, Htm, Hlog, Hutt.
  subst. unfold dormant.
  destruct e; cbn [handle]; cbn.
  - repeat split; assumption.
  - rewrite filter_app, Hlog. repeat split; assumption.
  - unfold speak. cbn. repeat case_if; cbn;
      rewrite ?filter_app, ?Hlog; repeat split; try assumption;
      intros u b; rewrite in_app_iff; cbn;
      (intros [Hin | [[= _ <-] | []]]; [eauto | reflexivity]).
  - unfold stopSpeaking. cbn. case_if; cbn;
      rewrite ?filter_app, ?Hlog; repeat split; assumption.
  - unfold updateConfig. cbn. repeat split; assumption.
  - destruct speechSynthesis0; cbn; rewrite filter_app, Hlog;
      repeat split; assumption.
  - repeat split; assumption.
  - repeat split; assumption.
  - repeat split; assumption.
  - repeat split; assumption.
  - unfold deliverTerminal, findUtterance. cbn.
    destruct (find _ utterances0) as [[u b]|] eqn:Hfind; cbn;
      [|repeat split; assumption].
    apply find_some in Hfind as [Hin _]. rewrite (Hutt _ _ Hin).
    cbn. rewrite filter_app, Hlog. cbn. repeat split; try assumption.
    intros u' b'. rewrite filter_In. intros [Hin' _]. eauto.
  - unfold deliverTerminal, findUtterance. cbn.
    destruct (find _ utterances0) as [[u b]|] eqn:Hfind; cbn;
      [|repeat split; assumption].
    apply find_some in Hfind as [Hin _]. rewrite (Hutt _ _ Hin).
    cbn. rewrite filter_app, Hlog. cbn. repeat split; try assumption.
    intros u' b'. rewrite filter_In. intros [Hin' _]. eauto.
  - repeat split; assumption.
Qed.

Lemma dormant_run (events : list Event) (w : World) :
  dormant w -> dormant (run events w).
Proof.
  revert w. induction events as [|e events IH]; intros w Hw; [exact Hw|].
  apply IH, dormant_handle, Hw.
Qed.

(** X1. On a host without the SpeechRecognition API the constructor
    reports ['Speech recognition not supported'], and from then on,
    whatever is called and whatever events arrive, the controller never
    calls [start], [stop] or [abort], never arms a timer, never counts a
    failure and never reports itself as listening. *)
Theorem no_recognition_api
    (options : VoiceControllerOptions) (host : Host) (events : list Event) :
  hasSpeechRecognition host = false ->
  let w := run events (construct options host) in
  log (construct options host)
  = [VoiceStatus "Speech recognition not supported" false]
  /\ recognition w = false
  /\ isListening w = false
  /\ isSpeaking w = false
  /\ isErrorRecovery w = false
  /\ errorRetryCount w = 0
  /\ timers w = []
  /\ filter isRecognitionCall (log w) = [].
Proof.
  intros Hhost w.
  assert (Hc : dormant (construct options host)
               /\ log (construct options host)
                  = [VoiceStatus "Speech recognition not supported" false]).
  { unfold construct, setupVoiceRecognition. rewrite Hhost. cbn.
    unfold dormant. cbn. repeat split; try reflexivity.
    intros u b []. }
  destruct Hc as [Hc Hlog].
  pose proof (dormant_run events _ Hc) as Hw. fold w in Hw.
  destruct Hw as (H1 & H2 & H3 & H4 & H5 & _ & H7 & H8 & _).
  repeat split; assumption.
Qed.

Lemma no_recognition_api_witness :
  filter isRecognitionCall
    (log (run [CallStartListening; CallSpeak "hello"; UtteranceEnd 0;
               CallStopListening]
            (construct defaultOptions (mkHost false true (fun _ => S754_zero false)))))
  = [].
Proof.
  exact (proj2 (proj2 (proj2 (proj2 (proj2 (proj2 (proj2
    (no_recognition_api defaultOptions
       (mkHost false true (fun _ => S754_zero false))
       [CallStartListening; CallSpeak "hello"; UtteranceEnd 0;
        CallStopListening] eq_refl)))))))).
Defined.

(** ** The speaking flag *)

Lemma speechState_clearRestartTimer (w : World) :
  speechState (clearRestartTimer w) = speechState w.
Proof. unfold clearRestartTimer. now destruct (restartTimer w) as [[|id]|]. Qed.

Lemma speechState_arm (callback : TimerCallback) (delay : spec_float)
    (w : World) :
  speechState (arm callback delay w) = speechState w.
Proof. unfold arm. cbn. apply speechState_clearRestartTimer. Qed.

Lemma speechState_onerror (error : string) (w : World) :
  speechState (onerror error w) = speechState w.
Proof.
  unfold onerror, nextRandom.
  repeat (destruct (_ =? _)%string; cbn [orb]; [reflexivity|]).
  now rewrite speechState_arm.
Qed.

Lemma speechState_startListening (w : World) :
  speechState (startListening w) = speechState w.
Proof.
  unfold startListening.
  pose proof (speechState_clearRestartTimer w) as Hc.
  destruct (recognition _ && negb _); [|exact Hc].
  destruct (recognitionStarted _); [|exact Hc].
  destruct (negb _); [|exact Hc].
  now rewrite speechState_onerror.
Qed.

Lemma speechState_onend (w : World) : speechState (onend w) = speechState w.
Proof.
  unfold onend.
  destruct (_ || _); [reflexivity|].
  destruct (autoStart _); [|reflexivity].
  now rewrite speechState_arm.
Qed.

Lemma backed_speechState (w w' : World) :
  speechState w' = speechState w -> speakingBacked w -> speakingBacked w'.
Proof.
  unfold speechState, speakingBacked, utterancesFresh.
  intros [= Hu Hn Hs]. now rewrite Hu, Hn, Hs.
Qed.

Lemma backed_speak (text : string) (w : World) :
  speakingBacked w -> speakingBacked (snd (speak text w)).
Proof.
  intros (Hfresh & Hnd & Hsp). unfold speak.
  destruct (_ || _); [now repeat split|].
  assert (Hnew : forall b sp,
             (b = false -> sp = isSpeaking w) ->
             (forall u b', In (u, b') (utterances w ++ [(nextUtterance w, b)])
                           -> u < S (nextUtterance w))
             /\ NoDup (map fst (utterances w ++ [(nextUtterance w, b)]))
             /\ (sp = true ->
                 exists u, In (u, true)
                             (utterances w ++ [(nextUtterance w, b)]))).
  { intros b sp Hb. split; [|split].
    - intros u b'. rewrite in_app_iff.
      intros [Hin | [[= <- _] | []]]; [apply Hfresh in Hin|]; lia.
    - rewrite map_app. cbn. apply NoDup_app; [exact Hnd | | ].
      + constructor; [intros []|constructor].
      + intros u Hin [<-|[]]. apply in_map_iff in Hin as [[u' b'] [Heq Hin]].
        cbn in Heq. subst u'. apply Hfresh in Hin. lia.
    - destruct b.
      + intros _. exists (nextUtterance w). rewrite in_app_iff. right. now left.
      + rewrite (Hb eq_refl). intros H. destruct (Hsp H) as [u Hin].
        exists u. rewrite in_app_iff. now left. }
  destruct (isListening w && autoStart w); cbn [snd].
  - destruct (recognition _); exact (Hnew true true ltac:(discriminate)).
  - exact (Hnew false (isSpeaking w) (fun _ => eq_refl)).
Qed.

Lemma backed_speakIfFeedback (text : string) (w : World) :
  speakingBacked w -> speakingBacked (speakIfFeedback text w).
Proof.
  intros Hw. unfold speakIfFeedback.
  destruct (provideFeedback w); [now apply backed_speak | exact Hw].
Qed.

Lemma backed_toggleLoop (todo : list ToggleableSetting) (command : string)
    (w w' : World) :
  speakingBacked w -> toggleLoop todo command w = Some w' ->
  speakingBacked w'.
Proof.
  intros Hw. induction todo as [|setting rest IH]; cbn [toggleLoop];
    [discriminate|].
  destruct (Str.testWords (settingKeywords setting) command); [|exact IH].
  destruct (Str.testWords onWords command).
  { intros [= <-]. now apply backed_speakIfFeedback. }
  destruct (Str.testWords offWords command); [|exact IH].
  intros [= <-]. now apply backed_speakIfFeedback.
Qed.

Lemma backed_processVoiceCommand (command : string) (w : World) :
  speakingBacked w -> speakingBacked (processVoiceCommand command w).
Proof.
  intros Hw. unfold processVoiceCommand.
  destruct (someIncluded _ command).
  { apply backed_speakIfFeedback. unfold stopSpeaking.
    now destruct (speechSynthesis w). }
  repeat (destruct (someIncluded _ command);
          [now apply backed_speakIfFeedback|]).
  destruct (toggleLoop toggleableSettings command w) as [w'|] eqn:Hloop.
  { now apply backed_toggleLoop in Hloop. }
  destruct (Str.includes command "battery"); [|exact Hw].
  destruct (_ && _); [now apply backed_speak | exact Hw].
Qed.

Lemma NoDup_fst_filter {A B : Type} (f : A * B -> bool) (l : list (A * B)) :
  NoDup (map fst l) -> NoDup (map fst (filter f l)).
Proof.
  induction l as [|p l IH]; cbn; [trivial|].
  intros Hnd. inversion Hnd as [|x xs Hnotin Hnd' Heq]; subst.
  destruct (f p); [|now apply IH].
  cbn. constructor; [|now apply IH].
  intros Hin. apply Hnotin.
  apply in_map_iff in Hin as [q [Hq Hin]]. apply filter_In in Hin as [Hin _].
  apply in_map_iff. now exists q.
Qed.

Lemma NoDup_fst_functional {A B : Type} (l : list (A * B)) (a : A)
    (b1 b2 : B) :
  NoDup (map fst l) -> In (a, b1) l -> In (a, b2) l -> b1 = b2.
Proof.
  induction l as [|p l IH]; cbn; [intros _ []|].
  intros Hnd. inversion Hnd as [|x xs Hnotin Hnd' Heq]; subst.
  intros [-> | H1] [[= ->] | H2]; try reflexivity.
  - exfalso. apply Hnotin. apply in_map_iff. now exists (a, b2).
  - exfalso. apply Hnotin. apply in_map_iff. now exists (a, b1).
  - now apply IH.
Qed.

Lemma findUtterance_In (u : nat) (b : bool) (w : World) :
  findUtterance u w = Some b -> In (u, b) (utterances w).
Proof.
  unfold findUtterance.
  destruct (find _ (utterances w)) as [[u' b']|] eqn:Hfind; [|discriminate].
  intros [= <-]. apply find_some in Hfind as [Hin Heq].
  apply Nat.eqb_eq in Heq. cbn in Heq. now subst u'.
Qed.

Lemma In_findUtterance (u : nat) (b : bool) (w : World) :
  NoDup (map fst (utterances w)) -> In (u, b) (utterances w) ->
  findUtterance u w = Some b.
Proof.
  intros Hnd Hin.
  destruct (findUtterance u w) as [b'|] eqn:Hfind.
  - apply findUtterance_In in Hfind.
    now rewrite (NoDup_fst_functional _ _ _ _ Hnd Hin Hfind).
  - unfold findUtterance in Hfind.
    destruct (find _ (utterances w)) as [p|] eqn:Hf; [discriminate|].
    apply (find_none _ _ Hf) in Hin. cbn in Hin.
    now rewrite Nat.eqb_refl in Hin.
Qed.

(** The terminal event of an utterance that recorded active recognition
    clears the speaking flag. *)
Lemma deliverTerminal_clears (u : nat) (w : World) :
  findUtterance u w = Some true -> isSpeaking (deliverTerminal u w) = false.
Proof.
  intros Hfind. unfold deliverTerminal. rewrite Hfind.
  unfold utteranceTerminal.
  change (snd (speechState
                 (startListening
                    (clearRestartTimer
                       (set_isSpeaking false
                          (set_currentUtterance None
                             (set_utterances
                                (filter (fun p => negb (Nat.eqb (fst p) u))
                                   (utterances w)) w)))))) = false).
  now rewrite speechState_startListening, speechState_clearRestartTimer.
Qed.

Lemma backed_deliverTerminal (u : nat) (w : World) :
  speakingBacked w -> speakingBacked (deliverTerminal u w).
Proof.
  intros Hw. pose proof Hw as (Hfresh & Hnd & Hsp).
  destruct (findUtterance u w) as [wasListening|] eqn:Hfind;
    [|unfold deliverTerminal; now rewrite Hfind].
  destruct wasListening.
  - pose proof (deliverTerminal_clears u w Hfind) as Hclear.
    pose proof (fresh_deliverTerminal u w Hfresh) as Hfresh'.
    split; [exact Hfresh'|]. split; [|now rewrite Hclear].
    revert Hclear Hfresh'. unfold deliverTerminal. rewrite Hfind.
    unfold utteranceTerminal. intros _ _.
    change (NoDup (map fst (fst (fst (speechState
              (startListening
                 (clearRestartTimer
                    (set_isSpeaking false
                       (set_currentUtterance None
                          (set_utterances
                             (filter (fun p => negb (Nat.eqb (fst p) u))
                                (utterances w)) w)))))))))).
    rewrite speechState_startListening, speechState_clearRestartTimer.
    cbn. now apply NoDup_fst_filter.
  - pose proof (findUtterance_In _ _ _ Hfind) as Hin.
    unfold deliverTerminal. rewrite Hfind. unfold utteranceTerminal.
    split; [|split].
    + intros u' b. cbn. rewrite filter_In. intros [Hin' _].
      now apply Hfresh in Hin'.
    + cbn. now apply NoDup_fst_filter.
    + cbn. intros H. destruct (Hsp H) as [u' Hin']. exists u'.
      apply filter_In. split; [exact Hin'|]. cbn.
      destruct (Nat.eqb_spec u' u) as [->|]; [|reflexivity].
      discriminate (NoDup_fst_functional _ _ _ _ Hnd Hin Hin').
Qed.

Lemma backed_handle (e : Event) (w : World) :
  speakingBacked w -> speakingBacked (handle e w).
Proof.
  intros Hw. destruct e; cbn [handle].
  - eapply backed_speechState; [apply speechState_startListening | exact Hw].
  - eapply backed_speechState; [|exact Hw]. unfold stopListening.
    rewrite <- (speechState_clearRestartTimer w).
    now destruct (recognition (clearRestartTimer w)).
  - now apply backed_speak.
  - unfold stopSpeaking. now destruct (speechSynthesis w).
  - unfold updateConfig. now destruct (recognition _).
  - eapply backed_speechState; [|exact Hw]. unfold destroy. cbv zeta.
    rewrite <- (speechState_clearRestartTimer w).
    now destruct (recognition (set_autoStart false (clearRestartTimer w)));
      destruct (speechSynthesis _).
  - now destruct (recognition w).
  - destruct (recognition w); [|exact Hw].
    eapply backed_speechState; [apply speechState_onend | exact Hw].
  - destruct (recognition w); [|exact Hw]. unfold onresult.
    destruct results as [rs|]; [|exact Hw].
    destruct (_ || _); [exact Hw|].
    destruct (negb _); [exact Hw|].
    now apply backed_processVoiceCommand.
  - destruct (recognition w); [|exact Hw].
    eapply backed_speechState; [apply speechState_onerror | exact Hw].
  - now apply backed_deliverTerminal.
  - now apply backed_deliverTerminal.
  - unfold fireTimer. destruct (find _ (timers w)) as [t|]; [|exact Hw].
    destruct (timerCallback t);
      (eapply backed_speechState;
       [apply speechState_startListening | exact Hw]).
Qed.

Lemma backed_construct (options : VoiceControllerOptions) (host : Host) :
  speakingBacked (construct options host).
Proof.
  unfold construct, setupVoiceRecognition.
  assert (H0 : forall w, utterances w = [] -> isSpeaking w = false ->
                         speakingBacked w).
  { intros w Hu Hs. unfold speakingBacked, utterancesFresh.
    rewrite Hu, Hs. repeat split; [intros ? ? [] | constructor | discriminate]. }
  destruct (negb (hasSpeechRecognition host)); cbn [andb].
  - now apply H0.
  - destruct (autoStart _); [|now apply H0].
    eapply backed_speechState; [apply speechState_startListening|].
    now apply H0.
Qed.

Lemma backed_run (events : list Event) (w : World) :
  speakingBacked w -> speakingBacked (run events w).
Proof.
  revert w. induction events as [|e events IH]; intros w Hw; [exact Hw|].
  apply IH, backed_handle, Hw.
Qed.

(** X2. Whatever has happened to a controller, while its speaking flag is
    set there is an utterance in flight that recorded active recognition,
    and the terminal event of that utterance ([onend] or [onerror]) clears
    the flag: the flag never outlives the utterances that set it. *)
Theorem speaking_flag_released_by_utterance
    (options : VoiceControllerOptions) (host : Host) (events : list Event) :
  let w := run events (construct options host) in
  isSpeaking w = true ->
  exists u,
    In (u, true) (utterances w)
    /\ isSpeaking (handle (UtteranceEnd u) w) = false
    /\ forall error, isSpeaking (handle (UtteranceError u error) w) = false.
Proof.
  intros w Hs.
  destruct (backed_run events _ (backed_construct options host))
    as (_ & Hnd & Hsp).
  destruct (Hsp Hs) as [u Hin]. exists u.
  pose proof (In_findUtterance u true _ Hnd Hin) as Hfind.
  split; [exact Hin|].
  split; [|intros error]; cbn [handle]; now apply deliverTerminal_clears.
Qed.

Lemma speaking_flag_released_by_utterance_witness :
  exists u,
    In (u, true)
       (utterances
          (run [RecStart; CallSpeak "hello"]
             (construct defaultOptions sampleHost)))
    /\ isSpeaking
         (handle (UtteranceEnd u)
            (run [RecStart; CallSpeak "hello"]
               (construct defaultOptions sampleHost))) = false
    /\ forall error,
         isSpeaking
           (handle (UtteranceError u error)
              (run [RecStart; CallSpeak "hello"]
                 (construct defaultOptions sampleHost))) = false.
Proof.
  exact (speaking_flag_released_by_utterance defaultOptions sampleHost
           [RecStart; CallSpeak "hello"] eq_refl).
Defined.

(** ** Commands that match no rule *)

(** X3. A transcript for which the parser invokes no application callback
    leaves the controller exactly as it was: nothing is spoken, no status
    is reported and no state changes; and conversely. *)
Theorem unmatched_command_changes_nothing (command : string) (w : World) :
  intents (processVoiceCommand command w) = intents w
  <-> processVoiceCommand command w = w.
Proof.
  split; [|now intros ->].
  intros Hsame.
  pose proof (processVoiceCommand_refines command w) as Href.
  rewrite Hsame in Href.
  assert (Hnone : Spec.callbacks (Spec.parse command) = []).
  { apply (app_inv_head (intents w)). now rewrite app_nil_r. }
  clear Href Hsame. revert Hnone.
  unfold processVoiceCommand, Spec.parse, Spec.priorityTable.
  cbn [find fst].
  repeat (destruct (someIncluded _ command); [discriminate|]).
  pose proof (toggleLoop_refines command w) as Htoggle.
  destruct (toggleLoop toggleableSettings command w) as [w'|].
  { destruct Htoggle as (s & v & -> & _). discriminate. }
  rewrite Htoggle.
  now destruct (Str.includes command "battery").
Qed.

(** ** The retry schedule *)

(** X4. From the sixth consecutive failure on the delay no longer grows:
    for the same random number it is the delay of the sixth failure, also
    when [Math.pow(2, n)] has overflowed to infinity. *)
Theorem backoff_delay_saturates (n : nat) (r : spec_float) :
  6 <= n -> backoffDelay n r = backoffDelay 6 r.
Proof.
  intros Hn. unfold backoffDelay.
  rewrite (base_float n) by lia.
  rewrite (base_float 6) by lia.
  now rewrite (baseMillis_cap n Hn), (baseMillis_cap 6).
Qed.

Lemma backoff_delay_saturates_witness :
  backoffDelay 2000 (S754_finite false 4503599627370496 (-53))
  = backoffDelay 6 (S754_finite false 4503599627370496 (-53)).
Proof.
  apply (backoff_delay_saturates 2000). lia.
Defined.

(** ** The listen loop and the retry loop *)

Lemma flags_clearRestartTimer (w : World) :
  flags (clearRestartTimer w) = flags w.
Proof. unfold clearRestartTimer. now destruct (restartTimer w) as [[|id]|]. Qed.

Lemma flags_arm (callback : TimerCallback) (delay : spec_float) (w : World) :
  flags (arm callback delay w) = flags w.
Proof. unfold arm. cbn. apply flags_clearRestartTimer. Qed.

Lemma flags_inv (w w' : World) :
  flags w' = flags w ->
  recognition w' = recognition w /\ isListening w' = isListening w
  /\ isErrorRecovery w' = isErrorRecovery w /\ isSpeaking w' = isSpeaking w
  /\ autoStart w' = autoStart w
  /\ recognitionStarted w' = recognitionStarted w
  /\ errorRetryCount w' = errorRetryCount w.
Proof. unfold flags. intros [= -> -> -> -> -> -> ->]. now repeat split. Qed.

Lemma flags_fields (w : World) (a b c d e f : bool) (n : nat) :
  flags w = (a, b, c, d, e, f, n) ->
  recognition w = a /\ isListening w = b /\ isErrorRecovery w = c
  /\ isSpeaking w = d /\ autoStart w = e /\ recognitionStarted w = f
  /\ errorRetryCount w = n.
Proof. unfold flags. intros [= <- <- <- <- <- <- <-]. now repeat split. Qed.

Lemma starts_arm (callback : TimerCallback) (delay : spec_float) (w : World) :
  starts (arm callback delay w) = starts w.
Proof.
  unfold arm, setTimeout. cbn.
  change (starts (emit (SetTimeout (nextTimer (clearRestartTimer w))
                          callback delay) (clearRestartTimer w)) = starts w).
  rewrite starts_emit, starts_clearRestartTimer. cbn. lia.
Qed.

Lemma timers_clearRestartTimer_nil (w : World) :
  timers w = [] -> timers (clearRestartTimer w) = [].
Proof.
  intros Ht. unfold clearRestartTimer, clearTimeout.
  destruct (restartTimer w) as [[|id]|]; cbn; now rewrite ?Ht.
Qed.

(** [startListening] on a session that is not marked as listening. *)
Lemma startListening_idle (w : World) :
  recognition w = true -> isListening w = false ->
  startListening w
  = let w' := emit RecognitionStart (clearRestartTimer w) in
    if recognitionStarted w then
      if negb (isErrorRecovery w) then onerror "start-failed" w' else w'
    else set_recognitionStarted true w'.
Proof.
  intros Hrec Hlis. unfold startListening.
  pose proof (flags_clearRestartTimer w) as Hf. unfold flags in Hf.
  injection Hf as H1 H2 H3 _ _ H6 _.
  cbv zeta.
  change (recognitionStarted (emit RecognitionStart (clearRestartTimer w)))
    with (recognitionStarted (clearRestartTimer w)).
  change (isErrorRecovery (emit RecognitionStart (clearRestartTimer w)))
    with (isErrorRecovery (clearRestartTimer w)).
  now rewrite H1, H2, H3, H6, Hrec, Hlis.
Qed.

Lemma starts_startListening_idle (w : World) :
  recognition w = true -> isListening w = false ->
  recognitionStarted w = false ->
  starts (startListening w) = S (starts w)
  /\ flags (startListening w)
     = (true, false, isErrorRecovery w, isSpeaking w, autoStart w, true,
        errorRetryCount w)
  /\ (timers w = [] -> timers (startListening w) = []).
Proof.
  intros Hrec Hlis Hst.
  rewrite (startListening_idle w Hrec Hlis), Hst. cbv zeta.
  pose proof (flags_clearRestartTimer w) as Hf. unfold flags in Hf.
  injection Hf as H1 H2 H3 H4 H5 H6 H7.
  split; [|split].
  - change (starts (emit RecognitionStart (clearRestartTimer w))
            = S (starts w)).
    rewrite starts_emit, starts_clearRestartTimer. cbn. lia.
  - change ((recognition (clearRestartTimer w),
             isListening (clearRestartTimer w),
             isErrorRecovery (clearRestartTimer w),
             isSpeaking (clearRestartTimer w),
             autoStart (clearRestartTimer w), true,
             errorRetryCount (clearRestartTimer w))
            = (true, false, isErrorRecovery w, isSpeaking w, autoStart w,
               true, errorRetryCount w)).
    now rewrite H1, H2, H3, H4, H5, H7, Hrec, Hlis.
  - intros Ht.
    change (timers (clearRestartTimer w) = []).
    now apply timers_clearRestartTimer_nil.
Qed.

(** The only live timer fires. *)
Lemma fireTimer_single (t : Timer) (w : World) :
  timers w = [t] ->
  fireTimer (timerId t) w
  = match timerCallback t with
    | RestartCallback => startListening (set_timers [] w)
    | RetryCallback => startListening (set_isErrorRecovery false (set_timers [] w))
    end.
Proof.
  intros Ht. unfold fireTimer. rewrite Ht. cbn.
  now rewrite Nat.eqb_refl.
Qed.

Lemma onerror_ignored (error : string) (w : World) :
  isIgnored error = true -> onerror error w = set_isListening false w.
Proof.
  unfold isIgnored, onerror.
  destruct (error =? "aborted")%string; [reflexivity|].
  destruct (error =? "no-speech")%string; [reflexivity|discriminate].
Qed.

(** The only live timer is the restart timer, and it fires. *)
Lemma restart_timer_fires (id : nat) (delay : spec_float) (wa : World) :
  recognition wa = true -> isListening wa = false ->
  recognitionStarted wa = false ->
  timers wa = [mkTimer id RestartCallback delay] ->
  let restarted := handle (TimerFire id) wa in
  starts restarted = S (starts wa)
  /\ timers restarted = []
  /\ flags restarted
     = (true, false, isErrorRecovery wa, isSpeaking wa, autoStart wa, true,
        errorRetryCount wa).
Proof.
  intros Hrec Hlis Hst Ht. cbv zeta. cbn [handle].
  pose proof (fireTimer_single _ _ Ht) as Hfire.
  cbn [timerId timerCallback] in Hfire. rewrite Hfire. clear Hfire.
  destruct (starts_startListening_idle (set_timers [] wa))
    as (Hs & Hfl & Hti); [exact Hrec | exact Hlis | exact Hst |].
  split; [exact Hs|]. split; [exact (Hti eq_refl)|exact Hfl].
Qed.

(** An ['aborted'] or ['no-speech'] error before the end of a session
    changes nothing that the end handler does not set itself. *)
Lemma ignored_error_then_end (error : string) (w : World) :
  recognition w = true -> isIgnored error = true ->
  run [RecError error; RecEnd] w = handle RecEnd w.
Proof.
  intros Hrec Hign. unfold run. cbn [fold_left handle].
  rewrite Hrec, (onerror_ignored error w Hign).
  change (recognition (set_isListening false w)) with (recognition w).
  rewrite Hrec. unfold onend. cbv zeta.
  assert (Heq : set_isListening false
                  (set_recognitionStarted false (set_isListening false w))
                = set_isListening false (set_recognitionStarted false w))
    by now destruct w.
  now rewrite Heq.
Qed.

(** The end of a session on a controller that restarts on its own. *)
Lemma session_end_restarts (w : World) :
  timersOwned w ->
  recognition w = true -> autoStart w = true ->
  isErrorRecovery w = false -> isSpeaking w = false ->
  let ended := handle RecEnd w in
  let restarted := handle (TimerFire (nextTimer w)) ended in
  timers ended = [mkTimer (nextTimer w) RestartCallback (Num.ofPos 250)]
  /\ starts ended = starts w
  /\ starts restarted = S (starts w)
  /\ timers restarted = []
  /\ flags restarted
     = (true, false, false, false, true, true, errorRetryCount w).
Proof.
  intros Hown Hrec Hauto Hrecov Hspeak.
  set (w0 := set_isListening false (set_recognitionStarted false w)).
  assert (Hend : handle RecEnd w = arm RestartCallback (Num.ofPos 250) w0).
  { cbn [handle]. rewrite Hrec. unfold onend.
    change (isErrorRecovery (set_isListening false
                               (set_recognitionStarted false w)))
      with (isErrorRecovery w).
    change (isSpeaking (set_isListening false
                          (set_recognitionStarted false w)))
      with (isSpeaking w).
    change (autoStart (set_isListening false
                         (set_recognitionStarted false w)))
      with (autoStart w).
    rewrite Hrecov, Hspeak, Hauto. reflexivity. }
  cbv zeta. rewrite Hend. clear Hend.
  assert (Hown0 : timersOwned w0) by exact Hown.
  destruct (arm_spec RestartCallback (Num.ofPos 250) w0 Hown0) as [_ Ht].
  change (nextTimer w0) with (nextTimer w) in Ht.
  destruct (flags_inv _ _ (flags_arm RestartCallback (Num.ofPos 250) w0))
    as (F1 & F2 & F3 & F4 & F5 & F6 & F7).
  pose proof (starts_arm RestartCallback (Num.ofPos 250) w0) as Hs0.
  destruct (restart_timer_fires (nextTimer w) (Num.ofPos 250)
              (arm RestartCallback (Num.ofPos 250) w0))
    as (H1 & H2 & H3);
    [now rewrite F1 | exact F2 | exact F6 | exact Ht |].
  split; [exact Ht|]. split; [exact Hs0|].
  split; [now rewrite H1, Hs0|]. split; [exact H2|].
  rewrite H3, F3, F4, F5, F7.
  change (isErrorRecovery w0) with (isErrorRecovery w).
  change (isSpeaking w0) with (isSpeaking w).
  change (autoStart w0) with (autoStart w).
  now rewrite Hrecov, Hspeak, Hauto.
Qed.

(** X5. The listen loop.  On a controller that restarts on its own and is
    neither speaking nor recovering, a session that ends, with or without
    an ['aborted'] or ['no-speech'] error before it, arms exactly one
    timer of 250 ms: the error handler leaves the restart to the end
    handler and the counter of failures alone.  When the timer fires
    recognition is started once and no timer is left. *)
Theorem ignored_error_restarts_after_250ms (error : string) (w : World) :
  timersOwned w ->
  recognition w = true -> autoStart w = true ->
  isErrorRecovery w = false -> isSpeaking w = false ->
  isIgnored error = true ->
  let ended := run [RecError error; RecEnd] w in
  let restarted := handle (TimerFire (nextTimer w)) ended in
  ended = handle RecEnd w
  /\ timers ended = [mkTimer (nextTimer w) RestartCallback (Num.ofPos 250)]
  /\ starts ended = starts w
  /\ starts restarted = S (starts w)
  /\ timers restarted = []
  /\ flags restarted
     = (true, false, false, false, true, true, errorRetryCount w).
Proof.
  intros Hown Hrec Hauto Hrecov Hspeak Hign. cbv zeta.
  rewrite (ignored_error_then_end error w Hrec Hign).
  split; [reflexivity|].
  exact (session_end_restarts w Hown Hrec Hauto Hrecov Hspeak).
Qed.

Lemma ignored_error_restarts_after_250ms_witness :
  let w := listeningWorld in
  let ended := run [RecError "no-speech"; RecEnd] w in
  let restarted := handle (TimerFire (nextTimer w)) ended in
  ended = handle RecEnd w
  /\ timers ended = [mkTimer (nextTimer w) RestartCallback (Num.ofPos 250)]
  /\ starts ended = starts w
  /\ starts restarted = S (starts w)
  /\ timers restarted = []
  /\ flags restarted
     = (true, false, false, false, true, true, errorRetryCount w).
Proof.
  apply (ignored_error_restarts_after_250ms "no-speech" listeningWorld);
    try reflexivity.
  split; [cbn; lia | left; reflexivity].
Defined.

Lemma onend_recovering (w : World) :
  isErrorRecovery w = true ->
  onend w = set_isListening false w.
Proof.
  intros H. unfold onend. cbv zeta.
  change (isErrorRecovery (set_isListening false w))
    with (isErrorRecovery w).
  now rewrite H.
Qed.

Lemma handle_RecEnd_recovering (w : World) :
  recognition w = true -> isErrorRecovery w = true ->
  handle RecEnd w = set_isListening false (set_recognitionStarted false w).
Proof.
  intros Hrec H. cbn [handle]. rewrite Hrec.
  now apply onend_recovering.
Qed.

Lemma handle_RecError_recoverable (error : string) (w : World) :
  recognition w = true -> isRecoverable error = true ->
  handle (RecError error) w
  = arm RetryCallback
      (backoffDelay (S (errorRetryCount w)) (mathRandom w (randomCalls w)))
      (retrying w).
Proof.
  intros Hrec Hrecov. cbn [handle]. rewrite Hrec.
  now apply onerror_recoverable.
Qed.

Lemma starts_retrying (w : World) : starts (retrying w) = starts w.
Proof.
  unfold retrying. rewrite starts_emit. cbn [isStart].
  now rewrite Nat.add_0_r.
Qed.

(** A session in recovery ends and its retry timer fires. *)
Lemma retry_timer_fires (id : nat) (delay : spec_float) (wa : World) :
  recognition wa = true -> isErrorRecovery wa = true ->
  timers wa = [mkTimer id RetryCallback delay] ->
  let failed := handle RecEnd wa in
  let retried := handle (TimerFire id) failed in
  timers failed = timers wa
  /\ isErrorRecovery failed = true
  /\ starts failed = starts wa
  /\ starts retried = S (starts wa)
  /\ timers retried = []
  /\ flags retried
     = (true, false, false, isSpeaking wa, autoStart wa, true,
        errorRetryCount wa).
Proof.
  intros Hrec Hrecov Ht. cbv zeta.
  rewrite (handle_RecEnd_recovering wa Hrec Hrecov).
  split; [reflexivity|]. split; [exact Hrecov|]. split; [reflexivity|].
  cbn [handle].
  assert (Ht' : timers (set_isListening false
                          (set_recognitionStarted false wa))
                = [mkTimer id RetryCallback delay]) by exact Ht.
  pose proof (fireTimer_single _ _ Ht') as Hfire.
  cbn [timerId timerCallback] in Hfire. rewrite Hfire. clear Hfire Ht'.
  destruct (starts_startListening_idle
              (set_isErrorRecovery false
                 (set_timers []
                    (set_isListening false
                       (set_recognitionStarted false wa)))))
    as (Hs' & Hfl & Hti); [exact Hrec | reflexivity | reflexivity |].
  split; [exact Hs'|]. split; [exact (Hti eq_refl)|]. exact Hfl.
Qed.

Lemma retry_loop (delay : spec_float) (w : World) :
  timersOwned w -> recognition w = true ->
  let failed := handle RecEnd (arm RetryCallback delay (retrying w)) in
  let retried := handle (TimerFire (nextTimer w)) failed in
  timers failed = [mkTimer (nextTimer w) RetryCallback delay]
  /\ isErrorRecovery failed = true
  /\ starts failed = starts w
  /\ starts retried = S (starts w)
  /\ timers retried = []
  /\ flags retried
     = (true, false, false, isSpeaking w, autoStart w, true,
        S (errorRetryCount w)).
Proof.
  intros Hown Hrec.
  destruct (arm_spec RetryCallback delay (retrying w) Hown) as [_ Ht].
  destruct (flags_inv _ _ (flags_arm RetryCallback delay (retrying w)))
    as (F1 & _ & F3 & F4 & F5 & _ & F7).
  pose proof (starts_arm RetryCallback delay (retrying w)) as Hs.
  rewrite starts_retrying in Hs.
  destruct (retry_timer_fires (nextTimer w) delay
              (arm RetryCallback delay (retrying w)))
    as (H1 & H2 & H3 & H4 & H5 & H6);
    [now rewrite F1 | exact F3 | exact Ht |].
  cbv zeta. rewrite H1, H3, H4, H6, F4, F5, F7, Hs.
  repeat split; assumption.
Qed.

(** X6. The retry loop.  A recoverable error (anything but ['aborted'],
    ['no-speech'] and the three fatal errors) arms one retry timer with
    the backoff delay of the incremented counter; the end of the session
    that follows arms nothing, because a recovery is under way.  When the
    retry timer fires the recovery flag is cleared and recognition is
    started once, whether or not the controller is configured to restart
    on its own; the counter keeps its incremented value. *)
Theorem recoverable_error_retries_once (error : string) (w : World) :
  timersOwned w -> recognition w = true -> isRecoverable error = true ->
  let failed := run [RecError error; RecEnd] w in
  let retried := handle (TimerFire (nextTimer w)) failed in
  timers failed
  = [mkTimer (nextTimer w) RetryCallback
       (backoffDelay (S (errorRetryCount w)) (mathRandom w (randomCalls w)))]
  /\ isErrorRecovery failed = true
  /\ starts failed = starts w
  /\ starts retried = S (starts w)
  /\ timers retried = []
  /\ flags retried
     = (true, false, false, isSpeaking w, autoStart w, true,
        S (errorRetryCount w)).
Proof.
  intros Hown Hrec Hrecov.
  unfold run. cbn [fold_left].
  rewrite (handle_RecError_recoverable error w Hrec Hrecov).
  exact (retry_loop _ w Hown Hrec).
Qed.

Lemma recoverable_error_retries_once_witness :
  let w := listeningWorld in
  let failed := run [RecError "network"; RecEnd] w in
  let retried := handle (TimerFire (nextTimer w)) failed in
  timers failed
  = [mkTimer (nextTimer w) RetryCallback
       (backoffDelay (S (errorRetryCount w)) (mathRandom w (randomCalls w)))]
  /\ isErrorRecovery failed = true
  /\ starts failed = starts w
  /\ starts retried = S (starts w)
  /\ timers retried = []
  /\ flags retried
     = (true, false, false, isSpeaking w, autoStart w, true,
        S (errorRetryCount w)).
Proof.
  apply (recoverable_error_retries_once "network" listeningWorld);
    [|reflexivity|reflexivity].
  split; [cbn; lia | left; reflexivity].
Defined.
(** ** Starting twice *)

(** Clearing the restart timer touches the live timers and the log
    only. *)
Lemma clearRestartTimer_frame (w : World) :
  exists ts lg, clearRestartTimer w = set_log lg (set_timers ts w).
Proof.
  unfold clearRestartTimer, clearTimeout, emit.
  destruct (restartTimer w) as [[|id]|].
  - exists (timers w), (log w). now destruct w.
  - eexists _, _. reflexivity.
  - exists (timers w), (log w). now destruct w.
Qed.

(** X7. [startListening()] called again before the session has reported
    [onstart] makes [recognition.start()] throw.  When no recovery is
    under way the controller treats that as a recoverable error: the
    second call counts as a failure, sets the recovery flag and arms the
    retry timer with the backoff delay, although the first call had
    succeeded.  When a recovery is under way the exception is swallowed:
    nothing is counted, and since the first call has cleared the pending
    timer, no timer is left to end the recovery. *)
Theorem second_start_before_onstart_is_a_failure (w : World) :
  timersOwned w ->
  recognition w = true -> isListening w = false ->
  recognitionStarted w = false ->
  let w2 := run [CallStartListening; CallStartListening] w in
  starts w2 = starts w + 2
  /\ (isErrorRecovery w = false ->
      isErrorRecovery w2 = true
      /\ errorRetryCount w2 = S (errorRetryCount w)
      /\ timers w2
         = [mkTimer (nextTimer w) RetryCallback
              (backoffDelay (S (errorRetryCount w))
                 (mathRandom w (randomCalls w)))])
  /\ (isErrorRecovery w = true ->
      isErrorRecovery w2 = true
      /\ errorRetryCount w2 = errorRetryCount w
      /\ timers w2 = []).
Proof.
  intros Hown Hrec Hlis Hst.
  unfold run. cbn [fold_left handle].
  destruct (starts_startListening_idle w Hrec Hlis Hst) as (Hs1 & Hf1 & _).
  pose proof (startListening_owned w Hown) as Hown1.
  assert (Hn1 : nextTimer (startListening w) = nextTimer w
                /\ mathRandom (startListening w) = mathRandom w
                /\ randomCalls (startListening w) = randomCalls w).
  { rewrite (startListening_idle w Hrec Hlis), Hst. cbv zeta.
    destruct (clearRestartTimer_frame w) as (ts & lg & ->).
    repeat split. }
  destruct Hn1 as (Hn1 & Hm1 & Hr1).
  remember (startListening w) as w1 eqn:Hw1. clear Hw1.
  destruct (flags_fields _ _ _ _ _ _ _ _ Hf1)
    as (F1 & F2 & F3 & _ & _ & F6 & F7).
  rewrite (startListening_idle w1 F1 F2), F6, F3. cbv zeta.
  destruct (clearRestartTimer_spec w1 Hown1) as (Hc & _ & _).
  destruct (clearRestartTimer_frame w1) as (ts & lg & Hfr).
  pose proof (clearing_owned w1 Hown1) as Hown2.
  pose proof (starts_clearRestartTimer w1) as Hs2.
  rewrite Hfr in *. clear Hfr.
  set (w' := emit RecognitionStart (set_log lg (set_timers ts w1))).
  destruct (isErrorRecovery w) eqn:Hrecov; cbn [negb].
  - split; [|split; [intros [=]|intros _]].
    + unfold w'. rewrite starts_emit, Hs2, Hs1. cbn [isStart]. lia.
    + split; [exact F3|]. split; [exact F7|exact Hc].
  - rewrite onerror_recoverable by reflexivity.
    assert (Hown' : timersOwned (retrying w')) by exact Hown2.
    change (errorRetryCount w') with (errorRetryCount w1).
    change (mathRandom w' (randomCalls w'))
      with (mathRandom w1 (randomCalls w1)).
    rewrite F7, Hm1, Hr1.
    destruct (arm_spec RetryCallback
                (backoffDelay (S (errorRetryCount w))
                   (mathRandom w (randomCalls w))) (retrying w') Hown')
      as [_ Ht].
    change (nextTimer (retrying w')) with (nextTimer w1) in Ht.
    rewrite Hn1 in Ht.
    destruct (flags_inv _ _ (flags_arm RetryCallback
                (backoffDelay (S (errorRetryCount w))
                   (mathRandom w (randomCalls w))) (retrying w')))
      as (_ & _ & G3 & _ & _ & _ & G7).
    split; [|split; [intros _|intros [=]]].
    + rewrite starts_arm, starts_retrying. unfold w'.
      rewrite starts_emit, Hs2, Hs1. cbn [isStart]. lia.
    + split; [exact G3|split; [|exact Ht]].
      rewrite G7. cbn. now rewrite F7.
Qed.

Lemma second_start_before_onstart_is_a_failure_witness :
  let w := construct (mkOptions (Some false) None None None) sampleHost in
  let w2 := run [CallStartListening; CallStartListening] w in
  let r := handle (RecEnd) (handle (RecError "network") listeningWorld) in
  let r2 := run [CallStartListening; CallStartListening] r in
  (starts w2 = starts w + 2
   /\ isErrorRecovery w2 = true
   /\ errorRetryCount w2 = S (errorRetryCount w)
   /\ timers w2
      = [mkTimer (nextTimer w) RetryCallback
           (backoffDelay (S (errorRetryCount w))
              (mathRandom w (randomCalls w)))])
  /\ (starts r2 = starts r + 2
      /\ isErrorRecovery r2 = true
      /\ errorRetryCount r2 = errorRetryCount r
      /\ timers r2 = []).
Proof.
  cbv zeta. split.
  - assert (Hown : timersOwned
                     (construct (mkOptions (Some false) None None None)
                        sampleHost))
      by (split; [cbn; lia | left; reflexivity]).
    destruct (second_start_before_onstart_is_a_failure
                (construct (mkOptions (Some false) None None None)
                   sampleHost) Hown eq_refl eq_refl eq_refl)
      as (H1 & H2 & _).
    exact (conj H1 (H2 eq_refl)).
  - assert (Hown : timersOwned
                     (handle RecEnd
                        (handle (RecError "network") listeningWorld))).
    { split; [vm_compute; lia|]. right.
      exists (mkTimer 1 RetryCallback
                (backoffDelay 1 (mathRandom listeningWorld 0))).
      split; [vm_compute; reflexivity|].
      split; [vm_compute; reflexivity|vm_compute; lia]. }
    destruct (second_start_before_onstart_is_a_failure
                (handle RecEnd (handle (RecError "network") listeningWorld))
                Hown eq_refl eq_refl eq_refl)
      as (H1 & _ & H3).
    exact (conj H1 (H3 eq_refl)).
Defined.

(** X8. What the application does when it mounts: it constructs the
    controller with [autoStart: true], whose constructor starts
    recognition, and then calls [startListening()] itself.  On every host
    with speech recognition the second call fails: recognition has been
    started twice, one failure is counted and the controller is in
    recovery with a retry timer armed, before anything was heard.  Once
    the session reports [onstart] and the retry timer fires, the recovery
    flag is cleared and nothing more is started; the failure stays
    counted. *)
Theorem app_mount_counts_a_failure (audio : bool) (status : string)
    (host : Host) :
  hasSpeechRecognition host = true ->
  let mounted :=
    handle CallStartListening
      (construct (mkOptions (Some true) None (Some audio) (Some status))
         host) in
  let settled := run [RecStart; TimerFire 1] mounted in
  starts mounted = 2
  /\ flags mounted = (true, false, true, false, true, true, 1)
  /\ timers mounted
     = [mkTimer 1 RetryCallback (backoffDelay 1 (hostRandom host 0))]
  /\ starts settled = 2
  /\ flags settled = (true, true, false, false, true, true, 1)
  /\ timers settled = [].
Proof.
  intros Hhost. destruct host as [rec synth random]. cbn in Hhost. subst rec.
  cbv zeta. repeat split.
Qed.

Lemma app_mount_counts_a_failure_witness :
  let mounted :=
    handle CallStartListening
      (construct (mkOptions (Some true) None (Some true)
                    (Some "Accessing battery status."))
         sampleHost) in
  let settled := run [RecStart; TimerFire 1] mounted in
  starts mounted = 2
  /\ flags mounted = (true, false, true, false, true, true, 1)
  /\ timers mounted
     = [mkTimer 1 RetryCallback (backoffDelay 1 (hostRandom sampleHost 0))]
  /\ starts settled = 2
  /\ flags settled = (true, true, false, false, true, true, 1)
  /\ timers settled = [].
Proof.
  exact (app_mount_counts_a_failure true "Accessing battery status."
           sampleHost eq_refl).
Defined.
(** ** What the parser preserves *)

Section ParserPreserves.

Variable P : World -> Prop.
Hypothesis P_emit :
  forall a w, isParserAction a = true -> P w -> P (emit a w).
Hypothesis P_speak : forall text w, P w -> P (snd (speak text w)).

Lemma speakIfFeedback_preserves (text : string) (w : World) :
  P w -> P (speakIfFeedback text w).
Proof.
  intros Hw. unfold speakIfFeedback.
  destruct (provideFeedback w); [now apply P_speak | exact Hw].
Qed.

Lemma toggleLoop_preserves (todo : list ToggleableSetting)
    (command : string) (w w' : World) :
  P w -> toggleLoop todo command w = Some w' -> P w'.
Proof.
  intros Hw. induction todo as [|setting rest IH]; cbn [toggleLoop];
    [discriminate|].
  destruct (Str.testWords (settingKeywords setting) command); [|exact IH].
  destruct (Str.testWords onWords command).
  { intros [= <-]. apply speakIfFeedback_preserves. now apply P_emit. }
  destruct (Str.testWords offWords command); [|exact IH].
  intros [= <-]. apply speakIfFeedback_preserves. now apply P_emit.
Qed.

Lemma processVoiceCommand_preserves (command : string) (w : World) :
  P w -> P (processVoiceCommand command w).
Proof.
  intros Hw. unfold processVoiceCommand.
  destruct (someIncluded _ command).
  { apply speakIfFeedback_preserves. apply P_emit; [reflexivity|].
    unfold stopSpeaking.
    destruct (speechSynthesis w); [now apply P_emit | exact Hw]. }
  repeat (destruct (someIncluded _ command);
          [apply speakIfFeedback_preserves; now apply P_emit|]).
  destruct (toggleLoop toggleableSettings command w) as [w'|] eqn:Hloop.
  { now apply toggleLoop_preserves in Hloop. }
  destruct (Str.includes command "battery"); [|exact Hw].
  destruct (_ && _); [apply P_speak|]; now apply P_emit.
Qed.

Lemma onresult_preserves (results : Results) (w : World) :
  (forall n w, P w -> P (set_errorRetryCount n w)) ->
  P w -> P (onresult results w).
Proof.
  intros Hset Hw. unfold onresult.
  destruct results as [rs|]; [|now apply Hset].
  destruct (_ || _); [now apply Hset|].
  destruct (negb _); [now apply Hset|].
  apply processVoiceCommand_preserves. apply P_emit; [reflexivity|].
  now apply Hset.
Qed.

End ParserPreserves.

(** ** After [destroy()] *)

Lemma halted_speak (n : nat) (text : string) (w : World) :
  halted w /\ starts w = n ->
  halted (snd (speak text w)) /\ starts (snd (speak text w)) = n.
Proof.
  intros [(Hauto & Ht & Hu) Hs]. unfold speak.
  destruct (_ || _); [now repeat split|].
  rewrite Hauto, andb_false_r. cbn [snd].
  split; [split; [exact Hauto|split; [exact Ht|]]|].
  - intros u b. cbn. rewrite in_app_iff.
    intros [Hin|[[= _ <-]|[]]]; [now apply (Hu u)|reflexivity].
  - unfold starts in *. cbn. rewrite !filter_app, !length_app. cbn. lia.
Qed.

Lemma halted_emit (n : nat) (a : Action) (w : World) :
  isStart a = false ->
  halted w /\ starts w = n -> halted (emit a w) /\ starts (emit a w) = n.
Proof.
  intros Ha [Hh Hs]. split; [exact Hh|].
  rewrite starts_emit, Ha. lia.
Qed.

Lemma halted_clearRestartTimer (n : nat) (w : World) :
  halted w /\ starts w = n ->
  halted (clearRestartTimer w) /\ starts (clearRestartTimer w) = n.
Proof.
  intros [(Hauto & Ht & Hu) Hs].
  rewrite starts_clearRestartTimer. split; [|exact Hs].
  pose proof (timers_clearRestartTimer_nil w Ht) as Ht'.
  destruct (clearRestartTimer_frame w) as (ts & lg & Hfr).
  rewrite Hfr in *. now repeat split.
Qed.

Lemma halted_deliverTerminal (n : nat) (u : nat) (w : World) :
  halted w /\ starts w = n ->
  halted (deliverTerminal u w) /\ starts (deliverTerminal u w) = n.
Proof.
  intros Hw. pose proof Hw as [(Hauto & Ht & Hu) Hs].
  unfold deliverTerminal.
  destruct (findUtterance u w) as [b|] eqn:Hfind; [|exact Hw].
  rewrite (Hu u b (findUtterance_In _ _ _ Hfind)).
  unfold utteranceTerminal.
  apply halted_emit; [reflexivity|].
  split; [|exact Hs]. split; [exact Hauto|]. split; [exact Ht|].
  intros u' b'. cbn. rewrite filter_In. intros [Hin _]. now apply (Hu u').
Qed.

Lemma halted_handle (n : nat) (e : Event) (w : World) :
  passive e = true ->
  halted w /\ starts w = n ->
  halted (handle e w) /\ starts (handle e w) = n.
Proof.
  intros He Hw. pose proof Hw as [(Hauto & Ht & Hu) Hs].
  destruct e; cbn [handle]; try discriminate.
  - (* stopListening *)
    unfold stopListening.
    apply halted_emit; [reflexivity|].
    pose proof (halted_clearRestartTimer n w Hw) as Hc.
    destruct (recognition (clearRestartTimer w)); [|exact Hc].
    exact (halted_emit n RecognitionAbort _ eq_refl Hc).
  - (* speak *)
    now apply halted_speak.
  - (* stopSpeaking *)
    unfold stopSpeaking.
    destruct (speechSynthesis w); [now apply halted_emit | exact Hw].
  - (* updateConfig *)
    cbn [passive] in He. apply negb_true_iff in He.
    unfold updateConfig. cbv zeta.
    assert (Hkeep : orElse (optAutoStart newConfig) (autoStart w) = false).
    { rewrite Hauto. exact He. }
    match goal with
    | |- context [if ?c then _ else _] => destruct c
    end; (split; [split; [exact Hkeep|split; [exact Ht|exact Hu]]|exact Hs]).
  - (* destroy *)
    unfold destroy. cbv zeta.
    pose proof (halted_clearRestartTimer n w Hw) as Hc.
    assert (Hc' : halted (set_autoStart false (clearRestartTimer w))
                  /\ starts (set_autoStart false (clearRestartTimer w)) = n).
    { destruct Hc as [(_ & Ht' & Hu') Hs']. now repeat split. }
    destruct (recognition (set_autoStart false (clearRestartTimer w)));
      destruct (speechSynthesis _);
      repeat (apply halted_emit; [reflexivity|]); exact Hc'.
  - (* onstart *)
    destruct (recognition w); [|exact Hw].
    unfold onstart. now apply halted_emit.
  - (* onend *)
    destruct (recognition w); [|exact Hw].
    unfold onend. cbv zeta.
    change (autoStart (set_isListening false
                         (set_recognitionStarted false w)))
      with (autoStart w).
    rewrite Hauto.
    destruct (_ || _); [exact Hw|].
    now apply halted_emit.
  - (* onresult *)
    destruct (recognition w); [|exact Hw].
    apply (onresult_preserves (fun w => halted w /\ starts w = n)).
    + intros a w0 Ha. apply halted_emit. now destruct a.
    + intros text w0. apply halted_speak.
    + intros k w0 H0. exact H0.
    + exact Hw.
  - (* onerror *)
    destruct (recognition w); [|exact Hw].
    cbn [passive] in He. apply negb_true_iff in He.
    unfold isRecoverable in He.
    destruct (isIgnored error) eqn:Hign.
    { rewrite (onerror_ignored error w Hign). exact Hw. }
    cbn in He. apply negb_false_iff in He.
    destruct (onerror_fatal error w He) as [status ->].
    split; [|exact (proj2 (halted_emit n (VoiceStatus status false)
                             (set_isErrorRecovery true
                                (set_isListening false w)) eq_refl Hw))].
    split; [reflexivity|]. split; [exact Ht|exact Hu].
  - now apply halted_deliverTerminal.
  - now apply halted_deliverTerminal.
  - (* no timer is live *)
    unfold fireTimer. now rewrite Ht.
Qed.

Lemma halted_run (n : nat) (events : list Event) (w : World) :
  (forall e, In e events -> passive e = true) ->
  halted w /\ starts w = n ->
  halted (run events w) /\ starts (run events w) = n.
Proof.
  revert w. induction events as [|e events IH]; intros w Hev Hw; [exact Hw|].
  apply IH; [intros e' He'; apply Hev; now right|].
  apply halted_handle; [apply Hev; now left | exact Hw].
Qed.

(** X9. [destroy()] is final when no utterance in flight recorded that
    recognition was active: it switches restarting off and leaves no
    timer, and afterwards nothing but an explicit [startListening()], a
    reconfiguration that switches restarting on again, or a recoverable
    recognition error ever starts recognition, whatever else is called or
    delivered. *)
Theorem destroy_is_final (events : list Event) (w : World) :
  timersOwned w ->
  (forall u, ~ In (u, true) (utterances w)) ->
  (forall e, In e events -> passive e = true) ->
  let w' := run events (handle CallDestroy w) in
  starts w' = starts w /\ autoStart w' = false /\ timers w' = [].
Proof.
  intros Hown Hu Hev.
  assert (Hd : halted (handle CallDestroy w)
               /\ starts (handle CallDestroy w) = starts w).
  { cbn [handle]. unfold destroy. cbv zeta.
    destruct (clearRestartTimer_spec w Hown) as (Ht & _ & _).
    pose proof (starts_clearRestartTimer w) as Hs.
    destruct (clearRestartTimer_frame w) as (ts & lg & Hfr).
    rewrite Hfr in *.
    assert (Hc : halted (set_autoStart false (set_log lg (set_timers ts w)))
                 /\ starts (set_autoStart false
                              (set_log lg (set_timers ts w))) = starts w).
    { split; [|exact Hs]. split; [reflexivity|]. split; [exact Ht|].
      intros u [|]; [|reflexivity]. intros Hin. now apply Hu in Hin. }
    destruct (recognition _); destruct (speechSynthesis _);
      repeat (apply halted_emit; [reflexivity|]); exact Hc. }
  destruct (halted_run _ events _ Hev Hd) as [(Hauto & Ht & _) Hs].
  cbv zeta. now repeat split.
Qed.

Lemma destroy_is_final_witness :
  let events :=
    [RecError "aborted"; RecEnd; CallSpeak "goodbye"; UtteranceEnd 0;
     RecResult (Some [["open navigation"]]); TimerFire 1; CallDestroy] in
  let w' := run events (handle CallDestroy listeningWorld) in
  starts w' = starts listeningWorld /\ autoStart w' = false /\ timers w' = [].
Proof.
  apply (destroy_is_final
           [RecError "aborted"; RecEnd; CallSpeak "goodbye"; UtteranceEnd 0;
            RecResult (Some [["open navigation"]]); TimerFire 1; CallDestroy]
           listeningWorld).
  - split; [cbn; lia | left; reflexivity].
  - intros u [].
  - intros e He. cbn in He.
    repeat (destruct He as [<-|He]; [reflexivity|]). destruct He.
Defined.
(** X10. [destroy()] does not disarm the handlers of an utterance in
    flight.  When that utterance recorded active recognition and the
    session has ended, its terminal event (the one [destroy()] itself
    provokes by cancelling speech) starts recognition again, on a
    controller whose restarting [destroy()] has just switched off. *)
Theorem destroy_while_speaking_restarts (u : nat) (w : World) :
  findUtterance u w = Some true ->
  recognition w = true -> isListening w = false ->
  recognitionStarted w = false ->
  let destroyed := handle CallDestroy w in
  autoStart destroyed = false
  /\ starts destroyed = starts w
  /\ (forall error,
        starts (handle (UtteranceError u error) destroyed) = S (starts w))
  /\ starts (handle (UtteranceEnd u) destroyed) = S (starts w).
Proof.
  intros Hfind Hrec Hlis Hst.
  assert (Hd : exists ts lg last,
             isStart last = false
             /\ handle CallDestroy w
                = emit last
                    (emit RecognitionAbort
                       (set_autoStart false (set_log lg (set_timers ts w))))
             /\ starts (set_log lg (set_timers ts w)) = starts w).
  { cbn [handle]. unfold destroy. cbv zeta.
    pose proof (starts_clearRestartTimer w) as Hs.
    destruct (clearRestartTimer_frame w) as (ts & lg & Hfr).
    rewrite Hfr in *. exists ts, lg.
    change (recognition (set_autoStart false (set_log lg (set_timers ts w))))
      with (recognition w).
    rewrite Hrec.
    destruct (speechSynthesis _); eexists; now repeat split. }
  destruct Hd as (ts & lg & last & Hlast & Hd & Hs).
  cbv zeta. rewrite Hd. clear Hd.
  set (w0 := set_autoStart false (set_log lg (set_timers ts w))).
  assert (Hs0 : starts (emit last (emit RecognitionAbort w0))
                = starts w).
  { rewrite !starts_emit, Hlast. cbn [isStart]. unfold w0.
    change (starts (set_autoStart false (set_log lg (set_timers ts w))))
      with (starts (set_log lg (set_timers ts w))).
    lia. }
  assert (Hterm : starts (deliverTerminal u
                            (emit last (emit RecognitionAbort w0)))
                  = S (starts w)).
  { unfold deliverTerminal.
    change (findUtterance u (emit last (emit RecognitionAbort w0)))
      with (findUtterance u w).
    rewrite Hfind. unfold utteranceTerminal. cbv zeta.
    rewrite starts_emit. cbn [isStart]. rewrite Nat.add_0_r.
    match goal with
    | |- starts (startListening ?x) = _ =>
        destruct (starts_startListening_idle x) as (H1 & _ & _)
    end.
    - rewrite (proj1 (flags_inv _ _ (flags_clearRestartTimer _))).
      exact Hrec.
    - rewrite (proj1 (proj2 (flags_inv _ _ (flags_clearRestartTimer _)))).
      exact Hlis.
    - destruct (flags_inv _ _ (flags_clearRestartTimer
                  (set_isSpeaking false
                     (set_currentUtterance None
                        (set_utterances
                           (filter (fun p => negb (Nat.eqb (fst p) u))
                              (utterances
                                 (emit last
                                    (emit RecognitionAbort w0))))
                           (emit last (emit RecognitionAbort w0)))))))
        as (_ & _ & _ & _ & _ & F6 & _).
      rewrite F6. exact Hst.
    - rewrite H1, starts_clearRestartTimer. f_equal. exact Hs0. }
  split; [reflexivity|]. split; [exact Hs0|].
  split; [intros error|]; cbn [handle]; exact Hterm.
Qed.

Lemma destroy_while_speaking_restarts_witness :
  let w := run [RecStart; CallSpeak "hello"; RecEnd]
             (construct defaultOptions sampleHost) in
  let destroyed := handle CallDestroy w in
  autoStart destroyed = false
  /\ starts destroyed = starts w
  /\ (forall error,
        starts (handle (UtteranceError 0 error) destroyed) = S (starts w))
  /\ starts (handle (UtteranceEnd 0) destroyed) = S (starts w).
Proof.
  exact (destroy_while_speaking_restarts 0
           (run [RecStart; CallSpeak "hello"; RecEnd]
              (construct defaultOptions sampleHost))
           eq_refl eq_refl eq_refl eq_refl).
Defined.
(** ** The recovery flag after a fatal error *)

Lemma stuck_core (w w' : World) :
  core w' = core w -> recoveryStuck w -> recoveryStuck w'.
Proof.
  unfold core, recoveryStuck. intros [= _ _ _ _ _ _ _ _ Hr _ Ht _ _].
  now rewrite Hr, Ht.
Qed.

Lemma timers_clearRestartTimer_incl (w : World) (t : Timer) :
  In t (timers (clearRestartTimer w)) -> In t (timers w).
Proof.
  unfold clearRestartTimer, clearTimeout.
  destruct (restartTimer w) as [[|id]|]; cbn; try tauto.
  rewrite filter_In. tauto.
Qed.

Lemma stuck_clearRestartTimer (w : World) :
  recoveryStuck w -> recoveryStuck (clearRestartTimer w).
Proof.
  intros [Hr Ht]. split.
  - now rewrite (proj1 (proj2 (proj2 (flags_inv _ _
                                        (flags_clearRestartTimer w))))).
  - intros t Hin. now apply Ht, timers_clearRestartTimer_incl.
Qed.

Lemma stuck_startListening (w : World) :
  recoveryStuck w -> recoveryStuck (startListening w).
Proof.
  intros Hw. pose proof (stuck_clearRestartTimer w Hw) as Hc.
  unfold startListening. cbv zeta.
  destruct (recognition _ && negb _); [|exact Hc].
  change (recognitionStarted (emit RecognitionStart (clearRestartTimer w)))
    with (recognitionStarted (clearRestartTimer w)).
  change (isErrorRecovery (emit RecognitionStart (clearRestartTimer w)))
    with (isErrorRecovery (clearRestartTimer w)).
  rewrite (proj1 Hc). cbn [negb].
  destruct (recognitionStarted _); exact Hc.
Qed.

Lemma stuck_handle (e : Event) (w : World) :
  raisesRecoverable e = false ->
  recoveryStuck w -> recoveryStuck (handle e w).
Proof.
  intros He Hw. pose proof Hw as [Hr Ht].
  destruct e; cbn [handle].
  - now apply stuck_startListening.
  - unfold stopListening. cbv zeta.
    pose proof (stuck_clearRestartTimer w Hw) as Hc.
    destruct (recognition (clearRestartTimer w)); exact Hc.
  - eapply stuck_core; [apply core_speak | exact Hw].
  - eapply stuck_core; [apply core_stopSpeaking | exact Hw].
  - unfold updateConfig. cbv zeta.
    match goal with
    | |- context [if ?c then _ else _] => destruct c
    end; exact Hw.
  - unfold destroy. cbv zeta.
    pose proof (stuck_clearRestartTimer w Hw) as Hc.
    destruct (recognition (set_autoStart false (clearRestartTimer w)));
      destruct (speechSynthesis _); exact Hc.
  - destruct (recognition w); exact Hw.
  - destruct (recognition w); [|exact Hw].
    rewrite (onend_recovering (set_recognitionStarted false w) Hr).
    exact Hw.
  - destruct (recognition w); [|exact Hw].
    apply (onresult_preserves recoveryStuck).
    + intros a w0 _ H0. exact H0.
    + intros text w0. apply stuck_core, core_speak.
    + intros k w0 H0. exact H0.
    + exact Hw.
  - destruct (recognition w); [|exact Hw].
    cbn [raisesRecoverable] in He. unfold isRecoverable in He.
    destruct (isIgnored error) eqn:Hign.
    { rewrite (onerror_ignored error w Hign). exact Hw. }
    cbn in He. apply negb_false_iff in He.
    destruct (onerror_fatal error w He) as [status ->].
    split; [reflexivity | exact Ht].
  - unfold deliverTerminal.
    destruct (findUtterance utterance w) as [[|]|]; [| exact Hw | exact Hw].
    unfold utteranceTerminal. cbv zeta.
    apply (stuck_startListening (clearRestartTimer _)).
    now apply (stuck_clearRestartTimer (set_isSpeaking false _)).
  - unfold deliverTerminal.
    destruct (findUtterance utterance w) as [[|]|]; [| exact Hw | exact Hw].
    unfold utteranceTerminal. cbv zeta.
    apply (stuck_startListening (clearRestartTimer _)).
    now apply (stuck_clearRestartTimer (set_isSpeaking false _)).
  - unfold fireTimer.
    destruct (find _ (timers w)) as [t|] eqn:Hfind; [|exact Hw].
    apply find_some in Hfind as [Hin _].
    rewrite (Ht t Hin).
    apply stuck_startListening. split; [exact Hr|].
    intros t'. cbn. rewrite filter_In. intros [Hin' _]. now apply Ht.
Qed.

Lemma stuck_run (events : list Event) (w : World) :
  (forall e, In e events -> raisesRecoverable e = false) ->
  recoveryStuck w -> recoveryStuck (run events w).
Proof.
  revert w. induction events as [|e events IH]; intros w Hev Hw; [exact Hw|].
  apply IH; [intros e' He'; apply Hev; now right|].
  apply stuck_handle; [apply Hev; now left | exact Hw].
Qed.

(** X11. A fatal error ends automatic restarting for good.  The handler
    sets the recovery flag, and only a firing retry timer clears it: when
    none is pending, the flag stays set through every later call and
    event short of a recoverable recognition error, including a
    reconfiguration that switches restarting back on and an explicit
    [startListening()].  So the end of every later session arms no timer
    and reports nothing. *)
Theorem fatal_error_recovery_flag_sticks (error : string)
    (events : list Event) (w : World) :
  recognition w = true -> isFatal error = true ->
  (forall t, In t (timers w) -> timerCallback t = RestartCallback) ->
  (forall e, In e events -> raisesRecoverable e = false) ->
  let w' := run events (handle (RecError error) w) in
  isErrorRecovery w' = true
  /\ timers (handle RecEnd w') = timers w'
  /\ log (handle RecEnd w') = log w'.
Proof.
  intros Hrec Hfatal Ht Hev.
  assert (H0 : recoveryStuck (handle (RecError error) w)).
  { cbn [handle]. rewrite Hrec.
    destruct (onerror_fatal error w Hfatal) as [status ->].
    split; [reflexivity | exact Ht]. }
  destruct (stuck_run events _ Hev H0) as [Hr _].
  cbv zeta.
  remember (run events (handle (RecError error) w)) as w' eqn:Hw'.
  clear Hw'. split; [exact Hr|].
  cbn [handle].
  destruct (recognition w'); [|now split].
  rewrite (onend_recovering (set_recognitionStarted false w') Hr).
  now split.
Qed.

Lemma fatal_error_recovery_flag_sticks_witness :
  let events :=
    [CallUpdateConfig (mkOptions (Some true) None None None);
     CallStartListening; RecStart; RecResult (Some [["settings"]])] in
  let w' := run events (handle (RecError "not-allowed") listeningWorld) in
  isErrorRecovery w' = true
  /\ timers (handle RecEnd w') = timers w'
  /\ log (handle RecEnd w') = log w'.
Proof.
  apply (fatal_error_recovery_flag_sticks "not-allowed"
           [CallUpdateConfig (mkOptions (Some true) None None None);
            CallStartListening; RecStart; RecResult (Some [["settings"]])]
           listeningWorld); try reflexivity.
  - intros t [].
  - intros e He. cbn in He.
    repeat (destruct He as [<-|He]; [reflexivity|]). destruct He.
Defined.

(** ** C4: after a fatal error *)



(** ** Pausing *)

(** X12. [stopListening()] pauses only until the aborted session has
    ended.  It clears the timer, aborts and reports ['Voice paused'], but
    leaves restarting switched on.  On a controller that is neither
    recovering nor speaking, the ['aborted'] error and the end of the
    session that the abort provokes arm the 250 ms timer again, and when
    it fires recognition is started.  While a recovery is under way or
    the controller is speaking, the end of that session arms nothing and
    starts nothing. *)
Theorem stopListening_resumes_after_session_end (w : World) :
  timersOwned w ->
  recognition w = true -> autoStart w = true ->
  let paused := handle CallStopListening w in
  let ended := run [RecError "aborted"; RecEnd] paused in
  let resumed :=
    run [RecError "aborted"; RecEnd; TimerFire (nextTimer w)] paused in
  isListening paused = false
  /\ timers paused = []
  /\ starts paused = starts w
  /\ autoStart paused = true
  /\ (isErrorRecovery w = false -> isSpeaking w = false ->
      starts resumed = S (starts w)
      /\ flags resumed
         = (true, false, false, false, true, true, errorRetryCount w))
  /\ (isErrorRecovery w || isSpeaking w = true ->
      timers ended = [] /\ starts ended = starts w
      /\ log ended = log paused).
Proof.
  intros Hown Hrec Hauto.
  pose proof (handle_owned CallStopListening w Hown) as Hown1.
  assert (Hp : isListening (handle CallStopListening w) = false
               /\ timers (handle CallStopListening w) = []
               /\ starts (handle CallStopListening w) = starts w
               /\ nextTimer (handle CallStopListening w) = nextTimer w
               /\ flags (handle CallStopListening w)
                  = (true, false, isErrorRecovery w, isSpeaking w, true,
                     recognitionStarted w, errorRetryCount w)).
  { cbn [handle]. unfold stopListening. cbv zeta.
    destruct (clearRestartTimer_spec w Hown) as (Ht & Hn & _).
    pose proof (starts_clearRestartTimer w) as Hs.
    destruct (clearRestartTimer_frame w) as (ts & lg & Hfr).
    rewrite Hfr in *.
    change (recognition (set_log lg (set_timers ts w)))
      with (recognition w).
    rewrite Hrec.
    split; [reflexivity|]. split; [exact Ht|]. split; [|split; [exact Hn|]].
    - rewrite !starts_emit. cbn [isStart].
      change (starts (set_isListening false
                        (emit RecognitionAbort
                           (set_log lg (set_timers ts w)))))
        with (starts (emit RecognitionAbort (set_log lg (set_timers ts w)))).
      rewrite starts_emit. cbn [isStart]. lia.
    - unfold flags. cbn. now rewrite Hrec, Hauto. }
  destruct Hp as (Hl & Ht & Hs & Hn & Hf).
  remember (handle CallStopListening w) as paused eqn:Hpaused.
  clear Hpaused.
  destruct (flags_fields _ _ _ _ _ _ _ _ Hf)
    as (F1 & F2 & F3 & F4 & F5 & F6 & F7).
  cbv zeta.
  split; [exact Hl|]. split; [exact Ht|]. split; [exact Hs|].
  split; [exact F5|].
  change (run [RecError "aborted"; RecEnd; TimerFire (nextTimer w)] paused)
    with (handle (TimerFire (nextTimer w))
            (run [RecError "aborted"; RecEnd] paused)).
  rewrite (ignored_error_then_end "aborted" paused F1 eq_refl).
  split.
  - intros Hrecov Hspeak. rewrite Hrecov in F3. rewrite Hspeak in F4.
    destruct (session_end_restarts paused Hown1 F1 F5 F3 F4)
      as (_ & _ & H3 & _ & H5).
    rewrite Hn in H3, H5. rewrite H3, H5, Hs, F7. now split.
  - intros Hblocked. rewrite <- F3, <- F4 in Hblocked.
    cbn [handle]. rewrite F1. unfold onend. cbv zeta.
    change (isErrorRecovery
              (set_isListening false (set_recognitionStarted false paused)))
      with (isErrorRecovery paused).
    change (isSpeaking
              (set_isListening false (set_recognitionStarted false paused)))
      with (isSpeaking paused).
    rewrite Hblocked.
    split; [exact Ht|]. split; [exact Hs|reflexivity].
Qed.

Lemma stopListening_resumes_after_session_end_witness :
  let w := listeningWorld in
  let paused := handle CallStopListening w in
  let resumed :=
    run [RecError "aborted"; RecEnd; TimerFire (nextTimer w)] paused in
  let s := handle (CallSpeak "hello") listeningWorld in
  let ended :=
    run [RecError "aborted"; RecEnd] (handle CallStopListening s) in
  (isListening paused = false
   /\ timers paused = []
   /\ starts paused = starts w
   /\ starts resumed = S (starts w)
   /\ flags resumed
      = (true, false, false, false, true, true, errorRetryCount w))
  /\ (timers ended = [] /\ starts ended = starts s).
Proof.
  cbv zeta. split.
  - assert (Hown : timersOwned listeningWorld)
      by (split; [cbn; lia | left; reflexivity]).
    destruct (stopListening_resumes_after_session_end listeningWorld
                Hown eq_refl eq_refl)
      as (H1 & H2 & H3 & _ & H5 & _).
    destruct (H5 eq_refl eq_refl) as [H5a H5b].
    exact (conj H1 (conj H2 (conj H3 (conj H5a H5b)))).
  - assert (Hown : timersOwned (handle (CallSpeak "hello") listeningWorld))
      by (split; [vm_compute; lia | left; vm_compute; reflexivity]).
    destruct (stopListening_resumes_after_session_end
                (handle (CallSpeak "hello") listeningWorld)
                Hown eq_refl eq_refl)
      as (_ & _ & _ & _ & _ & H6).
    destruct (H6 eq_refl) as (H6a & H6b & _).
    exact (conj H6a H6b).
Defined.

(** ** Speaking while recognition is idle *)

Lemma find_app_last {A : Type} (f : A -> bool) (l : list A) (x : A) :
  (forall y, In y l -> f y = false) -> f x = true ->
  find f (l ++ [x]) = Some x.
Proof.
  intros Hl Hx. induction l as [|y l IH]; cbn; [now rewrite Hx|].
  rewrite (Hl y (or_introl eq_refl)). apply IH.
  intros z Hz. apply Hl. now right.
Qed.

(** X13. [speak] on a controller that is not listening, or that does not
    restart on its own, leaves recognition alone: no flag of the
    recognition side changes and no call is made on the session, neither
    by [speak] itself nor, later, by the terminal event of the utterance,
    which only releases the utterance. *)
Theorem speak_while_idle_leaves_recognition_alone (text : string)
    (w : World) :
  utterancesFresh w ->
  isListening w && autoStart w = false ->
  let said := snd (speak text w) in
  let finished := handle (UtteranceEnd (nextUtterance w)) said in
  flags said = flags w
  /\ filter isRecognitionCall (log said) = filter isRecognitionCall (log w)
  /\ flags finished = flags w
  /\ filter isRecognitionCall (log finished)
     = filter isRecognitionCall (log w)
  /\ timers finished = timers w
  /\ findUtterance (nextUtterance w) finished = None.
Proof.
  intros Hfresh Hidle. cbv zeta. unfold speak.
  pose proof (fresh_next_not_in_flight w Hfresh) as Hnone.
  destruct (_ || _).
  { cbn [snd handle]. unfold deliverTerminal. rewrite Hnone.
    now repeat split. }
  rewrite Hidle. cbn [snd handle]. unfold deliverTerminal, findUtterance.
  cbn [utterances nextUtterance emit set_log set_currentUtterance
       set_utterances set_nextUtterance].
  rewrite (find_app_last _ (utterances w) (nextUtterance w, false)).
  - cbn [option_map snd]. unfold utteranceTerminal. cbv zeta.
    split; [reflexivity|].
    split; [cbn; rewrite !filter_app; cbn; now rewrite !app_nil_r|].
    split; [reflexivity|].
    split; [cbn; rewrite !filter_app; cbn; now rewrite !app_nil_r|].
    split; [reflexivity|].
    cbn. rewrite filter_app. cbn. rewrite Nat.eqb_refl. cbn.
    rewrite app_nil_r.
    destruct (find _ (filter _ (utterances w))) as [p|] eqn:Hfind;
      [|reflexivity].
    apply find_some in Hfind as [Hin Heq].
    apply filter_In in Hin as [_ Hne]. now rewrite Heq in Hne.
  - intros [u b] Hin. cbn. apply Hfresh in Hin.
    apply Nat.eqb_neq. lia.
  - cbn. apply Nat.eqb_refl.
Qed.

Lemma speak_while_idle_leaves_recognition_alone_witness :
  let w := construct (mkOptions (Some false) None None None) sampleHost in
  let said := snd (speak "hello" w) in
  let finished := handle (UtteranceEnd (nextUtterance w)) said in
  flags said = flags w
  /\ filter isRecognitionCall (log said) = filter isRecognitionCall (log w)
  /\ flags finished = flags w
  /\ filter isRecognitionCall (log finished)
     = filter isRecognitionCall (log w)
  /\ timers finished = timers w
  /\ findUtterance (nextUtterance w) finished = None.
Proof.
  apply (speak_while_idle_leaves_recognition_alone "hello"
           (construct (mkOptions (Some false) None None None) sampleHost));
    [|reflexivity].
  intros u b [].
Defined.
(** ** What a result event hands to the parser *)

Lemma lowerChar_idem (c : ascii) :
  Str.lowerChar (Str.lowerChar c) = Str.lowerChar c.
Proof.
  destruct c as [[|] [|] [|] [|] [|] [|] [|] [|]]; reflexivity.
Qed.

Lemma isSpace_lowerChar (c : ascii) :
  Str.isSpace (Str.lowerChar c) = Str.isSpace c.
Proof.
  destruct c as [[|] [|] [|] [|] [|] [|] [|] [|]]; reflexivity.
Qed.

Lemma toLowerCase_idem (s : string) :
  Str.toLowerCase (Str.toLowerCase s) = Str.toLowerCase s.
Proof.
  induction s as [|c s IH]; cbn [Str.toLowerCase]; [reflexivity|].
  now rewrite lowerChar_idem, IH.
Qed.

Lemma trimStart_toLowerCase (s : string) :
  Str.trimStart (Str.toLowerCase s) = Str.toLowerCase (Str.trimStart s).
Proof.
  induction s as [|c s IH]; cbn [Str.toLowerCase Str.trimStart];
    [reflexivity|].
  rewrite isSpace_lowerChar. now destruct (Str.isSpace c).
Qed.

Lemma trimEnd_toLowerCase (s : string) :
  Str.trimEnd (Str.toLowerCase s) = Str.toLowerCase (Str.trimEnd s).
Proof.
  induction s as [|c s IH]; cbn [Str.toLowerCase Str.trimEnd];
    [reflexivity|].
  rewrite IH, isSpace_lowerChar.
  destruct (Str.trimEnd s) as [|d t]; cbn [Str.toLowerCase];
    [now destruct (Str.isSpace c)|reflexivity].
Qed.

Lemma trimEnd_idem (s : string) : Str.trimEnd (Str.trimEnd s) = Str.trimEnd s.
Proof.
  induction s as [|c s IH]; cbn [Str.trimEnd]; [reflexivity|].
  destruct (Str.trimEnd s) as [|d t] eqn:Ht.
  - destruct (Str.isSpace c) eqn:Hc; cbn [Str.trimEnd]; [reflexivity|].
    now rewrite Hc.
  - cbn [Str.trimEnd]. cbn [Str.trimEnd] in IH. now rewrite IH.
Qed.

(** A string that does not begin with white space. *)
Lemma trimStart_fixed (s : string) :
  match s with String c _ => Str.isSpace c = false | EmptyString => True end ->
  Str.trimStart s = s.
Proof. destruct s as [|c s]; cbn; [reflexivity|]. now intros ->. Qed.

Lemma trimStart_head (s : string) :
  match Str.trimStart s with
  | String c _ => Str.isSpace c = false
  | EmptyString => True
  end.
Proof.
  induction s as [|c s IH]; cbn [Str.trimStart]; [exact I|].
  destruct (Str.isSpace c) eqn:Hc; [exact IH | exact Hc].
Qed.

Lemma trimEnd_head (s : string) :
  match s with String c _ => Str.isSpace c = false | EmptyString => True end ->
  match Str.trimEnd s with
  | String c _ => Str.isSpace c = false
  | EmptyString => True
  end.
Proof.
  destruct s as [|c s]; cbn [Str.trimEnd]; [trivial|].
  intros Hc. destruct (Str.trimEnd s); [now rewrite Hc | exact Hc].
Qed.

Lemma trim_idem (s : string) : Str.trim (Str.trim s) = Str.trim s.
Proof.
  unfold Str.trim.
  rewrite (trimStart_fixed (Str.trimEnd (Str.trimStart s))).
  - apply trimEnd_idem.
  - apply trimEnd_head, trimStart_head.
Qed.

Lemma normalise_idem (t : string) :
  Str.trim (Str.toLowerCase (Str.trim (Str.toLowerCase t)))
  = Str.trim (Str.toLowerCase t).
Proof.
  unfold Str.trim at 2.
  rewrite <- trimEnd_toLowerCase, <- trimStart_toLowerCase, toLowerCase_idem.
  apply trim_idem.
Qed.

(** Lower-casing and trimming keep an ASCII string ASCII. *)
Lemma isAscii_lowerChar (c : ascii) :
  Nat.ltb (nat_of_ascii c) 128 = true ->
  Nat.ltb (nat_of_ascii (Str.lowerChar c)) 128 = true.
Proof. now destruct c as [[] [] [] [] [] [] [] []]. Qed.

Lemma isAscii_toLowerCase (s : string) :
  Str.isAscii s = true -> Str.isAscii (Str.toLowerCase s) = true.
Proof.
  induction s as [|c s IH]; [reflexivity|].
  cbn [Str.isAscii Str.toLowerCase]. intros H.
  apply andb_true_iff in H as [Hc Hs].
  now rewrite (isAscii_lowerChar c Hc), (IH Hs).
Qed.

Lemma isAscii_trimStart (s : string) :
  Str.isAscii s = true -> Str.isAscii (Str.trimStart s) = true.
Proof.
  induction s as [|c s IH]; [reflexivity|].
  intros H. cbn [Str.trimStart]. destruct (Str.isSpace c); [|exact H].
  cbn [Str.isAscii] in H. apply andb_true_iff in H as [_ Hs]. now apply IH.
Qed.

Lemma isAscii_trimEnd (s : string) :
  Str.isAscii s = true -> Str.isAscii (Str.trimEnd s) = true.
Proof.
  induction s as [|c s IH]; [reflexivity|].
  intros H. cbn [Str.isAscii] in H. apply andb_true_iff in H as [Hc Hs].
  specialize (IH Hs). cbn [Str.trimEnd].
  destruct (Str.trimEnd s) as [|c' s'].
  - destruct (Str.isSpace c); [reflexivity|].
    cbn [Str.isAscii]. now rewrite Hc.
  - change (Str.isAscii (String c (String c' s')))
      with (Nat.ltb (nat_of_ascii c) 128 && Str.isAscii (String c' s')).
    now rewrite Hc, IH.
Qed.

Lemma isAscii_trim (s : string) :
  Str.isAscii s = true -> Str.isAscii (Str.trim s) = true.
Proof. intros H. unfold Str.trim. now apply isAscii_trimEnd, isAscii_trimStart. Qed.

(** X14. A result event hands the parser the first alternative of its
    last result, in lower case and without surrounding white space:
    earlier results and lower-ranked alternatives are never looked at, and
    an ASCII transcript that differs from another only by the case of its
    letters or by surrounding white space is handled in exactly the same
    way.  (For a transcript with characters outside ASCII the case mapping
    and the white space of JavaScript are not those of [Str].) *)
Theorem onresult_reads_normalised_last_result
    (earlier : list (list string)) (t : string) (alternatives : list string)
    (w : World) :
  Str.isAscii t = true ->
  Str.isAscii (Str.trim (Str.toLowerCase t)) = true
  /\ onresult (Some (earlier ++ [t :: alternatives])) w
     = onresult (Some [[Str.trim (Str.toLowerCase t)]]) w.
Proof.
  intros Hascii.
  split; [now apply isAscii_trim, isAscii_toLowerCase|].
  unfold onresult. rewrite length_app. cbn [List.length].
  replace (List.length earlier + 1 - 1) with (List.length earlier) by lia.
  rewrite app_nth2, Nat.sub_diag by lia. cbn [nth List.length Nat.sub].
  replace (Nat.eqb (List.length earlier + 1) 0) with false
    by (symmetry; apply Nat.eqb_neq; lia).
  cbn [Nat.eqb orb]. now rewrite normalise_idem.
Qed.

Lemma onresult_reads_normalised_last_result_witness :
  Str.isAscii (Str.trim (Str.toLowerCase "  Open SETTINGS ")) = true
  /\ onresult (Some ([["go home"; "go hum"]]
                     ++ [["  Open SETTINGS "; "open sittings"]]))
       listeningWorld
     = onresult (Some [[Str.trim (Str.toLowerCase "  Open SETTINGS ")]])
         listeningWorld.
Proof.
  exact (onresult_reads_normalised_last_result [["go home"; "go hum"]]
           "  Open SETTINGS " ["open sittings"] listeningWorld eq_refl).
Defined.

(** ** The language of the recogniser *)

Lemma langSide_clearRestartTimer (w : World) :
  langSide (clearRestartTimer w) = langSide w.
Proof. now destruct (clearRestartTimer_frame w) as (ts & lg & ->). Qed.

Lemma langSide_arm (callback : TimerCallback) (delay : spec_float)
    (w : World) :
  langSide (arm callback delay w) = langSide w.
Proof. unfold arm. cbn. apply langSide_clearRestartTimer. Qed.

Lemma langSide_onerror (error : string) (w : World) :
  langSide (onerror error w) = langSide w.
Proof.
  unfold onerror, nextRandom.
  repeat (destruct (_ =? _)%string; cbn [orb]; [reflexivity|]).
  now rewrite langSide_arm.
Qed.

Lemma langSide_startListening (w : World) :
  langSide (startListening w) = langSide w.
Proof.
  unfold startListening.
  pose proof (langSide_clearRestartTimer w) as Hc.
  destruct (recognition _ && negb _); [|exact Hc].
  destruct (recognitionStarted _); [|exact Hc].
  destruct (negb _); [|exact Hc].
  now rewrite langSide_onerror.
Qed.

Lemma langSide_onend (w : World) : langSide (onend w) = langSide w.
Proof.
  unfold onend.
  destruct (_ || _); [reflexivity|].
  destruct (autoStart _); [|reflexivity].
  now rewrite langSide_arm.
Qed.

Lemma langSide_speak (text : string) (w : World) :
  langSide (snd (speak text w)) = langSide w.
Proof.
  unfold speak. destruct (_ || _); [reflexivity|].
  destruct (_ && _); [|reflexivity].
  cbn [snd]. now destruct (recognition _).
Qed.

Lemma langSide_deliverTerminal (u : nat) (w : World) :
  langSide (deliverTerminal u w) = langSide w.
Proof.
  unfold deliverTerminal, utteranceTerminal.
  destruct (findUtterance u w) as [[|]|]; try reflexivity. cbv zeta.
  change (langSide (startListening
                      (clearRestartTimer
                         (set_isSpeaking false
                            (set_currentUtterance None
                               (set_utterances
                                  (filter (fun p => negb (Nat.eqb (fst p) u))
                                     (utterances w)) w)))))
          = langSide w).
  now rewrite langSide_startListening, langSide_clearRestartTimer.
Qed.

Lemma langSide_fields (w w' : World) :
  langSide w' = langSide w ->
  recognition w' = recognition w /\ language w' = language w
  /\ recognitionLang w' = recognitionLang w.
Proof. unfold langSide. intros [= -> -> ->]. now repeat split. Qed.

Lemma langSide_handle (e : Event) (w : World) :
  (forall newConfig, e <> CallUpdateConfig newConfig) ->
  langSide (handle e w) = langSide w.
Proof.
  intros He. destruct e; cbn [handle].
  - apply langSide_startListening.
  - unfold stopListening. cbv zeta.
    rewrite <- (langSide_clearRestartTimer w).
    now destruct (recognition (clearRestartTimer w)).
  - apply langSide_speak.
  - unfold stopSpeaking. now destruct (speechSynthesis w).
  - now destruct (He newConfig).
  - unfold destroy. cbv zeta.
    rewrite <- (langSide_clearRestartTimer w).
    now destruct (recognition (set_autoStart false (clearRestartTimer w)));
      destruct (speechSynthesis _).
  - now destruct (recognition w).
  - destruct (recognition w); [|reflexivity].
    now rewrite langSide_onend.
  - destruct (recognition w); [|reflexivity].
    apply (onresult_preserves (fun w' => langSide w' = langSide w)).
    + now intros a w0 _ H0.
    + intros text w0 H0. now rewrite langSide_speak.
    + now intros k w0 H0.
    + reflexivity.
  - destruct (recognition w); [|reflexivity].
    apply langSide_onerror.
  - apply langSide_deliverTerminal.
  - apply langSide_deliverTerminal.
  - unfold fireTimer. destruct (find _ (timers w)) as [t|]; [|reflexivity].
    destruct (timerCallback t); now rewrite langSide_startListening.
Qed.

Lemma inSync_handle (e : Event) (w : World) :
  languageInSync w -> languageInSync (handle e w).
Proof.
  intros Hw.
  assert (Hframe : forall w', langSide w' = langSide w -> languageInSync w').
  { unfold langSide, languageInSync. intros w' [= -> -> ->]. exact Hw. }
  destruct e;
    try (apply Hframe, langSide_handle; intros c; discriminate).
  cbn [handle]. unfold updateConfig. cbv zeta.
  match goal with
  | |- context [if ?c then _ else _] => destruct c eqn:Hrec
  end.
  - intros _. reflexivity.
  - unfold languageInSync. intros Hrec'.
    change (recognition w = true) in Hrec'.
    change (recognition w = false) in Hrec. congruence.
Qed.

Lemma inSync_construct (options : VoiceControllerOptions) (host : Host) :
  languageInSync (construct options host)
  /\ recognition (construct options host) = hasSpeechRecognition host.
Proof.
  unfold construct, setupVoiceRecognition.
  destruct (hasSpeechRecognition host); cbn [negb andb].
  - match goal with
    | |- context [if ?c then _ else _] => destruct c
    end.
    + match goal with
      | |- languageInSync (startListening ?x) /\ _ =>
          pose proof (langSide_startListening x) as Hl
      end.
      apply langSide_fields in Hl as (H1 & H2 & H3).
      split; [|exact H1].
      unfold languageInSync. intros _. now rewrite H2, H3.
    + split; [|reflexivity]. intros _. reflexivity.
  - split; [|reflexivity]. intros H. discriminate H.
Qed.

(** X15. The recogniser follows the configuration.  Whatever is called
    and delivered, a controller has a recognition session exactly when
    the host offered one at construction, and the session's language is
    the configured language: the constructor sets it, [updateConfig]
    sets it again after every change, and nothing else writes either. *)
Theorem recogniser_language_follows_configuration
    (options : VoiceControllerOptions) (host : Host) (events : list Event) :
  let w := run events (construct options host) in
  recognition w = hasSpeechRecognition host
  /\ languageInSync w.
Proof.
  cbv zeta. destruct (inSync_construct options host) as [Hs Hr].
  revert Hs Hr. generalize (construct options host).
  induction events as [|e events IH]; intros w Hs Hr; [now split|].
  cbn [run fold_left]. apply IH; [now apply inSync_handle|].
  rewrite <- Hr.
  destruct e;
    try (apply (langSide_fields w), langSide_handle; intros c; discriminate).
  cbn [handle]. unfold updateConfig. cbv zeta.
  match goal with
  | |- context [if ?c then _ else _] => destruct c
  end; reflexivity.
Qed.
(** ** What the parser says *)

Lemma spoken_emit (a : Action) (w : World) :
  spoken (emit a w)
  = spoken w ++ match a with SynthSpeak _ text => [text] | _ => [] end.
Proof. unfold spoken, emit. cbn. rewrite flat_map_app. cbn. now rewrite app_nil_r. Qed.

Lemma spoken_speak (text : string) (w : World) :
  spoken (snd (speak text w))
  = spoken w
    ++ (if speechSynthesis w && provideFeedback w && Str.truthy text
        then [text] else []).
Proof.
  unfold speak.
  destruct (speechSynthesis w), (provideFeedback w), (Str.truthy text);
    cbn [negb orb andb snd]; try (now rewrite app_nil_r).
  rewrite spoken_emit.
  destruct (isListening w && autoStart w); [destruct (recognition _)|];
    unfold spoken; cbn; rewrite ?flat_map_app; cbn; now rewrite ?app_nil_r.
Qed.

(** X16. With spoken feedback switched off a command is carried out in
    silence: whatever the transcript, the parser speaks nothing, creates
    no utterance and leaves the speaking flag alone. *)
Theorem commands_are_silent_without_feedback (command : string) (w : World) :
  provideFeedback w = false ->
  spoken (processVoiceCommand command w) = spoken w
  /\ speechState (processVoiceCommand command w) = speechState w.
Proof.
  intros Hoff.
  apply (processVoiceCommand_preserves
           (fun w' => provideFeedback w' = false
                      /\ spoken w' = spoken w
                      /\ speechState w' = speechState w)).
  - intros a w0 Ha (H1 & H2 & H3). split; [exact H1|]. split; [|exact H3].
    rewrite spoken_emit, H2. destruct a; try discriminate Ha;
      apply app_nil_r.
  - intros text w0 (H1 & H2 & H3). unfold speak.
    rewrite H1. cbn [negb orb]. rewrite orb_true_r. cbn [snd orb].
    now repeat split.
  - now repeat split.
Qed.

Lemma commands_are_silent_without_feedback_witness :
  let w := handle (CallUpdateConfig (mkOptions None None (Some false) None))
             listeningWorld in
  spoken (processVoiceCommand "open navigation" w) = spoken w
  /\ speechState (processVoiceCommand "open navigation" w) = speechState w.
Proof.
  exact (commands_are_silent_without_feedback "open navigation"
           (handle (CallUpdateConfig (mkOptions None None (Some false) None))
              listeningWorld) eq_refl).
Defined.

Lemma spoken_confirm (text : string) (a : Action) (w : World) :
  speechSynthesis w = true -> provideFeedback w = true ->
  Str.truthy text = true -> isParserAction a = true ->
  spoken (speakIfFeedback text (emit a w)) = spoken w ++ [text].
Proof.
  intros Hs Hf Ht Ha. unfold speakIfFeedback.
  change (provideFeedback (emit a w)) with (provideFeedback w).
  rewrite Hf, spoken_speak.
  change (speechSynthesis (emit a w)) with (speechSynthesis w).
  change (provideFeedback (emit a w)) with (provideFeedback w).
  rewrite Hs, Hf, Ht, spoken_emit. cbn [andb].
  destruct a; try discriminate Ha; now rewrite app_nil_r.
Qed.

Lemma intents_last_inv (l : list Action) (a b : Action) :
  l ++ [a] = l ++ [b] -> a = b.
Proof. intros H. apply app_inv_head in H. now injection H. Qed.

(** The battery branch of the parser. *)
Lemma battery_dispatch (command : string) (w : World) :
  speechSynthesis w = true -> provideFeedback w = true ->
  intents (processVoiceCommand command w) = intents w ++ [CheckBattery] ->
  spoken (processVoiceCommand command w)
  = spoken w
    ++ (if Str.truthy (onCheckBattery w) then [onCheckBattery w] else []).
Proof.
  intros Hs Hf. unfold processVoiceCommand.
  destruct (someIncluded Commands.close command).
  { rewrite intents_speakIfFeedback, intents_emit, intents_stopSpeaking.
    intros H. apply intents_last_inv in H. discriminate H. }
  repeat (destruct (someIncluded _ command);
          [rewrite intents_speakIfFeedback, intents_emit;
           intros H; apply intents_last_inv in H; discriminate H|]).
  pose proof (toggleLoop_refines command w) as Htoggle.
  destruct (toggleLoop toggleableSettings command w) as [w'|].
  { destruct Htoggle as (s & v & _ & ->).
    intros H. apply intents_last_inv in H. discriminate H. }
  destruct (Str.includes command "battery").
  - intros _. cbv zeta.
    change (onCheckBattery (emit CheckBattery w)) with (onCheckBattery w).
    change (provideFeedback (emit CheckBattery w)) with (provideFeedback w).
    rewrite Hf, andb_true_r.
    destruct (Str.truthy (onCheckBattery w)) eqn:Ht.
    + rewrite spoken_speak.
      change (speechSynthesis (emit CheckBattery w))
        with (speechSynthesis w).
      change (provideFeedback (emit CheckBattery w))
        with (provideFeedback w).
      rewrite Hs, Hf, Ht, spoken_emit. cbn [andb]. now rewrite app_nil_r.
    + rewrite spoken_emit. reflexivity.
  - intros H. exfalso.
    apply (f_equal (@List.length Action)) in H.
    rewrite length_app in H. cbn in H. lia.
Qed.

(** X17. With spoken feedback on, every callback the parser invokes is
    confirmed by exactly one utterance with a text of its own, except the
    battery check, for which the parser speaks what the callback
    returned, and nothing when that is empty. *)
Theorem dispatched_command_is_confirmed (command : string) (a : Action)
    (w : World) :
  speechSynthesis w = true -> provideFeedback w = true ->
  intents (processVoiceCommand command w) = intents w ++ [a] ->
  if match a with CheckBattery => true | _ => false end
  then spoken (processVoiceCommand command w)
       = spoken w
         ++ (if Str.truthy (onCheckBattery w) then [onCheckBattery w] else [])
  else exists text,
         Str.truthy text = true
         /\ spoken (processVoiceCommand command w) = spoken w ++ [text].
Proof.
  intros Hs Hf. unfold processVoiceCommand.
  destruct (someIncluded Commands.close command).
  { rewrite intents_speakIfFeedback, intents_emit, intents_stopSpeaking.
    intros H. apply intents_last_inv in H. subst a.
    eexists. split; [|unfold stopSpeaking; rewrite Hs].
    2:{ rewrite (spoken_confirm _ ModeClose (emit SynthCancel w));
          [|exact Hs|exact Hf|reflexivity|reflexivity].
        rewrite spoken_emit. now rewrite app_nil_r. }
    reflexivity. }
  repeat (destruct (someIncluded _ command);
          [rewrite intents_speakIfFeedback, intents_emit;
           intros H; apply intents_last_inv in H; subst a;
           eexists; split;
           [|apply spoken_confirm; [exact Hs|exact Hf|reflexivity|reflexivity]];
           reflexivity|]).
  destruct (toggleLoop toggleableSettings command w) as [w'|] eqn:Hloop.
  { revert Hloop. unfold toggleableSettings.
    cbn [toggleLoop settingKeywords settingName].
    repeat match goal with
           | |- context [if Str.testWords ?k command then _ else _] =>
               destruct (Str.testWords k command)
           end;
      try discriminate;
      intros [= <-]; rewrite intents_speakIfFeedback, intents_emit;
      intros H; apply intents_last_inv in H; subst a;
      (eexists; split;
       [|apply spoken_confirm; [exact Hs|exact Hf|reflexivity|reflexivity]];
       reflexivity). }
  destruct (Str.includes command "battery").
  - cbv zeta.
    change (onCheckBattery (emit CheckBattery w)) with (onCheckBattery w).
    change (provideFeedback (emit CheckBattery w)) with (provideFeedback w).
    rewrite Hf, andb_true_r.
    destruct (Str.truthy (onCheckBattery w)) eqn:Ht.
    + rewrite intents_speak, intents_emit.
      intros H. apply intents_last_inv in H. subst a.
      rewrite spoken_speak.
      change (speechSynthesis (emit CheckBattery w))
        with (speechSynthesis w).
      change (provideFeedback (emit CheckBattery w))
        with (provideFeedback w).
      rewrite Hs, Hf, Ht, spoken_emit. cbn [andb]. now rewrite app_nil_r.
    + rewrite intents_emit.
      intros H. apply intents_last_inv in H. subst a.
      rewrite spoken_emit. reflexivity.
  - intros H. exfalso.
    apply (f_equal (@List.length Action)) in H.
    rewrite length_app in H. cbn in H. lia.
Qed.

Lemma dispatched_command_is_confirmed_witness :
  exists text,
    Str.truthy text = true
    /\ spoken (processVoiceCommand "turn vibration off" listeningWorld)
       = spoken listeningWorld ++ [text].
Proof.
  exact (dispatched_command_is_confirmed "turn vibration off"
           (ToggleSetting Haptic false) listeningWorld
           eq_refl eq_refl eq_refl).
Defined.
(** ** The battery report *)

Lemma getStatusString_truthy (s : BatteryService.Service) :
  Str.truthy (BatteryService.getStatusString s) = true.
Proof.
  unfold BatteryService.getStatusString.
  destruct (negb _); [reflexivity|].
  destruct (BatteryService.level _); reflexivity.
Qed.

(** X18. The battery service always has something to say: its status
    string is never empty.  So with the callback the application
    installs, which returns that string, a battery command on a
    controller with spoken feedback is always answered by speaking the
    status. *)
Theorem battery_command_speaks_the_status (s : BatteryService.Service)
    (command : string) (w : World) :
  onCheckBattery w = BatteryService.getStatusString s ->
  speechSynthesis w = true -> provideFeedback w = true ->
  intents (processVoiceCommand command w) = intents w ++ [CheckBattery] ->
  BatteryService.getStatusString s <> ""
  /\ spoken (processVoiceCommand command w)
     = spoken w ++ [BatteryService.getStatusString s].
Proof.
  intros Hcb Hs Hf Hi.
  pose proof (getStatusString_truthy s) as Ht.
  split; [intros E; rewrite E in Ht; discriminate|].
  pose proof (battery_dispatch command w Hs Hf Hi) as H.
  now rewrite Hcb, Ht in H.
Qed.

Lemma battery_command_speaks_the_status_witness :
  let s := BatteryService.updateBatteryStatus 80 true
             (BatteryService.mkService
                (BatteryService.mkState true None None) [] []) in
  let w := handle RecStart
             (construct
                (mkOptions (Some true) None (Some true)
                   (Some (BatteryService.getStatusString s)))
                sampleHost) in
  BatteryService.getStatusString s <> ""
  /\ spoken (processVoiceCommand "how is the battery" w)
     = spoken w ++ ["Battery is at 80 percent and charging."].
Proof.
  exact (battery_command_speaks_the_status
           (BatteryService.updateBatteryStatus 80 true
              (BatteryService.mkService
                 (BatteryService.mkState true None None) [] []))
           "how is the battery"
           (handle RecStart
              (construct
                 (mkOptions (Some true) None (Some true)
                    (Some (BatteryService.getStatusString
                             (BatteryService.updateBatteryStatus 80 true
                                (BatteryService.mkService
                                   (BatteryService.mkState true None None)
                                   [] [])))))
                 sampleHost))
           eq_refl eq_refl eq_refl eq_refl).
Defined.

(** X19. [unsubscribe] removes every registration of a listener: from
    then on no notification reaches it, however often it had subscribed,
    while every other listener is notified as before. *)
Theorem unsubscribe_silences_the_listener (listener : nat)
    (s : BatteryService.Service) :
  let s' := BatteryService.notifyListeners
              (BatteryService.unsubscribe listener s) in
  BatteryService.callsOf listener s' = BatteryService.callsOf listener s
  /\ forall other,
       other <> listener ->
       BatteryService.callsOf other s'
       = BatteryService.callsOf other (BatteryService.notifyListeners s).
Proof.
  cbv zeta. unfold BatteryService.callsOf, BatteryService.notifyListeners,
    BatteryService.unsubscribe. cbn.
  split; [|intros other Hne]; rewrite !filter_app, !map_app; f_equal.
  - rewrite <- (app_nil_r (map snd (filter _ (BatteryService.calls s))))
      at 2.
    f_equal.
    induction (BatteryService.listeners s) as [|l ls IH]; [reflexivity|].
    cbn. destruct (Nat.eqb_spec l listener) as [->|Hl]; cbn; [exact IH|].
    destruct (Nat.eqb_spec l listener); [contradiction|exact IH].
  - induction (BatteryService.listeners s) as [|l ls IH]; [reflexivity|].
    cbn. destruct (Nat.eqb_spec l listener) as [->|Hl]; cbn.
    + destruct (Nat.eqb_spec listener other) as [E|_];
        [now destruct Hne|exact IH].
    + destruct (Nat.eqb l other); cbn; now rewrite IH.
Qed.
(** X20. A component that subscribes when it mounts and unsubscribes when
    it unmounts leaves the service as it found it: [subscribe] hands the
    listener the current state at once and nothing else, and
    [unsubscribe] restores the list of listeners, also when the listener
    had subscribed twice. *)
Theorem subscribe_then_unsubscribe_restores (listener : nat)
    (s : BatteryService.Service) :
  ~ In listener (BatteryService.listeners s) ->
  let mounted := BatteryService.subscribe listener s in
  BatteryService.callsOf listener mounted
  = BatteryService.callsOf listener s ++ [BatteryService.state s]
  /\ (forall other, other <> listener ->
       BatteryService.callsOf other mounted = BatteryService.callsOf other s)
  /\ BatteryService.listeners (BatteryService.unsubscribe listener mounted)
     = BatteryService.listeners s
  /\ BatteryService.listeners
       (BatteryService.unsubscribe listener
          (BatteryService.subscribe listener mounted))
     = BatteryService.listeners s.
Proof.
  intros Hnew. cbv zeta.
  assert (Hkeep : filter (fun l => negb (Nat.eqb l listener))
                    (BatteryService.listeners s)
                  = BatteryService.listeners s).
  { induction (BatteryService.listeners s) as [|l ls IH]; [reflexivity|].
    cbn. destruct (Nat.eqb_spec l listener) as [->|Hl].
    - destruct Hnew. now left.
    - cbn. f_equal. apply IH. intros Hin. apply Hnew. now right. }
  unfold BatteryService.callsOf, BatteryService.subscribe,
    BatteryService.unsubscribe. cbn.
  rewrite !filter_app. cbn. rewrite Nat.eqb_refl. cbn.
  rewrite !app_nil_r, map_app, Hkeep. cbn.
  split; [reflexivity|]. split; [|now split].
  intros other Hne. rewrite filter_app. cbn.
  destruct (Nat.eqb_spec listener other) as [E|_];
    [now destruct Hne|]. now rewrite app_nil_r.
Qed.

Lemma subscribe_then_unsubscribe_restores_witness :
  let s := BatteryService.mkService
             (BatteryService.mkState true (Some 55) (Some false)) [1; 2] [] in
  let mounted := BatteryService.subscribe 3 s in
  BatteryService.callsOf 3 mounted
  = BatteryService.callsOf 3 s ++ [BatteryService.state s]
  /\ (forall other, other <> 3 ->
       BatteryService.callsOf other mounted = BatteryService.callsOf other s)
  /\ BatteryService.listeners (BatteryService.unsubscribe 3 mounted)
     = BatteryService.listeners s
  /\ BatteryService.listeners
       (BatteryService.unsubscribe 3 (BatteryService.subscribe 3 mounted))
     = BatteryService.listeners s.
Proof.
  apply (subscribe_then_unsubscribe_restores 3
           (BatteryService.mkService
              (BatteryService.mkState true (Some 55) (Some false))
              [1; 2] [])).
  cbn. intros [H|[H|[]]]; discriminate H.
Defined.

(** ** Announcements of the navigation screen *)

Lemma last_cons_default {A : Type} (x d : A) (l : list A) :
  last (x :: l) d = last l x.
Proof.
  revert x d. induction l as [|y l IH]; intros x d; [reflexivity|].
  change (last (x :: y :: l) d) with (last (y :: l) d).
  now rewrite !IH.
Qed.

Lemma noRepeat_snoc (prev text : string) (texts : list string) :
  NavigationMode.noRepeat prev texts ->
  text <> last texts prev ->
  NavigationMode.noRepeat prev (texts ++ [text]).
Proof.
  revert prev. induction texts as [|t texts IH]; intros prev Hno Hne.
  - cbn. now split.
  - destruct Hno as [Ht Hno]. cbn [app NavigationMode.noRepeat].
    split; [exact Ht|]. apply IH; [exact Hno|].
    now rewrite <- last_cons_default with (d := prev).
Qed.

Lemma resume_one (u u' : nat) (text ref : string) :
  NavigationScreen.resume u [(u', text)] ref
  = if Nat.eqb u' u then (text, []) else (ref, [(u', text)]).
Proof. cbn. now destruct (Nat.eqb u' u). Qed.

Lemma announcing_frame (haptic : bool)
    (result : NavigationMode.NavigationAnalysis)
    (s : NavigationScreen.Screen) :
  NavigationScreen.awaiting s = [] ->
  announcing s ->
  announcing (NavigationScreen.processAndAnnounce haptic result s).
Proof.
  intros Hnone [Hno Hlast]. rewrite Hnone in Hlast.
  unfold NavigationScreen.processAndAnnounce. cbv zeta.
  destruct (String.eqb_spec (NavigationMode.instruction result)
              (NavigationScreen.lastAnnouncementRef s)) as [Heq|Hne];
    cbn [negb].
  - split; [exact Hno|]. cbn. now rewrite Hnone.
  - assert (Hno' : NavigationMode.noRepeat ""
                     (NavigationScreen.handed s
                      ++ [NavigationMode.instruction result]))
      by (apply noRepeat_snoc; [exact Hno | now rewrite <- Hlast]).
    destruct (speak (NavigationMode.instruction result)
                (NavigationScreen.voice s)) as [[|u] w'].
    + split; [exact Hno'|]. cbn. now rewrite Hnone, last_last.
    + split; [exact Hno'|]. cbn. now rewrite Hnone, last_last.
Qed.

Lemma announcing_voice (e : Event) (s : NavigationScreen.Screen) :
  announcing s ->
  announcing (NavigationScreen.step s (NavigationMode.Voice e)).
Proof.
  intros [Hno Hlast]. cbn [NavigationScreen.step]. cbv zeta.
  destruct (NavigationScreen.resolves e (NavigationScreen.voice s))
    as [u|]; [|split; [exact Hno|exact Hlast]].
  destruct (NavigationScreen.awaiting s) as [|[u' text] [|call rest]].
  - split; [exact Hno|exact Hlast].
  - rewrite resume_one. destruct (Nat.eqb u' u).
    + split; [exact Hno|exact Hlast].
    + split; [exact Hno|exact Hlast].
  - destruct Hlast.
Qed.

Lemma announcing_steps (steps : list NavigationMode.Step)
    (s : NavigationScreen.Screen) :
  NavigationScreen.oneLoop steps s = true ->
  announcing s ->
  announcing (fold_left NavigationScreen.step steps s).
Proof.
  revert s. induction steps as [|st steps IH]; intros s Hloop Hs;
    [exact Hs|].
  cbn [fold_left]. cbn [NavigationScreen.oneLoop] in Hloop.
  destruct st as [haptic result|e].
  - destruct (NavigationScreen.awaiting s) eqn:Hnone; [|discriminate].
    apply (IH _ Hloop). cbn [NavigationScreen.step].
    now apply announcing_frame.
  - apply IH; [now destruct (NavigationScreen.awaiting s)|].
    now apply announcing_voice.
Qed.

(** X21. With one detection loop the navigation screen never announces
    the same instruction twice in a row.  The loop awaits every call of
    [processAndAnnounce], so a frame is processed only when no earlier
    call is suspended at [await speak(...)].  Then, whatever frames are
    analysed and whatever happens to the voice controller in between, no
    text handed to [speak] equals the one handed to it before and the
    first one is not empty; when no call is suspended the reference holds
    the last text handed over, and otherwise the one suspended call is
    the one that handed it over. *)
Theorem announcements_never_repeat (w : World)
    (steps : list NavigationMode.Step) :
  NavigationScreen.oneLoop steps (NavigationScreen.mount w) = true ->
  let s := fold_left NavigationScreen.step steps
             (NavigationScreen.mount w) in
  NavigationMode.noRepeat "" (NavigationScreen.handed s)
  /\ (NavigationScreen.awaiting s = [] ->
      NavigationScreen.lastAnnouncementRef s
      = last (NavigationScreen.handed s) "")
  /\ (forall u text,
        In (u, text) (NavigationScreen.awaiting s) ->
        NavigationScreen.awaiting s = [(u, text)]
        /\ text = last (NavigationScreen.handed s) "").
Proof.
  intros Hloop. cbv zeta.
  assert (H0 : announcing (NavigationScreen.mount w)) by now split.
  destruct (announcing_steps steps _ Hloop H0) as [Hno Hlast].
  split; [exact Hno|].
  destruct (NavigationScreen.awaiting _) as [|[u' text'] [|call rest]].
  - split; [intros _; exact Hlast | intros u text []].
  - split; [discriminate|].
    intros u text [[= <- <-]|[]]. now split.
  - destruct Hlast.
Qed.

Lemma announcements_never_repeat_witness :
  let left := NavigationMode.mkAnalysis "Step left" ["chair"]
                NavigationMode.High in
  let ahead := NavigationMode.mkAnalysis "Path clear" []
                 NavigationMode.Low in
  let steps :=
    [NavigationMode.Frame true left;
     NavigationMode.Voice RecEnd;
     NavigationMode.Voice (UtteranceEnd 0);
     NavigationMode.Frame true left;
     NavigationMode.Frame true ahead] in
  let s := fold_left NavigationScreen.step steps
             (NavigationScreen.mount listeningWorld) in
  NavigationScreen.handed s = ["Step left"; "Path clear"]
  /\ NavigationScreen.awaiting s = [(1, "Path clear")]
  /\ NavigationMode.noRepeat "" (NavigationScreen.handed s)
  /\ (forall u text,
        In (u, text) (NavigationScreen.awaiting s) ->
        NavigationScreen.awaiting s = [(u, text)]
        /\ text = last (NavigationScreen.handed s) "").
Proof.
  cbv zeta.
  destruct (announcements_never_repeat listeningWorld
              [NavigationMode.Frame true
                 (NavigationMode.mkAnalysis "Step left" ["chair"]
                    NavigationMode.High);
               NavigationMode.Voice RecEnd;
               NavigationMode.Voice (UtteranceEnd 0);
               NavigationMode.Frame true
                 (NavigationMode.mkAnalysis "Step left" ["chair"]
                    NavigationMode.High);
               NavigationMode.Frame true
                 (NavigationMode.mkAnalysis "Path clear" []
                    NavigationMode.Low)]
              eq_refl) as (H1 & _ & H3).
  split; [vm_compute; reflexivity|].
  split; [vm_compute; reflexivity|].
  split; [exact H1 | exact H3].
Defined.

Lemma voice_steps (events : list Event) (n : NavigationMode.Navigation) :
  let n' := fold_left NavigationMode.step
              (map NavigationMode.Voice events) n in
  NavigationMode.lastAnnouncement n' = NavigationMode.lastAnnouncement n
  /\ NavigationMode.announced n' = NavigationMode.announced n
  /\ NavigationMode.voice n' = run events (NavigationMode.voice n).
Proof.
  revert n. induction events as [|e events IH]; intros n; [now repeat split|].
  cbn [map fold_left].
  destruct (IH (NavigationMode.step n (NavigationMode.Voice e)))
    as (H1 & H2 & H3).
  cbv zeta. rewrite H1, H2, H3. now repeat split.
Qed.

(** X22. An instruction that arrives while spoken feedback is off is
    lost.  The screen hands it to [speak], which says nothing, and
    records it as announced; when the same instruction comes again, also
    after feedback has been switched on, it is not handed to [speak]
    again. *)
Theorem instruction_is_lost_while_feedback_is_off (haptic haptic' : bool)
    (result : NavigationMode.NavigationAnalysis) (events : list Event)
    (n : NavigationMode.Navigation) :
  provideFeedback (NavigationMode.voice n) = false ->
  NavigationMode.instruction result <> NavigationMode.lastAnnouncement n ->
  let first := NavigationMode.processAndAnnounce haptic result n in
  let later := fold_left NavigationMode.step
                 (map NavigationMode.Voice events) first in
  let again := NavigationMode.processAndAnnounce haptic' result later in
  NavigationMode.announced first
  = NavigationMode.announced n ++ [NavigationMode.instruction result]
  /\ spoken (NavigationMode.voice first) = spoken (NavigationMode.voice n)
  /\ NavigationMode.announced again = NavigationMode.announced first
  /\ NavigationMode.voice again = run events (NavigationMode.voice first).
Proof.
  intros Hoff Hne. cbv zeta.
  destruct (voice_steps events
              (NavigationMode.processAndAnnounce haptic result n))
    as (H1 & H2 & H3).
  remember (fold_left NavigationMode.step (map NavigationMode.Voice events)
              (NavigationMode.processAndAnnounce haptic result n))
    as later eqn:Hl. clear Hl.
  assert (Hfirst : NavigationMode.lastAnnouncement
                     (NavigationMode.processAndAnnounce haptic result n)
                   = NavigationMode.instruction result
                   /\ NavigationMode.announced
                        (NavigationMode.processAndAnnounce haptic result n)
                      = NavigationMode.announced n
                        ++ [NavigationMode.instruction result]
                   /\ spoken (NavigationMode.voice
                                (NavigationMode.processAndAnnounce haptic
                                   result n))
                      = spoken (NavigationMode.voice n)).
  { unfold NavigationMode.processAndAnnounce.
    destruct (String.eqb_spec (NavigationMode.instruction result)
                (NavigationMode.lastAnnouncement n)) as [Heq|_];
      [contradiction|].
    cbn. split; [reflexivity|]. split; [reflexivity|].
    rewrite spoken_speak, Hoff, andb_false_r. cbn. apply app_nil_r. }
  destruct Hfirst as (F1 & F2 & F3).
  split; [exact F2|]. split; [exact F3|].
  unfold NavigationMode.processAndAnnounce at 1 3.
  rewrite H1, F1, String.eqb_refl. cbn [negb].
  cbn. split; [exact H2 | exact H3].
Qed.

Lemma instruction_is_lost_while_feedback_is_off_witness :
  let result := NavigationMode.mkAnalysis "Step left" ["chair"]
                  NavigationMode.High in
  let n := NavigationMode.mount
             (construct (mkOptions None None (Some false) None)
                sampleHost) in
  let events := [CallUpdateConfig (mkOptions None None (Some true) None)] in
  let first := NavigationMode.processAndAnnounce true result n in
  let later := fold_left NavigationMode.step
                 (map NavigationMode.Voice events) first in
  let again := NavigationMode.processAndAnnounce true result later in
  NavigationMode.announced first
  = NavigationMode.announced n ++ [NavigationMode.instruction result]
  /\ spoken (NavigationMode.voice first) = spoken (NavigationMode.voice n)
  /\ NavigationMode.announced again = NavigationMode.announced first
  /\ NavigationMode.voice again = run events (NavigationMode.voice first).
Proof.
  apply (instruction_is_lost_while_feedback_is_off true true
           (NavigationMode.mkAnalysis "Step left" ["chair"]
              NavigationMode.High)
           [CallUpdateConfig (mkOptions None None (Some true) None)]
           (NavigationMode.mount
              (construct (mkOptions None None (Some false) None)
                 sampleHost))).
  - reflexivity.
  - discriminate.
Defined.

Lemma agree_step (st : NavigationMode.Step) (s : NavigationScreen.Screen)
    (n : NavigationMode.Navigation) :
  match st, NavigationScreen.awaiting s with
  | NavigationMode.Frame _ _, _ :: _ => False
  | _, _ => True
  end ->
  agree s n ->
  agree (NavigationScreen.step s st) (NavigationMode.step n st).
Proof.
  intros Hloop (Hh & Hv & Hw & Href).
  destruct st as [haptic result|e].
  - destruct (NavigationScreen.awaiting s) eqn:Hnone; [|destruct Hloop].
    cbn [NavigationScreen.step NavigationMode.step].
    unfold NavigationScreen.processAndAnnounce,
      NavigationMode.processAndAnnounce. cbv zeta.
    rewrite Hnone, <- Href, <- Hh, <- Hv, <- Hw.
    destruct (negb (NavigationMode.instruction result
                    =? NavigationScreen.lastAnnouncementRef s)%string).
    + destruct (speak (NavigationMode.instruction result)
                  (NavigationScreen.voice s)) as [[|u] w'];
        repeat split.
    + repeat split; cbn; now rewrite ?Hnone.
  - cbn [NavigationScreen.step NavigationMode.step]. cbv zeta.
    assert (Hrest : agree
                      (NavigationScreen.mkScreen
                         (NavigationScreen.lastAnnouncementRef s)
                         (NavigationScreen.vibrations s)
                         (NavigationScreen.handed s)
                         (NavigationScreen.awaiting s)
                         (handle e (NavigationScreen.voice s)))
                      (NavigationMode.mkNavigation
                         (NavigationMode.lastAnnouncement n)
                         (NavigationMode.vibrations n)
                         (NavigationMode.announced n)
                         (handle e (NavigationMode.voice n)))).
    { repeat split; cbn; try assumption. now rewrite Hw. }
    destruct (NavigationScreen.resolves e (NavigationScreen.voice s))
      as [u|]; [|exact Hrest].
    destruct (NavigationScreen.awaiting s) as [|[u' text] [|call rest]].
    + exact Hrest.
    + rewrite resume_one. destruct (Nat.eqb u' u); [|exact Hrest].
      repeat split; cbn; try assumption. now rewrite Hw.
    + destruct Href.
Qed.

Lemma agree_steps (steps : list NavigationMode.Step)
    (s : NavigationScreen.Screen) (n : NavigationMode.Navigation) :
  NavigationScreen.oneLoop steps s = true ->
  agree s n ->
  agree (fold_left NavigationScreen.step steps s)
    (fold_left NavigationMode.step steps n).
Proof.
  revert s n. induction steps as [|st steps IH]; intros s n Hloop Hsn;
    [exact Hsn|].
  cbn [fold_left]. cbn [NavigationScreen.oneLoop] in Hloop.
  apply IH.
  - destruct st; [|now destruct (NavigationScreen.awaiting s)].
    now destruct (NavigationScreen.awaiting s).
  - apply agree_step; [|exact Hsn].
    destruct st; [|now destruct (NavigationScreen.awaiting s)].
    now destruct (NavigationScreen.awaiting s).
Qed.

(** X27. With one detection loop a call of [processAndAnnounce] and its
    continuation after [await speak(...)] behave as one step: over any
    frames and events in which no frame is processed while a call is
    suspended, the screen hands the same texts to [speak], vibrates in
    the same way and leaves the voice controller in the same state as
    when the reference is written together with the call, and the
    reference is the same whenever no call is suspended; a suspended call
    is about to write what the one-step description already holds. *)
Theorem one_loop_announces_in_one_step (w : World)
    (steps : list NavigationMode.Step) :
  NavigationScreen.oneLoop steps (NavigationScreen.mount w) = true ->
  let s := fold_left NavigationScreen.step steps
             (NavigationScreen.mount w) in
  let n := fold_left NavigationMode.step steps (NavigationMode.mount w) in
  NavigationScreen.handed s = NavigationMode.announced n
  /\ NavigationScreen.vibrations s = NavigationMode.vibrations n
  /\ NavigationScreen.voice s = NavigationMode.voice n
  /\ (NavigationScreen.awaiting s = [] ->
      NavigationScreen.lastAnnouncementRef s
      = NavigationMode.lastAnnouncement n)
  /\ (forall u text,
        In (u, text) (NavigationScreen.awaiting s) ->
        text = NavigationMode.lastAnnouncement n).
Proof.
  intros Hloop. cbv zeta.
  assert (H0 : agree (NavigationScreen.mount w) (NavigationMode.mount w))
    by now repeat split.
  destruct (agree_steps steps _ _ Hloop H0) as (Hh & Hv & Hw & Href).
  split; [exact Hh|]. split; [exact Hv|]. split; [exact Hw|].
  destruct (NavigationScreen.awaiting _) as [|[u' text'] [|call rest]].
  - split; [intros _; exact Href | intros u text []].
  - split; [discriminate|].
    intros u text [[= <- <-]|[]]. exact Href.
  - destruct Href.
Qed.

Lemma one_loop_announces_in_one_step_witness :
  let left := NavigationMode.mkAnalysis "Step left" ["chair"]
                NavigationMode.High in
  let steps :=
    [NavigationMode.Frame true left;
     NavigationMode.Voice RecEnd;
     NavigationMode.Voice (UtteranceEnd 0);
     NavigationMode.Frame true left] in
  let s := fold_left NavigationScreen.step steps
             (NavigationScreen.mount listeningWorld) in
  let n := fold_left NavigationMode.step steps
             (NavigationMode.mount listeningWorld) in
  NavigationScreen.awaiting s = []
  /\ NavigationScreen.handed s = NavigationMode.announced n
  /\ NavigationScreen.voice s = NavigationMode.voice n
  /\ NavigationScreen.lastAnnouncementRef s
     = NavigationMode.lastAnnouncement n.
Proof.
  cbv zeta.
  destruct (one_loop_announces_in_one_step listeningWorld
              [NavigationMode.Frame true
                 (NavigationMode.mkAnalysis "Step left" ["chair"]
                    NavigationMode.High);
               NavigationMode.Voice RecEnd;
               NavigationMode.Voice (UtteranceEnd 0);
               NavigationMode.Frame true
                 (NavigationMode.mkAnalysis "Step left" ["chair"]
                    NavigationMode.High)]
              eq_refl) as (H1 & _ & H3 & H4 & _).
  assert (Hnone : NavigationScreen.awaiting
                    (fold_left NavigationScreen.step
                       [NavigationMode.Frame true
                          (NavigationMode.mkAnalysis "Step left" ["chair"]
                             NavigationMode.High);
                        NavigationMode.Voice RecEnd;
                        NavigationMode.Voice (UtteranceEnd 0);
                        NavigationMode.Frame true
                          (NavigationMode.mkAnalysis "Step left" ["chair"]
                             NavigationMode.High)]
                       (NavigationScreen.mount listeningWorld)) = [])
    by (vm_compute; reflexivity).
  exact (conj Hnone (conj H1 (conj H3 (H4 Hnone)))).
Defined.

(** X28. Calls of [processAndAnnounce] that overlap repeat the
    instruction.  While a call is suspended at [await speak(...)] the
    reference still holds the text before it, so a second call with the
    same instruction hands it to [speak] again. *)
Theorem overlapping_calls_repeat_the_instruction (h1 h2 : bool)
    (result : NavigationMode.NavigationAnalysis)
    (s : NavigationScreen.Screen) :
  speechSynthesis (NavigationScreen.voice s) = true ->
  provideFeedback (NavigationScreen.voice s) = true ->
  Str.truthy (NavigationMode.instruction result) = true ->
  NavigationMode.instruction result
  <> NavigationScreen.lastAnnouncementRef s ->
  let first := NavigationScreen.processAndAnnounce h1 result s in
  let second := NavigationScreen.processAndAnnounce h2 result first in
  NavigationScreen.lastAnnouncementRef first
  = NavigationScreen.lastAnnouncementRef s
  /\ NavigationScreen.awaiting first
     = NavigationScreen.awaiting s
       ++ [(nextUtterance (NavigationScreen.voice s),
            NavigationMode.instruction result)]
  /\ NavigationScreen.handed second
     = NavigationScreen.handed s
       ++ [NavigationMode.instruction result;
           NavigationMode.instruction result].
Proof.
  intros Hsynth Hfeedback Htext Hne. cbv zeta.
  assert (Hfirst :
            NavigationScreen.lastAnnouncementRef
              (NavigationScreen.processAndAnnounce h1 result s)
            = NavigationScreen.lastAnnouncementRef s
            /\ NavigationScreen.awaiting
                 (NavigationScreen.processAndAnnounce h1 result s)
               = NavigationScreen.awaiting s
                 ++ [(nextUtterance (NavigationScreen.voice s),
                      NavigationMode.instruction result)]
            /\ NavigationScreen.handed
                 (NavigationScreen.processAndAnnounce h1 result s)
               = NavigationScreen.handed s
                 ++ [NavigationMode.instruction result]).
  { unfold NavigationScreen.processAndAnnounce. cbv zeta.
    rewrite (proj2 (String.eqb_neq _ _) Hne). cbn [negb].
    unfold speak. rewrite Hsynth, Hfeedback, Htext. cbn [negb orb].
    cbv zeta.
    destruct (isListening (NavigationScreen.voice s)
              && autoStart (NavigationScreen.voice s));
      [destruct (recognition _)|]; now repeat split. }
  destruct Hfirst as (F1 & F2 & F3).
  split; [exact F1|]. split; [exact F2|].
  remember (NavigationScreen.processAndAnnounce h1 result s) as first
    eqn:Hf. clear Hf.
  unfold NavigationScreen.processAndAnnounce. cbv zeta.
  rewrite F1, (proj2 (String.eqb_neq _ _) Hne). cbn [negb].
  destruct (speak (NavigationMode.instruction result)
              (NavigationScreen.voice first)) as [[|u] w'];
    cbn; now rewrite F3, <- app_assoc.
Qed.

Lemma overlapping_calls_repeat_the_instruction_witness :
  let left := NavigationMode.mkAnalysis "Step left" ["chair"]
                NavigationMode.High in
  let s := NavigationScreen.mount listeningWorld in
  let second :=
    fold_left NavigationScreen.step
      [NavigationMode.Frame true left; NavigationMode.Frame true left] s in
  NavigationScreen.handed second = ["Step left"; "Step left"].
Proof.
  cbv zeta.
  destruct (overlapping_calls_repeat_the_instruction true true
              (NavigationMode.mkAnalysis "Step left" ["chair"]
                 NavigationMode.High)
              (NavigationScreen.mount listeningWorld)
              eq_refl eq_refl eq_refl) as (_ & _ & H3);
    [discriminate|].
  exact H3.
Defined.

(** ** What the text reader reads aloud *)

Lemma meaningful_not_empty (t : string) :
  TextReaderMode.isMeaningful t = true -> (t =? "") = false.
Proof. destruct t; [discriminate|reflexivity]. Qed.

Lemma read_invariant (s : TextReaderMode.Step) (r : TextReaderMode.Reader) :
  TextReaderMode.asciiStep s = true ->
  Forall (fun t => Str.isAscii t = true
                   /\ TextReaderMode.isMeaningful t = true
                   /\ Str.trim t = t)
    (TextReaderMode.readAloud r)
  /\ (TextReaderMode.lastSpokenText r = ""
      \/ TextReaderMode.isMeaningful (TextReaderMode.lastSpokenText r)
         = true) ->
  Forall (fun t => Str.isAscii t = true
                   /\ TextReaderMode.isMeaningful t = true
                   /\ Str.trim t = t)
    (TextReaderMode.readAloud (TextReaderMode.step r s))
  /\ (TextReaderMode.lastSpokenText (TextReaderMode.step r s) = ""
      \/ TextReaderMode.isMeaningful
           (TextReaderMode.lastSpokenText (TextReaderMode.step r s))
         = true).
Proof.
  intros Hascii [Hall Hlast]. destruct s as [haptic text|e]; [|now split].
  cbn [TextReaderMode.asciiStep] in Hascii.
  cbn [TextReaderMode.step]. unfold TextReaderMode.recognized. cbv zeta.
  destruct (TextReaderMode.isMeaningful (Str.trim text)) eqn:Hm;
    cbn [andb negb].
  - destruct (negb _); [|now split].
    cbn. split; [|now right].
    apply Forall_app. split; [exact Hall|].
    constructor; [|constructor].
    split; [now apply isAscii_trim|]. split; [exact Hm|apply trim_idem].
  - destruct (negb _); [|now split].
    cbn. split; [exact Hall|now left].
Qed.

(** X23. The text reader reads aloud only text worth reading.  Whatever
    frames with ASCII text arrive and whatever happens to the voice
    controller in between, every text handed to [speak] is ASCII, trimmed,
    longer than two characters and not the ['No text detected.'] marker,
    and the reference holds either such a text or the empty string.
    (Outside ASCII the length and the white space of JavaScript are not
    those of the model; the property is stated for ASCII text.) *)
Theorem only_meaningful_text_is_read (w : World)
    (steps : list TextReaderMode.Step) :
  forallb TextReaderMode.asciiStep steps = true ->
  let r := fold_left TextReaderMode.step steps (TextReaderMode.mount w) in
  Forall (fun t => Str.isAscii t = true
                   /\ TextReaderMode.isMeaningful t = true
                   /\ Str.trim t = t)
    (TextReaderMode.readAloud r)
  /\ (TextReaderMode.lastSpokenText r = ""
      \/ TextReaderMode.isMeaningful (TextReaderMode.lastSpokenText r)
         = true).
Proof.
  intros Hascii. cbv zeta.
  assert (H0 : Forall
                 (fun t => Str.isAscii t = true
                           /\ TextReaderMode.isMeaningful t = true
                           /\ Str.trim t = t)
                 (TextReaderMode.readAloud (TextReaderMode.mount w))
               /\ (TextReaderMode.lastSpokenText (TextReaderMode.mount w) = ""
                   \/ TextReaderMode.isMeaningful
                        (TextReaderMode.lastSpokenText
                           (TextReaderMode.mount w)) = true)).
  { split; [constructor | now left]. }
  revert H0. generalize (TextReaderMode.mount w).
  induction steps as [|s steps IH]; intros r Hr; [exact Hr|].
  cbn [forallb] in Hascii. apply andb_true_iff in Hascii as [Hs Hrest].
  cbn [fold_left]. apply (IH Hrest). now apply read_invariant.
Qed.

Lemma only_meaningful_text_is_read_witness :
  let steps :=
    [TextReaderMode.Text true " EXIT 12 "; TextReaderMode.Voice RecEnd;
     TextReaderMode.Text true "ab"; TextReaderMode.Text false " EXIT 12 "] in
  let r := fold_left TextReaderMode.step steps
             (TextReaderMode.mount listeningWorld) in
  Forall (fun t => Str.isAscii t = true
                   /\ TextReaderMode.isMeaningful t = true
                   /\ Str.trim t = t)
    (TextReaderMode.readAloud r)
  /\ (TextReaderMode.lastSpokenText r = ""
      \/ TextReaderMode.isMeaningful (TextReaderMode.lastSpokenText r)
         = true).
Proof.
  exact (only_meaningful_text_is_read listeningWorld
           [TextReaderMode.Text true " EXIT 12 "; TextReaderMode.Voice RecEnd;
            TextReaderMode.Text true "ab";
            TextReaderMode.Text false " EXIT 12 "] eq_refl).
Defined.

(** X24. A text that stays in view is read once; a text that disappears
    and comes back is read again.  For ASCII text: after a frame with the
    text, a second frame with the same text reads nothing, while a frame
    without meaningful text in between clears the reference, so that the
    text is read again when it returns. *)
Theorem text_is_read_again_after_it_disappeared (h1 h2 h3 : bool)
    (text gap : string) (r : TextReaderMode.Reader) :
  Str.isAscii text = true -> Str.isAscii gap = true ->
  TextReaderMode.isMeaningful (Str.trim text) = true ->
  TextReaderMode.isMeaningful (Str.trim gap) = false ->
  let once := TextReaderMode.recognized h1 text r in
  TextReaderMode.recognized h2 text once = once
  /\ TextReaderMode.readAloud
       (TextReaderMode.recognized h3 text
          (TextReaderMode.recognized h2 gap once))
     = TextReaderMode.readAloud once ++ [Str.trim text].
Proof.
  intros _ _ Hm Hgap.
  assert (Honce : TextReaderMode.lastSpokenText
                    (TextReaderMode.recognized h1 text r) = Str.trim text).
  { unfold TextReaderMode.recognized. cbv zeta. rewrite Hm. cbn [andb negb].
    destruct (String.eqb_spec (Str.trim text)
                (TextReaderMode.lastSpokenText r)) as [Heq|Hne];
      cbn [negb]; [now symmetry | reflexivity]. }
  cbv zeta.
  remember (TextReaderMode.recognized h1 text r) as once eqn:Ho. clear Ho.
  split.
  - unfold TextReaderMode.recognized. cbv zeta.
    now rewrite Hm, Honce, String.eqb_refl.
  - unfold TextReaderMode.recognized at 2. cbv zeta.
    rewrite Hgap, Honce, (meaningful_not_empty _ Hm). cbn [andb negb].
    unfold TextReaderMode.recognized. cbv zeta. rewrite Hm. cbn.
    rewrite (proj2 (String.eqb_neq _ _)); [reflexivity|].
    intros E. pose proof (meaningful_not_empty _ Hm) as Hne.
    rewrite E in Hne. discriminate.
Qed.

Lemma text_is_read_again_after_it_disappeared_witness :
  let r := TextReaderMode.mount listeningWorld in
  let once := TextReaderMode.recognized true " EXIT 12 " r in
  TextReaderMode.recognized true " EXIT 12 " once = once
  /\ TextReaderMode.readAloud
       (TextReaderMode.recognized true " EXIT 12 "
          (TextReaderMode.recognized true "No text detected." once))
     = TextReaderMode.readAloud once ++ [Str.trim " EXIT 12 "].
Proof.
  exact (text_is_read_again_after_it_disappeared true true true
           " EXIT 12 " "No text detected."
           (TextReaderMode.mount listeningWorld)
           eq_refl eq_refl eq_refl eq_refl).
Defined.

(** ** Reconfiguring while a timer is pending *)

(** X25. [updateConfig] reconfigures and nothing else: it cancels no
    timer and changes no flag but [autoStart].  So a restart or retry
    that is already pending still happens after restarting has been
    switched off: when the timer fires, recognition is started. *)
Theorem updateConfig_does_not_cancel_pending_start
    (newConfig : VoiceControllerOptions) (t : Timer) (w : World) :
  timers w = [t] ->
  recognition w = true -> isListening w = false ->
  recognitionStarted w = false ->
  let configured := handle (CallUpdateConfig newConfig) w in
  timers configured = [t]
  /\ log configured = log w
  /\ autoStart configured = orElse (optAutoStart newConfig) (autoStart w)
  /\ starts (handle (TimerFire (timerId t)) configured) = S (starts w).
Proof.
  intros Ht Hrec Hlis Hst. cbv zeta. cbn [handle].
  assert (Hc : timers (updateConfig newConfig w) = [t]
               /\ log (updateConfig newConfig w) = log w
               /\ autoStart (updateConfig newConfig w)
                  = orElse (optAutoStart newConfig) (autoStart w)
               /\ recognition (updateConfig newConfig w) = true
               /\ isListening (updateConfig newConfig w) = false
               /\ recognitionStarted (updateConfig newConfig w) = false).
  { unfold updateConfig. cbv zeta.
    match goal with
    | |- context [if ?c then _ else _] => destruct c
    end; cbn; now rewrite Ht, Hrec, Hlis, Hst. }
  destruct Hc as (C1 & C2 & C3 & C4 & C5 & C6).
  remember (updateConfig newConfig w) as w' eqn:Hw'. clear Hw'.
  split; [exact C1|]. split; [exact C2|]. split; [exact C3|].
  rewrite (fireTimer_single t w' C1).
  assert (Hs : starts w' = starts w) by (unfold starts; now rewrite C2).
  rewrite <- Hs.
  destruct (timerCallback t).
  - now destruct (starts_startListening_idle (set_timers [] w') C4 C5 C6).
  - now destruct (starts_startListening_idle
                    (set_isErrorRecovery false (set_timers [] w'))
                    C4 C5 C6).
Qed.

Lemma updateConfig_does_not_cancel_pending_start_witness :
  let w := run [RecStart; RecEnd] (construct defaultOptions sampleHost) in
  let t := mkTimer 1 RestartCallback (Num.ofPos 250) in
  let configured :=
    handle (CallUpdateConfig (mkOptions (Some false) None None None)) w in
  timers configured = [t]
  /\ log configured = log w
  /\ autoStart configured = false
  /\ starts (handle (TimerFire (timerId t)) configured) = S (starts w).
Proof.
  exact (updateConfig_does_not_cancel_pending_start
           (mkOptions (Some false) None None None)
           (mkTimer 1 RestartCallback (Num.ofPos 250))
           (run [RecStart; RecEnd] (construct defaultOptions sampleHost))
           eq_refl eq_refl eq_refl eq_refl).
Defined.
(** ** A failing text recognition *)

Lemma failure_message_meaningful (error : option string) :
  TextReaderMode.isMeaningful
    (Str.trim (GeminiService.readTextFromImageFailed error)) = true
  /\ Str.trim (GeminiService.readTextFromImageFailed error)
     = GeminiService.readTextFromImageFailed error.
Proof.
  unfold GeminiService.readTextFromImageFailed,
    GeminiService.getGeminiErrorUserMessage.
  destruct error as [m|]; [|split; reflexivity]. cbv zeta.
  repeat match goal with
         | |- context [if ?c then _ else _] =>
             destruct c; [split; reflexivity|]
         end.
  split; reflexivity.
Qed.

(** X26. In the text reader a failure of the recognition service is read
    aloud as if it were text in view.  [readTextFromImage] resolves to
    the user message of the failure; every such message passes as
    meaningful text, so the reader hands it to [speak] and keeps it as
    the last spoken text, unless it is the text spoken last, and a second
    frame failing in the same way reads nothing. *)
Theorem recognition_failure_is_read_aloud (error : option string)
    (h1 h2 : bool) (r : TextReaderMode.Reader) :
  let message := GeminiService.readTextFromImageFailed error in
  message <> TextReaderMode.lastSpokenText r ->
  let failed := TextReaderMode.recognized h1 message r in
  TextReaderMode.readAloud failed = TextReaderMode.readAloud r ++ [message]
  /\ TextReaderMode.lastSpokenText failed = message
  /\ TextReaderMode.recognized h2 message failed = failed.
Proof.
  cbv zeta. intros Hnew.
  destruct (failure_message_meaningful error) as [Hm Ht].
  remember (GeminiService.readTextFromImageFailed error) as message eqn:E.
  clear E.
  assert (Hfirst : TextReaderMode.recognized h1 message r
                   = TextReaderMode.mkReader message
                       (if h1 then S (TextReaderMode.pulses r)
                        else TextReaderMode.pulses r)
                       (TextReaderMode.readAloud r ++ [message])
                       (snd (speak message (TextReaderMode.voice r)))).
  { unfold TextReaderMode.recognized. cbv zeta. rewrite Hm, Ht.
    now rewrite (proj2 (String.eqb_neq _ _) Hnew). }
  rewrite Hfirst. split; [reflexivity|]. split; [reflexivity|].
  unfold TextReaderMode.recognized. cbv zeta. rewrite Hm, Ht. cbn.
  now rewrite String.eqb_refl.
Qed.

Lemma recognition_failure_is_read_aloud_witness :
  let message :=
    GeminiService.readTextFromImageFailed (Some "429 Rate limit reached") in
  let r := TextReaderMode.mount listeningWorld in
  let failed := TextReaderMode.recognized true message r in
  TextReaderMode.readAloud failed = TextReaderMode.readAloud r ++ [message]
  /\ TextReaderMode.lastSpokenText failed = message
  /\ TextReaderMode.recognized true message failed = failed.
Proof.
  apply (recognition_failure_is_read_aloud (Some "429 Rate limit reached")
           true true (TextReaderMode.mount listeningWorld)).
  discriminate.
Defined.
